(** * Learning core of the snake agents (src/agent.py)

    A shallow embedding of the parts of [agent.py] that the specification
    talks about: the coordinate conversions of the base [Agent], the NumPy
    preprocessing pipeline of [DeepQLearningAgent._prepare_input], the
    bootstrap/target arithmetic and the optimiser wiring of
    [DeepQLearningAgent.train_agent], target-network synchronisation,
    model loading, and the reward normalisation of
    [AdvantageActorCriticAgent.train_agent]; and further the Huber loss,
    the choice of a move and the action probabilities, the constructor,
    saving the models, the grid of point values, the shapes the two
    networks accept, and the optimiser of the actor-critic trainer.

    Numbers.  Python integers are [Z].  Floating-point values are modelled
    by [xnum]: the IEEE-754 special values (both infinities and NaN) are
    explicit, finite values are rationals.  The NumPy arithmetic of the
    preprocessing (float32) and of the reward normalisation (float64)
    rounds every result to the format, see [Float]; the arithmetic of the
    torch tensors (the losses, the targets, the action probabilities) is
    on the exact values.  The reward normalisation is evaluated over the
    real numbers as well, where it has the mean and the variance it is
    meant to have. *)

From Stdlib Require Import ZArith QArith Qabs Qround Lia Lra DecimalString.
From Stdlib Require Reals Lqa.
From stdpp Require Import gmap strings list fin_maps.

Local Open Scope Z_scope.

(** ** Agent: conversions between a flat point and (row, col) *)

Module Agent.

(** [return (point // self._board_size, point % self._board_size)];
    Python's [//] and [%] are floor division and its remainder, which is
    what [Z.div] and [Z.modulo] compute. *)
Definition _point_to_row_col (_board_size point : Z) : Z * Z :=
  (point / _board_size, point mod _board_size).

(** [return row * self._board_size + col] *)
Definition _row_col_to_point (_board_size row col : Z) : Z :=
  row * _board_size + col.

End Agent.

(** ** Extended numbers: the float semantics the code relies on *)

Module XNum.

Inductive xnum : Type :=
| Fin (q : Q)
| PInf
| NInf
| NaN.

Definition of_Z (z : Z) : xnum := Fin (inject_Z z).

Definition is_fin (x : xnum) : bool :=
  match x with Fin _ => true | _ => false end.

(** Sign of a rational as a [comparison] with zero. *)
Definition Qsgn (q : Q) : comparison := (0 ?= q)%Q.

(** An infinity of the given sign ([true] is positive). *)
Definition inf (positive : bool) : xnum := if positive then PInf else NInf.

(** Infinity times a finite value: the sign follows the factor, and
    infinity times zero is NaN. *)
Definition inf_times (positive : bool) (q : Q) : xnum :=
  match Qsgn q with
  | Lt => inf positive
  | Gt => inf (negb positive)
  | Eq => NaN
  end.

Definition xmul (x y : xnum) : xnum :=
  match x, y with
  | NaN, _ | _, NaN => NaN
  | Fin a, Fin b => Fin (a * b)
  | PInf, Fin b | Fin b, PInf => inf_times true b
  | NInf, Fin b | Fin b, NInf => inf_times false b
  | PInf, PInf | NInf, NInf => PInf
  | PInf, NInf | NInf, PInf => NInf
  end.

Definition xadd (x y : xnum) : xnum :=
  match x, y with
  | NaN, _ | _, NaN => NaN
  | Fin a, Fin b => Fin (a + b)
  | PInf, NInf | NInf, PInf => NaN
  | PInf, _ | _, PInf => PInf
  | NInf, _ | _, NInf => NInf
  end.

Definition xneg (x : xnum) : xnum :=
  match x with
  | Fin a => Fin (- a)
  | PInf => NInf
  | NInf => PInf
  | NaN => NaN
  end.

Definition xsub (x y : xnum) : xnum := xadd x (xneg y).

Definition xabs (x : xnum) : xnum :=
  match x with
  | Fin a => Fin (Qabs a)
  | PInf | NInf => PInf
  | NaN => NaN
  end.

(** [x < y] as a comparison of floats: false as soon as one side is NaN. *)
Definition xltb (x y : xnum) : bool :=
  match x, y with
  | NaN, _ | _, NaN => false
  | Fin a, Fin b => match (a ?= b)%Q with Lt => true | _ => false end
  | NInf, NInf | PInf, _ | _, NInf => false
  | NInf, _ | _, PInf => true
  end.

(** [np.maximum]: NaN propagates, otherwise the larger operand. *)
Definition xmax (x y : xnum) : xnum :=
  match x, y with
  | NaN, _ | _, NaN => NaN
  | _, _ => if xltb x y then y else x
  end.

(** [np.sign] *)
Definition xsign (x : xnum) : xnum :=
  match x with
  | Fin a => match Qsgn a with Lt => Fin 1 | Eq => Fin 0 | Gt => Fin (-1) end
  | PInf => Fin 1
  | NInf => Fin (-1)
  | NaN => NaN
  end.

(** Two results denote the same value: the same special value, or finite
    values that are equal as rationals. *)
Definition xsame (x y : xnum) : Prop :=
  match x, y with
  | Fin a, Fin b => (a == b)%Q
  | PInf, PInf | NInf, NInf | NaN, NaN => True
  | _, _ => False
  end.

(** The order [np.max] realises on values that are not NaN. *)
Definition xle (x y : xnum) : Prop :=
  match x, y with
  | NaN, _ | _, NaN => False
  | NInf, _ | _, PInf => True
  | Fin a, Fin b => (a <= b)%Q
  | _, _ => False
  end.

End XNum.

(** ** Floating-point arithmetic of arrays

    An operation on floats is the operation on the exact values followed
    by rounding to the nearest value of the format, ties to even, as
    IEEE 754 prescribes; a result beyond the largest finite value is an
    infinity.  The sign of a zero is not modelled. *)

Module Float.
Import XNum.

(** A binary format: the number of bits of the significand and the
    largest exponent. *)
Record format : Type := { prec : Z; emax : Z }.

Definition binary32 : format := {| prec := 24; emax := 127 |}.
Definition binary64 : format := {| prec := 53; emax := 1023 |}.

Definition pow2 (e : Z) : Q := Qpower 2 e.

(** The exponent of the smallest positive value of the format. *)
Definition emin (fmt : format) : Z := 2 - emax fmt - prec fmt.

(** [floor (log2 q)] for a positive [q]. *)
Definition ilog2 (q : Q) : Z :=
  let e := Z.log2 (Qnum q) - Z.log2 (Z.pos (Qden q)) in
  if Qle_bool (pow2 e) q then e else e - 1.

(** The integer nearest to a value between [f] and [f + 1], given how
    the value compares with [f + 1/2]. *)
Definition nearest_even (f : Z) (c : comparison) : Z :=
  match c with
  | Lt => f
  | Gt => f + 1
  | Eq => if Z.even f then f else f + 1
  end.

Definition round_canonical (fmt : format) (q : Q) : xnum :=
  if Qeq_bool q 0 then Fin 0 else
  let ulp := Z.max (ilog2 (Qabs q) - (prec fmt - 1)) (emin fmt) in
  let m := (q / pow2 ulp)%Q in
  let f := Qfloor m in
  let n := nearest_even f (Qcompare (m - inject_Z f) (1 # 2)) in
  let r := Qred (inject_Z n * pow2 ulp) in
  if Qle_bool (pow2 (emax fmt + 1)) (Qabs r) then inf (0 <? n) else Fin r.

(** The value of the format nearest to [q]. *)
Definition round (fmt : format) (q : Q) : xnum := round_canonical fmt (Qred q).

Definition rnd (fmt : format) (x : xnum) : xnum :=
  match x with
  | Fin q => round fmt q
  | _ => x
  end.

(** A rational that is a value of the format. *)
Definition representable (fmt : format) (q : Q) : Prop :=
  xsame (round fmt q) (Fin q).

Definition fadd (fmt : format) (x y : xnum) : xnum := rnd fmt (xadd x y).
Definition fsub (fmt : format) (x y : xnum) : xnum := rnd fmt (xsub x y).
Definition fmul (fmt : format) (x y : xnum) : xnum := rnd fmt (xmul x y).

(** Exact division: a finite value over zero is an infinity, zero over
    zero and infinity over infinity are NaN. *)
Definition xdiv (x y : xnum) : xnum :=
  match x, y with
  | NaN, _ | _, NaN => NaN
  | Fin a, Fin b =>
      match Qsgn b with
      | Eq => match Qsgn a with Lt => PInf | Eq => NaN | Gt => NInf end
      | _ => Fin (a / b)
      end
  | Fin _, _ => Fin 0
  | PInf, Fin b => match Qsgn b with Gt => NInf | _ => PInf end
  | NInf, Fin b => match Qsgn b with Gt => PInf | _ => NInf end
  | _, _ => NaN
  end.

Definition fdiv (fmt : format) (x y : xnum) : xnum := rnd fmt (xdiv x y).

Definition sqrt_canonical (fmt : format) (q : Q) : xnum :=
  let ulp := Z.max (ilog2 q / 2 - (prec fmt - 1)) (emin fmt) in
  let t := (q / pow2 (2 * ulp))%Q in
  let f := Z.sqrt (Qfloor t) in
  let half := (inject_Z f + (1 # 2))%Q in
  let n := nearest_even f (Qcompare t (half * half)) in
  Fin (Qred (inject_Z n * pow2 ulp)).

(** The value of the format nearest to the square root. *)
Definition fsqrt (fmt : format) (x : xnum) : xnum :=
  match x with
  | Fin q =>
      match Qsgn q with
      | Lt => sqrt_canonical fmt (Qred q)
      | Eq => Fin 0
      | Gt => NaN
      end
  | PInf => PInf
  | NInf | NaN => NaN
  end.

(** [x == y] on floats: false as soon as one side is NaN. *)
Definition feqb (x y : xnum) : bool :=
  match x, y with
  | Fin a, Fin b => Qeq_bool a b
  | PInf, PInf | NInf, NInf => true
  | _, _ => false
  end.

End Float.

(** ** Losses and the Q-learning target arithmetic *)

Module Loss.
Import XNum.

(** [huber_loss] on one element, on the exact values (the rounding of
    the tensor operations is not part of this definition):
    [error = y_true - y_pred],
    [quad_error = 0.5 * error**2],
    [lin_error = delta * (abs(error) - 0.5 * delta)],
    [torch.where(abs(error) < delta, quad_error, lin_error)]. *)
Definition huber_loss1 (delta : Q) (y_true y_pred : xnum) : xnum :=
  let error := xsub y_true y_pred in
  let quad_error := xmul (Fin (1 # 2)) (xmul error error) in
  let lin_error :=
    xmul (Fin delta) (xsub (xabs error) (xmul (Fin (1 # 2)) (Fin delta))) in
  if xltb (xabs error) (Fin delta) then quad_error else lin_error.

(** [huber_loss] on two (flattened) tensors of the same shape. *)
Definition huber_loss (delta : Q) (y_true y_pred : list xnum) : option (list xnum) :=
  if decide (length y_true = length y_pred)
  then Some (zip_with (huber_loss1 delta) y_true y_pred)
  else None.

(** [torch.mean]: the sum over the number of elements; the mean of no
    element is NaN. *)
Definition mean (l : list xnum) : xnum :=
  match l with
  | [] => NaN
  | x :: rest =>
      xmul (foldl xadd x rest) (Fin (1 / inject_Z (Z.of_nat (length l))))
  end.

(** [mean_huber_loss(y_true, y_pred, delta=1)] *)
Definition mean_huber_loss (y_true y_pred : list xnum) : option xnum :=
  mean <$> huber_loss 1 y_true y_pred.

End Loss.

Module QTarget.
Import XNum.

(** One row of [np.where(legal_moves == 1, next_model_outputs, -np.inf)];
    the two arrays must have the same shape. *)
Definition where_legal (legal_moves : list Z) (outputs : list xnum)
  : option (list xnum) :=
  if decide (length legal_moves = length outputs)
  then Some (zip_with (fun m v => if m =? 1 then v else NInf) legal_moves outputs)
  else None.

(** One row of [np.max(_, axis=1)]: a left fold of [np.maximum]; the
    reduction of a row without elements raises. *)
Definition row_max (row : list xnum) : option xnum :=
  match row with
  | [] => None
  | x :: rest => Some (foldl xmax x rest)
  end.

(** The bootstrap value of one transition,
    [np.max(np.where(legal_moves == 1, next_model_outputs, -np.inf), axis=1)]. *)
Definition next_value (legal_moves : list Z) (outputs : list xnum) : option xnum :=
  where_legal legal_moves outputs ≫= row_max.

(** One row of
    [discounted_reward = r + (self._gamma * np.max(...).reshape(-1, 1)) * (1 - done)]. *)
Definition discounted_reward_row (gamma : Q) (r : xnum) (legal_moves : list Z)
    (outputs : list xnum) (done : Z) : option xnum :=
  m ← next_value legal_moves outputs;
  Some (xadd r (xmul (xmul (Fin gamma) m) (of_Z (1 - done)))).

(** One row of [target = (1 - a) * target + a * discounted_reward], where
    the right-hand [target] holds the current model outputs. *)
Definition target_row (a : list Z) (current_q : list xnum) (dr : xnum)
  : option (list xnum) :=
  if decide (length a = length current_q)
  then Some (zip_with
               (fun ai qi => xadd (xmul (of_Z (1 - ai)) qi) (xmul (of_Z ai) dr))
               a current_q)
  else None.

(** [discounted_reward] for a batch: [r] and [done] are columns with one
    entry per sampled transition, the masks and outputs have one row per
    transition. *)
Definition discounted_reward (gamma : Q) (r : list xnum)
    (legal_moves : list (list Z)) (next_model_outputs : list (list xnum))
    (done : list Z) : option (list xnum) :=
  if decide (length r = length legal_moves /\
             length legal_moves = length next_model_outputs /\
             length next_model_outputs = length done)
  then mapM (fun x => discounted_reward_row gamma x.1.1.1 x.1.1.2 x.1.2 x.2)
            (zip (zip (zip r legal_moves) next_model_outputs) done)
  else None.

(** [target = (1 - a) * target + a * discounted_reward] for a batch. *)
Definition target (a : list (list Z)) (current_q : list (list xnum))
    (discounted_reward : list xnum) : option (list (list xnum)) :=
  if decide (length a = length current_q /\
             length current_q = length discounted_reward)
  then mapM (fun x => target_row x.1.1 x.1.2 x.2)
            (zip (zip a current_q) discounted_reward)
  else None.

End QTarget.

(** ** NumPy arrays and the observation preprocessing

    An [ndarray] is a view: a shape and strides (in elements) over a
    buffer that lives in a store of buffers, so that views share their
    buffer with the array they were taken from and an operation that
    wrote through a view would change what the caller sees.  The buffer
    records whether it holds integers, float32 or float64 values; a
    conversion to a float type and an operation on floats round as
    [Float] describes. *)

Module Numpy.
Import XNum.

Inductive dtype : Type := int_dtype | float32 | float64.

Record buffer : Type := { buf_dtype : dtype; buf_data : list xnum }.

Record ndarray : Type := { base : nat; shape : list nat; strides : list nat }.

Definition ndim (a : ndarray) : nat := length (shape a).

(** Number of elements of an array of the given shape. *)
Definition prod (shape : list nat) : nat := foldr Nat.mul 1%nat shape.

(** Strides of a C-contiguous (row-major) array. *)
Fixpoint c_strides (shape : list nat) : list nat :=
  match shape with
  | [] => []
  | d :: ds => prod ds :: c_strides ds
  end.

Definition offset (strides idx : list nat) : nat :=
  foldr Nat.add 0%nat (zip_with Nat.mul idx strides).

Fixpoint in_range (idx shape : list nat) : bool :=
  match idx, shape with
  | [], [] => true
  | i :: idx, d :: shape => bool_decide (i < d)%nat && in_range idx shape
  | _, _ => false
  end.

(** All indices of a shape in row-major order. *)
Fixpoint indices (shape : list nat) : list (list nat) :=
  match shape with
  | [] => [[]]
  | d :: ds => i ← seq 0 d; cons i <$> indices ds
  end.

(** The element of a view at an index. *)
Definition read (shape strides : list nat) (b : buffer) (idx : list nat)
  : option xnum :=
  if in_range idx shape then buf_data b !! offset strides idx else None.

(** All elements of a view in row-major order. *)
Definition gather (shape strides : list nat) (b : buffer) : option (list xnum) :=
  mapM (read shape strides b) (indices shape).

(** [a[idx]] *)
Definition get (h : gmap nat buffer) (a : ndarray) (idx : list nat) : option xnum :=
  b ← h !! base a; read (shape a) (strides a) b idx.

(** [a.dtype] *)
Definition dtype_of (h : gmap nat buffer) (a : ndarray) : option dtype :=
  buf_dtype <$> h !! base a.

(** [a.ravel().tolist()] *)
Definition to_list (h : gmap nat buffer) (a : ndarray) : option (list xnum) :=
  b ← h !! base a; gather (shape a) (strides a) b.

(** Computations on the store of buffers; [None] is a raised exception,
    and the store as it was when the exception was raised is kept. *)
Definition M (A : Type) : Type := gmap nat buffer -> option A * gmap nat buffer.

#[export] Instance M_ret : MRet M := fun A x h => (Some x, h).

#[export] Instance M_bind : MBind M := fun A B f m h =>
  match m h with
  | (Some x, h') => f x h'
  | (None, h') => (None, h')
  end.

Definition raise {A : Type} : M A := fun h => (None, h).

(** A new C-contiguous array over a newly allocated buffer. *)
Definition new_array (shape : list nat) (b : buffer) : M ndarray := fun h =>
  let l := fresh (dom h) in
  (Some {| base := l; shape := shape; strides := c_strides shape |},
   <[l := b]> h).

(** An operation that reads every element of [a] through its view and
    stores the images under [f] in a new array; the dtype of the result
    and the function applied follow from the dtype of [a]. *)
Definition elementwise (out : dtype -> dtype) (f : dtype -> xnum -> xnum)
    (a : ndarray) : M ndarray := fun h =>
  match h !! base a with
  | Some b =>
      match gather (shape a) (strides a) b with
      | Some data =>
          new_array (shape a)
            {| buf_dtype := out (buf_dtype b);
               buf_data := f (buf_dtype b) <$> data |} h
      | None => (None, h)
      end
  | None => (None, h)
  end.

(** [a.copy()] *)
Definition copy : ndarray -> M ndarray :=
  elementwise (fun d => d) (fun _ x => x).

(** The conversion of one element to float32: the nearest float32 value;
    an element that is a float32 value already is kept. *)
Definition cast_float32 (from : dtype) (x : xnum) : xnum :=
  match from with
  | float32 => x
  | _ => Float.rnd Float.binary32 x
  end.

(** [a.astype(np.float32)] *)
Definition astype_float32 : ndarray -> M ndarray :=
  elementwise (fun _ => float32) cast_float32.

(** The dtype of [a / d] for a Python float [d]: a float32 array stays
    float32, any other array gives float64. *)
Definition true_divide_dtype (d : dtype) : dtype :=
  match d with
  | float32 => float32
  | _ => float64
  end.

(** One element of [a / d]: the operands are converted to the dtype of
    the result and divided there. *)
Definition true_divide1 (d : Q) (from : dtype) (x : xnum) : xnum :=
  match from with
  | float32 => Float.fdiv Float.binary32 x (Float.round Float.binary32 d)
  | float64 => Float.fdiv Float.binary64 x (Float.round Float.binary64 d)
  | int_dtype =>
      Float.fdiv Float.binary64 (Float.rnd Float.binary64 x)
        (Float.round Float.binary64 d)
  end.

(** [a / d] for a Python float [d] *)
Definition true_divide (d : Q) : ndarray -> M ndarray :=
  elementwise true_divide_dtype (true_divide1 d).

(** [a.reshape(newshape)]: the sizes must agree; a C-contiguous array is
    re-viewed over the same buffer, any other array is copied first. *)
Definition reshape (a : ndarray) (newshape : list nat) : M ndarray :=
  if decide (prod newshape = prod (shape a)) then
    if decide (strides a = c_strides (shape a)) then
      mret {| base := base a; shape := newshape; strides := c_strides newshape |}
    else
      c ← copy a;
      mret {| base := base c; shape := newshape; strides := c_strides newshape |}
  else raise.

(** [a.transpose(axes)]: a view with permuted shape and strides. *)
Definition transpose (a : ndarray) (axes : list nat) : ndarray :=
  {| base := base a;
     shape := (fun k => default 0%nat (shape a !! k)) <$> axes;
     strides := (fun k => default 0%nat (strides a !! k)) <$> axes |}.

(** [np.rollaxis(a, axis, start)] for non-negative [axis] and [start]:
    [axis] must be an axis of [a] and [start] at most [a.ndim]; the axis
    is removed from [range(n)] and inserted back before position [start]
    (one less when the axis was before it). *)
Definition rollaxis (a : ndarray) (axis start : nat) : M ndarray :=
  let n := ndim a in
  if decide (axis < n /\ start <= n)%nat then
    let start' := if decide (axis < start)%nat then (start - 1)%nat else start in
    if decide (axis = start') then mret a
    else
      let axes := delete axis (seq 0 n) in
      mret (transpose a (take start' axes ++ axis :: drop start' axes))
  else raise.

(** *** Predicates on arrays and runs *)

(** An array whose buffer exists and whose elements can all be read. *)
Definition readable (h : gmap nat buffer) (a : ndarray) : Prop :=
  is_Some (h !! base a) /\
  forall idx, in_range idx (shape a) = true -> is_Some (get h a idx).

(** A computation that leaves every existing buffer as it is. *)
Definition extends {A : Type} (m : M A) : Prop := forall h, h ⊆ (m h).2.

(** Two views with the same shape and strides over buffers with the same
    contents, possibly in different stores. *)
Definition same_view (h : gmap nat buffer) (a : ndarray)
    (h' : gmap nat buffer) (a' : ndarray) : Prop :=
  shape a = shape a' /\ strides a = strides a' /\ h !! base a = h' !! base a'.

(** Two runs that both raise, or both return and return the same view. *)
Definition sim_result (x x' : option ndarray * gmap nat buffer) : Prop :=
  match x.1, x'.1 with
  | Some r, Some r' => same_view x.2 r x'.2 r'
  | None, None => True
  | _, _ => False
  end.

End Numpy.

(** ** DeepQLearningAgent: preprocessing *)

Module Preprocess.
Import Numpy.

(** [return board.astype(np.float32) / 4.0] *)
Definition _normalize_board (board : ndarray) : M ndarray :=
  f ← astype_float32 board;
  true_divide 4 f.

(** One element of the result of [_normalize_board], from the element of
    [board] and the dtype of [board]: the division is one of float32
    values. *)
Definition normalized (from : dtype) (x : XNum.xnum) : XNum.xnum :=
  true_divide1 4 float32 (cast_float32 from x).

(** [_prepare_input]:
    [if board.ndim == 3: board = board.reshape((1,) + self._input_shape)],
    [board = np.rollaxis(board, 3, 1)],
    [board = self._normalize_board(board.copy())],
    [return board.copy()]. *)
Definition _prepare_input (_input_shape : list nat) (board : ndarray) : M ndarray :=
  board1 ← (if decide (ndim board = 3%nat)
            then reshape board (1%nat :: _input_shape)
            else mret board);
  board2 ← rollaxis board1 3 1;
  c ← copy board2;
  n ← _normalize_board c;
  copy n.

End Preprocess.

(** ** PyTorch objects and the agent object

    A parameter tensor is a cell of a tensor storage; an [nn.Module] is
    the list of its named parameters with the cell of each.  The
    [OrderedDict] that [state_dict()] returns is an object of its own,
    created at each call, whose entries refer to the cells of the
    parameters; assigning to one of its keys rebinds that key of the
    dictionary.  The agent object holds its attributes, the tensor
    storage, the [.grad] of each parameter and the dictionaries. *)

Module Torch.
Import XNum.

(** The values of a parameter tensor, flattened. *)
Abbreviation tensor := (list Q) (only parsing).

(** Named parameters of an [nn.Module], in registration order. *)
Abbreviation module := (list (string * nat)) (only parsing).

Inductive exn : Type :=
| AttributeError | KeyError | ValueError | RuntimeError
| FileNotFoundError | InsufficientDataError.

Inductive result (A : Type) : Type :=
| Ok (x : A)
| Raise (e : exn).
Arguments Ok {A} x.
Arguments Raise {A} e.

Record agent : Type := mk_agent {
  _use_target_net : bool;
  _gamma : Q;
  _model : option module;
  _target_net : option module;
  _full_model : option module;
  _values_model : option module;
  (** [self.optimizer]: the parameters it was built over *)
  optimizer : option (list nat);
  (** the running average RMSprop keeps for each of its parameters *)
  square_avg : gmap nat tensor;
  tensors : gmap nat tensor;
  (** [p.grad]; absent when it is [None] *)
  grads : gmap nat tensor;
  dicts : gmap nat (list (string * nat))
}.

Definition set_model (m : option module) (ag : agent) : agent :=
  mk_agent (_use_target_net ag) (_gamma ag) m (_target_net ag) (_full_model ag)
    (_values_model ag) (optimizer ag) (square_avg ag) (tensors ag) (grads ag) (dicts ag).

Definition set_target_net (m : option module) (ag : agent) : agent :=
  mk_agent (_use_target_net ag) (_gamma ag) (_model ag) m (_full_model ag)
    (_values_model ag) (optimizer ag) (square_avg ag) (tensors ag) (grads ag) (dicts ag).

Definition set_full_model (m : option module) (ag : agent) : agent :=
  mk_agent (_use_target_net ag) (_gamma ag) (_model ag) (_target_net ag) m
    (_values_model ag) (optimizer ag) (square_avg ag) (tensors ag) (grads ag) (dicts ag).

Definition set_values_model (m : option module) (ag : agent) : agent :=
  mk_agent (_use_target_net ag) (_gamma ag) (_model ag) (_target_net ag)
    (_full_model ag) m (optimizer ag) (square_avg ag) (tensors ag) (grads ag) (dicts ag).

Definition set_optimizer (o : option (list nat)) (sq : gmap nat tensor)
    (ag : agent) : agent :=
  mk_agent (_use_target_net ag) (_gamma ag) (_model ag) (_target_net ag)
    (_full_model ag) (_values_model ag) o sq (tensors ag) (grads ag) (dicts ag).

Definition set_tensors (t : gmap nat tensor) (ag : agent) : agent :=
  mk_agent (_use_target_net ag) (_gamma ag) (_model ag) (_target_net ag)
    (_full_model ag) (_values_model ag) (optimizer ag) (square_avg ag) t
    (grads ag) (dicts ag).

Definition set_grads (g : gmap nat tensor) (ag : agent) : agent :=
  mk_agent (_use_target_net ag) (_gamma ag) (_model ag) (_target_net ag)
    (_full_model ag) (_values_model ag) (optimizer ag) (square_avg ag)
    (tensors ag) g (dicts ag).

Definition set_dicts (d : gmap nat (list (string * nat))) (ag : agent) : agent :=
  mk_agent (_use_target_net ag) (_gamma ag) (_model ag) (_target_net ag)
    (_full_model ag) (_values_model ag) (optimizer ag) (square_avg ag)
    (tensors ag) (grads ag) d.

(** Methods: computations on the agent object that return or raise; the
    object is kept as it is at the moment an exception is raised. *)
Definition T (A : Type) : Type := agent -> result A * agent.

#[export] Instance T_ret : MRet T := fun A x ag => (Ok x, ag).

#[export] Instance T_bind : MBind T := fun A B f m ag =>
  match m ag with
  | (Ok x, ag') => f x ag'
  | (Raise e, ag') => (Raise e, ag')
  end.

Definition raise {A : Type} (e : exn) : T A := fun ag => (Raise e, ag).

Definition self : T agent := fun ag => (Ok ag, ag).

Definition modify (f : agent -> agent) : T unit := fun ag => (Ok tt, f ag).

(** Reading an attribute that may not have been set. *)
Definition attr {A : Type} (field : agent -> option A) : T A := fun ag =>
  match field ag with
  | Some x => (Ok x, ag)
  | None => (Raise AttributeError, ag)
  end.

Definition lift {A : Type} (e : exn) (o : option A) : T A :=
  match o with
  | Some x => mret x
  | None => raise e
  end.

(** [for x in l: body(x)] *)
Fixpoint for_each {A : Type} (l : list A) (body : A -> T unit) : T unit :=
  match l with
  | [] => mret tt
  | x :: l' => body x ≫= fun _ => for_each l' body
  end.

(** The values of the parameters of a module, as they are in storage. *)
Definition parameter_values (ag : agent) (m : module) : list (option tensor) :=
  (fun p => tensors ag !! p.2) <$> m.

(** *** Dictionaries *)

Fixpoint assoc_get {V : Type} (key : string) (d : list (string * V)) : option V :=
  match d with
  | [] => None
  | (k, v) :: d' => if decide (k = key) then Some v else assoc_get key d'
  end.

Fixpoint assoc_set {V : Type} (key : string) (v : V) (d : list (string * V))
  : list (string * V) :=
  match d with
  | [] => [(key, v)]
  | (k, w) :: d' =>
      if decide (k = key) then (k, v) :: d' else (k, w) :: assoc_set key v d'
  end.

(** [m.state_dict()]: a new dictionary from parameter names to the
    stored tensors of the module. *)
Definition state_dict (m : module) : T nat := fun ag =>
  let d := fresh (dom (dicts ag)) in
  (Ok d, set_dicts (<[d := m]> (dicts ag)) ag).

(** [d.keys()] *)
Definition dict_keys (d : nat) : T (list string) :=
  ag ← self; e ← lift KeyError (dicts ag !! d); mret (e.*1).

(** [d[key]] *)
Definition dict_getitem (d : nat) (key : string) : T nat :=
  ag ← self; e ← lift KeyError (dicts ag !! d); lift KeyError (assoc_get key e).

(** [d[key] = v] *)
Definition dict_setitem (d : nat) (key : string) (v : nat) : T unit :=
  ag ← self; e ← lift KeyError (dicts ag !! d);
  modify (set_dicts (<[d := assoc_set key v e]> (dicts ag))).

(** *** Models *)

(** A new module: one newly allocated tensor per name, holding its
    initial values. *)
Fixpoint new_module (names : list string) (init : list tensor) : T module :=
  match names with
  | [] => mret []
  | name :: names' =>
      ag ← self;
      let l := fresh (dom (tensors ag)) in
      modify (set_tensors (<[l := default [] (head init)]> (tensors ag)));;
      rest ← new_module names' (tail init);
      mret ((name, l) :: rest)
  end.

(** Parameter names of [DeepQCNN]. *)
Definition DeepQCNN_names : list string :=
  ["conv1.weight"; "conv1.bias"; "conv2.weight"; "conv2.bias";
   "conv3.weight"; "conv3.bias"; "fc1.weight"; "fc1.bias";
   "out.weight"; "out.bias"]%string.

(** Parameter names of [AAC_CNN]. *)
Definition AAC_CNN_names : list string :=
  ["conv1.weight"; "conv1.bias"; "conv2.weight"; "conv2.bias";
   "fc1.weight"; "fc1.bias"; "action_logits.weight"; "action_logits.bias";
   "state_value.weight"; "state_value.bias"]%string.

(** *** Saved models *)

(** [torch.load(path)]: the state dictionary stored in the file. *)
Definition torch_load (fs : gmap string (list (string * tensor))) (path : string)
  : T (list (string * tensor)) :=
  lift FileNotFoundError (fs !! path).

(** [m.load_state_dict(sd)] (strict): every parameter whose name is in
    [sd] with a tensor of the same size is overwritten in place; then an
    error is raised if a parameter was not found or had another size, or
    if [sd] has a name that is not a parameter. *)
Definition load_param (sd : list (string * tensor)) (p : string * nat) : T bool :=
  ag ← self;
  match assoc_get p.1 sd, tensors ag !! p.2 with
  | Some v, Some old =>
      if decide (length v = length old)
      then modify (set_tensors (<[p.2 := v]> (tensors ag)));; mret true
      else mret false
  | _, _ => mret false
  end.

Fixpoint load_params (sd : list (string * tensor)) (m : module) : T bool :=
  match m with
  | [] => mret true
  | p :: m' =>
      ok ← load_param sd p;
      oks ← load_params sd m';
      mret (ok && oks)
  end.

Definition load_state_dict (m : module) (sd : list (string * tensor)) : T unit :=
  ok ← load_params sd m;
  if ok && bool_decide (Forall (fun k => k ∈ m.*1) sd.*1)
  then mret tt
  else raise RuntimeError.

(** [zfill]-style padding and ["{:04d}".format(z)] *)
Definition zfill (width : nat) (digits : string) : string :=
  String.concat "" (replicate (width - String.length digits) "0"%string) +:+ digits.

Definition format_04d (z : Z) : string :=
  let digits := NilZero.string_of_uint (N.to_uint (Z.abs_N z)) in
  if z <? 0 then "-" +:+ zfill 3 digits else zfill 4 digits.

(** ["{}/model_{:04d}<suffix>".format(file_path, iteration)] *)
Definition model_path (file_path : string) (iteration : Z) (suffix : string)
  : string :=
  file_path +:+ "/model_" +:+ format_04d iteration +:+ suffix.

(** *** Frames of a method *)

(** A method leaves the part [view] of the agent object as it is,
    whether it returns or raises. *)
Definition frame (view : agent -> agent) {A : Type} (m : T A) : Prop :=
  forall ag, view (m ag).2 = view ag.

(** The agent object without its dictionaries, and without its
    gradients. *)
Definition but_dicts : agent -> agent := set_dicts ∅.
Definition but_grads : agent -> agent := set_grads ∅.
Definition but_tensors : agent -> agent := set_tensors ∅.

(** Two states of the agent object with the same networks holding the
    same parameter values. *)
Definition same_parameters (ag ag' : agent) : Prop :=
  tensors ag' = tensors ag /\ _model ag' = _model ag /\
  _target_net ag' = _target_net ag.

(** The error that reading the first attribute and the first file gives
    when the file is absent. *)
Definition first_error (ag : agent) : exn :=
  match _model ag with
  | Some _ => FileNotFoundError
  | None => AttributeError
  end.

(** A method raises from the given state. *)
Definition raises {A : Type} (m : T A) (ag : agent) : Prop :=
  exists e ag', m ag = (Raise e, ag').

End Torch.

(** ** DeepQLearningAgent *)

Module DeepQLearningAgent.
Import XNum Torch.

(** The attributes before [reset_models] has run. *)
Definition blank (use_target_net : bool) (gamma : Q) : agent :=
  mk_agent use_target_net gamma None None None None None ∅ ∅ ∅ ∅.

(** [_agent_model]: [model = DeepQCNN()] with the given initial values,
    [self.optimizer = torch.optim.RMSprop(model.parameters(), lr=0.0005)],
    [return model]. *)
Definition _agent_model (init : list tensor) : T module :=
  model ← new_module DeepQCNN_names init;
  modify (set_optimizer (Some model.*2) ∅);;
  mret model.

(** [update_target_net]:
    [if self._use_target_net:]
    [m_dict = self._model.state_dict()],
    [t_dict = self._target_net.state_dict()],
    [for key in m_dict.keys(): t_dict[key] = m_dict[key]]. *)
Definition update_target_net : T unit :=
  ag ← self;
  if _use_target_net ag then
    model ← attr _model;
    m_dict ← state_dict model;
    target_net ← attr _target_net;
    t_dict ← state_dict target_net;
    keys ← dict_keys m_dict;
    for_each keys (fun key =>
      v ← dict_getitem m_dict key;
      dict_setitem t_dict key v)
  else mret tt.

(** [reset_models]:
    [self._model = self._agent_model()],
    [if self._use_target_net: self._target_net = self._agent_model();
     self.update_target_net()]. *)
Definition reset_models (init_model init_target : list tensor) : T unit :=
  m ← _agent_model init_model;
  modify (set_model (Some m));;
  ag ← self;
  if _use_target_net ag then
    t ← _agent_model init_target;
    modify (set_target_net (Some t));;
    update_target_net
  else mret tt.

(** [DeepQLearningAgent(gamma=..., use_target_net=...)], from the call
    [self.reset_models()] on, which is the last statement of the
    constructor: what [Agent.__init__] does before it (the replay buffer
    and [_board_grid]) leaves the networks alone and is not repeated
    here.  The two lists are the values the two networks are initialised
    with. *)
Definition __init__ (use_target_net : bool) (gamma : Q)
    (init_model init_target : list tensor) : result unit * agent :=
  reset_models init_model init_target (blank use_target_net gamma).

(** [load_model(file_path, iteration)] *)
Definition load_model (fs : gmap string (list (string * tensor)))
    (file_path : string) (iteration : option Z) : T unit :=
  let iteration := default 0 iteration in
  model ← attr _model;
  sd ← torch_load fs (model_path file_path iteration ".pt");
  load_state_dict model sd;;
  ag ← self;
  if _use_target_net ag then
    target_net ← attr _target_net;
    sd ← torch_load fs (model_path file_path iteration "_target.pt");
    load_state_dict target_net sd
  else mret tt.

(** *** Training *)

(** The six aligned arrays a sample of the replay buffer consists of. *)
Record batch (boards : Type) : Type := mk_batch {
  s : boards;
  a : list (list Z);
  r : list xnum;
  next_s : boards;
  done : list Z;
  legal_moves : list (list Z)
}.
Arguments mk_batch {boards}.
Arguments s {boards}.
Arguments a {boards}.
Arguments r {boards}.
Arguments next_s {boards}.
Arguments done {boards}.
Arguments legal_moves {boards}.

Section Training.

(** The collaborators of the trainer: the replay buffer, the network
    (applied to a preprocessed batch of boards, as a function of its
    parameter values), the gradient of the loss with respect to each
    parameter, and the update rule of RMSprop. *)
Context {boards buffer : Type}.
Variable get_current_size : buffer -> nat.
Variable draw : buffer -> nat -> batch boards.
Variable network : list tensor -> boards -> option (list (list xnum)).
Variable gradient : list tensor -> boards -> list (list xnum) -> list tensor.
Variable rmsprop : tensor -> tensor -> option tensor -> tensor * tensor.

(** Modelled from the spec: [ReplayBufferNumpy.sample], which is not in
    [agent.py].  It requires [batch_size <= current_size], fails with an
    [InsufficientDataError] otherwise, and returns the six aligned arrays
    of [batch_size] stored transitions; [draw] stands for the random
    choice. *)
Definition sample (_buffer : buffer) (batch_size : nat) : T (batch boards) :=
  if decide (batch_size <= get_current_size _buffer)%nat
  then mret (draw _buffer batch_size)
  else raise InsufficientDataError.

(** [model(torch.Tensor(self._prepare_input(board)))] *)
Definition model_call (model : module) (board : boards) : T (list (list xnum)) :=
  ag ← self;
  values ← lift RuntimeError (mapM (fun p => tensors ag !! p.2) model);
  lift RuntimeError (network values board).

(** [_get_model_outputs(board, model)]: the outputs, detached. *)
Definition _get_model_outputs (board : boards) (model : module)
  : T (list (list xnum)) :=
  model_call model board.

(** [opt.zero_grad()]: the gradient of each parameter of the optimiser is
    reset to [None]. *)
Definition zero_grad (opt : list nat) : T unit :=
  for_each opt (fun l => ag ← self; modify (set_grads (delete l (grads ag)))).

(** [loss.backward()] for the loss of [model] on [board] against
    [target]: the gradient of each parameter of [model] is added to its
    [.grad]. *)
Definition backward (model : module) (board : boards)
    (target : list (list xnum)) : T unit :=
  ag ← self;
  values ← lift RuntimeError (mapM (fun p => tensors ag !! p.2) model);
  for_each (zip model.*2 (gradient values board target)) (fun lg =>
    ag ← self;
    let g := match grads ag !! lg.1 with
             | Some old => zip_with Qplus old lg.2
             | None => lg.2
             end in
    modify (set_grads (<[lg.1 := g]> (grads ag)))).

(** [opt.step()]: each parameter of the optimiser whose gradient is not
    [None] is updated. *)
Definition step (opt : list nat) : T unit :=
  for_each opt (fun l =>
    ag ← self;
    match grads ag !! l, tensors ag !! l with
    | Some g, Some p =>
        let new := rmsprop p g (square_avg ag !! l) in
        modify (set_tensors (<[l := new.1]> (tensors ag)));;
        modify (set_optimizer (optimizer ag) (<[l := new.2]> (square_avg ag)))
    | _, _ => mret tt
    end).

(** [train_agent(batch_size, num_games, reward_clip)] *)
Definition train_agent (_buffer : buffer) (batch_size : nat) (reward_clip : bool)
  : T xnum :=
  (* optimizer = torch.optim.RMSprop(self._model.parameters(), lr=0.0005):
     a local optimiser that is not used below *)
  model ← attr _model;
  b ← sample _buffer batch_size;
  let r := if reward_clip then xsign <$> r b else r b in
  ag ← self;
  current_model ← (if _use_target_net ag then attr _target_net else attr _model);
  next_model_outputs ← _get_model_outputs (next_s b) current_model;
  discounted_reward ←
    lift ValueError
      (QTarget.discounted_reward (_gamma ag) r (legal_moves b)
         next_model_outputs (done b));
  target ← _get_model_outputs (s b) model;
  target ← lift ValueError (QTarget.target (a b) target discounted_reward);
  outputs ← model_call model (s b);
  loss ← lift RuntimeError
           (Loss.mean_huber_loss (concat outputs) (concat target));
  opt ← attr optimizer;
  zero_grad opt;;
  backward model (s b) target;;
  step opt;;
  mret loss.

End Training.

(** The state the constructor leaves an agent with a target network in,
    and that training keeps: [self.optimizer] was built last, over the
    parameters of the target network; these are not parameters of the
    live network, and none of them has a gradient. *)
Definition target_bound (ag : agent) : Prop :=
  exists m t : list (string * nat),
    _use_target_net ag = true /\
    _model ag = Some m /\
    _target_net ag = Some t /\
    optimizer ag = Some t.*2 /\
    (forall l, l ∈ t.*2 -> grads ag !! l = None) /\
    (forall l, l ∈ m.*2 -> l ∉ t.*2).

End DeepQLearningAgent.

(** ** AdvantageActorCriticAgent: models *)

Module AdvantageActorCriticAgent.
Import Torch.

(** [_agent_model]: three networks [AAC_CNN("logits")], [AAC_CNN("full")]
    and [AAC_CNN("values")], returned as (logits, full, values). *)
Definition _agent_model (init_logits init_full init_values : list tensor)
  : T (module * module * module) :=
  model_logits ← new_module AAC_CNN_names init_logits;
  model_values ← new_module AAC_CNN_names init_values;
  model_full ← new_module AAC_CNN_names init_full;
  mret (model_logits, model_full, model_values).

(** [update_target_net]: as in the parent class, between [self._model]
    and [self._target_net]. *)
Definition update_target_net : T unit :=
  ag ← self;
  if _use_target_net ag then
    model ← attr _model;
    model_dict ← state_dict model;
    target_net ← attr _target_net;
    target_dict ← state_dict target_net;
    keys ← dict_keys model_dict;
    for_each keys (fun key =>
      v ← dict_getitem model_dict key;
      dict_setitem target_dict key v)
  else mret tt.

(** [reset_models]:
    [self._model, self._full_model, self._values_model = self._agent_model()],
    [if self._use_target_net: _, _, self._target_net = self._agent_model();
     self.update_target_net()]. *)
Definition reset_models (init1 init2 : list tensor * list tensor * list tensor)
  : T unit :=
  ms ← _agent_model init1.1.1 init1.1.2 init1.2;
  modify (set_model (Some ms.1.1));;
  modify (set_full_model (Some ms.1.2));;
  modify (set_values_model (Some ms.2));;
  ag ← self;
  if _use_target_net ag then
    ts ← _agent_model init2.1.1 init2.1.2 init2.2;
    modify (set_target_net (Some ts.2));;
    update_target_net
  else mret tt.

(** [load_model(file_path, iteration)] *)
Definition load_model (fs : gmap string (list (string * tensor)))
    (file_path : string) (iteration : option Z) : T unit :=
  let iteration := default 0 iteration in
  model ← attr _model;
  sd ← torch_load fs (model_path file_path iteration ".pt");
  load_state_dict model sd;;
  full_model ← attr _full_model;
  sd ← torch_load fs (model_path file_path iteration "_full.pt");
  load_state_dict full_model sd;;
  ag ← self;
  if _use_target_net ag then
    values_model ← attr _values_model;
    sd ← torch_load fs (model_path file_path iteration "_values.pt");
    load_state_dict values_model sd;;
    target_net ← attr _target_net;
    sd ← torch_load fs (model_path file_path iteration "_target.pt");
    load_state_dict target_net sd
  else mret tt.

End AdvantageActorCriticAgent.

(** ** AdvantageActorCriticAgent: reward normalisation

    The rewards of the batch are the column [r] of the sample.  The code
    of the normalisation is written once, over the arithmetic of the
    array: [float64] is the arithmetic of a NumPy array of float64
    values, which is what the code runs on ([np.mean] and [np.std] of an
    integer array are computed in float64 as well); [exact] is the
    arithmetic of real numbers, in which the normalisation can be
    compared with what it is meant to compute. *)

(** Mean, variance and standard deviation of real numbers. *)
Module ActorCriticRewards.
Import Reals.
Local Open Scope R_scope.

#[export] Instance R_eq_dec : EqDecision R := Req_dec_T.

Definition sum (l : list R) : R := foldr Rplus 0 l.

(** The mean of real numbers. *)
Definition mean (l : list R) : R := sum l / INR (length l).

(** Their variance. *)
Definition var (l : list R) : R := mean ((fun x => Rsqr (x - mean l)) <$> l).

(** Their (population) standard deviation. *)
Definition std (l : list R) : R := sqrt (var l).

End ActorCriticRewards.

Module Rewards.
Import XNum.

(** What the normalisation uses of the arithmetic of [r]. *)
Record arith (num : Type) : Type := {
  eqb : num -> num -> bool;
  sub : num -> num -> num;
  div : num -> num -> num;
  np_mean : list num -> num;
  np_std : list num -> num
}.
Arguments eqb {num}.
Arguments sub {num}.
Arguments div {num}.
Arguments np_mean {num}.
Arguments np_std {num}.

(** [if normalize_rewards:]
    [if (r == r[0][0]).sum() == r.shape[0]: r -= r]
    [else: r = (r - np.mean(r)) / np.std(r)];
    [r[0][0]] raises on a batch without transition. *)
Definition normalize_rewards {num : Type} (ar : arith num)
    (normalize_rewards : bool) (r : list num) : option (list num) :=
  if normalize_rewards then
    match r with
    | [] => None
    | r00 :: _ =>
        if decide (length (filter (fun x => eqb ar x r00 = true) r) = length r)
        then Some ((fun x => sub ar x x) <$> r)
        else Some ((fun x => div ar (sub ar x (np_mean ar r)) (np_std ar r)) <$> r)
    end
  else Some r.

(** *** The arithmetic of a float64 array *)

Definition add64 : xnum -> xnum -> xnum := Float.fadd Float.binary64.

(** [r[j] += a[i + j]] for the blocks of eight elements that follow the
    first one. *)
Fixpoint add_blocks (blocks : nat) (r rest : list xnum) : list xnum * list xnum :=
  match blocks with
  | O => (r, rest)
  | S blocks => add_blocks blocks (zip_with add64 r (take 8 rest)) (drop 8 rest)
  end.

(** NumPy's pairwise summation of a contiguous float array: fewer than
    eight elements are added from left to right; up to 128 elements are
    added into eight partial sums that are combined pairwise, the
    elements left over being added last; a longer array is split into
    two halves (the first of a length that is a multiple of eight). *)
Fixpoint pairwise_sum (fuel : nat) (a : list xnum) : xnum :=
  let n := length a in
  if (n <? 8)%nat then foldl add64 (Fin 0) a
  else if (n <=? 128)%nat then
    match add_blocks (n / 8 - 1) (take 8 a) (drop 8 a) with
    | ([r0; r1; r2; r3; r4; r5; r6; r7], rest) =>
        foldl add64
          (add64 (add64 (add64 r0 r1) (add64 r2 r3))
                 (add64 (add64 r4 r5) (add64 r6 r7)))
          rest
    | _ => NaN
    end
  else
    match fuel with
    | O => NaN
    | S fuel =>
        let n2 := (n / 2 - (n / 2) mod 8)%nat in
        add64 (pairwise_sum fuel (take n2 a)) (pairwise_sum fuel (drop n2 a))
    end.

(** [np.add.reduce]: the sum is added to the identity of the addition. *)
Definition np_sum (a : list xnum) : xnum :=
  add64 (Fin 0) (pairwise_sum (length a) a).

Definition count (a : list xnum) : xnum :=
  Float.round Float.binary64 (inject_Z (Z.of_nat (length a))).

(** [np.mean]: the sum divided by the number of elements. *)
Definition mean64 (a : list xnum) : xnum :=
  Float.fdiv Float.binary64 (np_sum a) (count a).

(** [np.std]: the deviations from the mean are squared and summed, the
    sum is divided by the number of elements, and the square root is
    taken. *)
Definition std64 (a : list xnum) : xnum :=
  let arrmean := mean64 a in
  let x := (fun v => Float.fsub Float.binary64 v arrmean) <$> a in
  let x := (fun v => Float.fmul Float.binary64 v v) <$> x in
  Float.fsqrt Float.binary64 (Float.fdiv Float.binary64 (np_sum x) (count a)).

Definition float64 : arith xnum :=
  {| eqb := Float.feqb;
     sub := Float.fsub Float.binary64;
     div := Float.fdiv Float.binary64;
     np_mean := mean64;
     np_std := std64 |}.

(** *** The arithmetic of real numbers *)

Definition exact : arith Reals.Rdefinitions.R :=
  {| eqb := fun x y => @bool_decide (x = y) (ActorCriticRewards.R_eq_dec x y);
     sub := Reals.Rdefinitions.Rminus;
     div := Reals.Rdefinitions.Rdiv;
     np_mean := ActorCriticRewards.mean;
     np_std := ActorCriticRewards.std |}.

End Rewards.

(** ** DeepQLearningAgent: choosing a move *)

Module Policy.
Import XNum.

(** [x <= y] as a comparison of floats: false as soon as one side is NaN. *)
Definition xleb (x y : xnum) : bool :=
  match x, y with
  | NaN, _ | _, NaN => false
  | _, _ => negb (xltb y x)
  end.

Definition is_nan (x : xnum) : bool :=
  match x with NaN => true | _ => false end.

(** The loop of [np.argmax] on a row of floats, after its first element:
    the running maximum is replaced by an element that is not [<=] it,
    and the loop stops at a NaN. *)
Fixpoint argmax_from (mp : xnum) (max_ind i : nat) (row : list xnum) : nat :=
  match row with
  | [] => max_ind
  | x :: rest =>
      if negb (xleb x mp)
      then (if is_nan x then i else argmax_from x i (S i) rest)
      else argmax_from mp max_ind (S i) rest
  end.

(** One row of [np.argmax(_, axis=1)]: the first NaN if there is one,
    the first largest element otherwise; no element raises. *)
Definition argmax (row : list xnum) : option nat :=
  match row with
  | [] => None
  | x :: rest => Some (if is_nan x then 0%nat else argmax_from x 0 1 rest)
  end.

(** One row of
    [np.argmax(np.where(legal_moves == 1, model_outputs, -np.inf), axis=1)]. *)
Definition move_row (legal_moves : list Z) (model_outputs : list xnum)
  : option nat :=
  QTarget.where_legal legal_moves model_outputs ≫= argmax.

(** A two-dimensional array: its rows, and its number of columns, which
    an array without rows has as well. *)
Record array2 (A : Type) : Type := mk_array2 {
  n_cols : nat;
  rows : list (list A)
}.
Arguments mk_array2 {A}.
Arguments n_cols {A}.
Arguments rows {A}.

Definition well_shaped {A : Type} (a : array2 A) : Prop :=
  Forall (fun row => length row = n_cols a) (rows a).

(** Broadcasting along one dimension: the two lengths are equal, or one
    of them is 1 and gives way to the other. *)
Definition broadcast_dim (n m : nat) : option nat :=
  if decide (n = m) then Some n
  else if decide (n = 1%nat) then Some m
  else if decide (m = 1%nat) then Some n
  else None.

(** An operand of length 1 along a dimension is repeated. *)
Definition broadcast_to {A : Type} (n : nat) (l : list A) : list A :=
  match l with
  | [x] => replicate n x
  | _ => l
  end.

(** The rows of an array broadcast to [n] rows of [m] columns. *)
Definition broadcast_rows {A : Type} (n m : nat) (a : array2 A) : list (list A) :=
  broadcast_to m <$> broadcast_to n (rows a).

(** [np.where(legal_moves == 1, model_outputs, -np.inf)]: the two arrays
    are broadcast against each other; shapes that do not broadcast
    raise. *)
Definition masked_outputs (legal_moves : array2 Z) (model_outputs : array2 xnum)
  : option (array2 xnum) :=
  n ← broadcast_dim (length (rows legal_moves)) (length (rows model_outputs));
  m ← broadcast_dim (n_cols legal_moves) (n_cols model_outputs);
  Some (mk_array2 m
          (zip_with (zip_with (fun l v => if l =? 1 then v else NInf))
             (broadcast_rows n m legal_moves)
             (broadcast_rows n m model_outputs))).

(** [np.argmax(_, axis=1)]: one index per row; an array without columns
    raises, whether it has rows or not. *)
Definition argmax_axis1 (a : array2 xnum) : option (list nat) :=
  if decide (n_cols a = 0%nat) then None else mapM argmax (rows a).

(** The outputs of the network have four columns:
    [self.out = nn.Linear(64, 4)]. *)
Definition out_features : nat := 4.

Section Move.
Import Torch.
Context {boards : Type}.
Variable network : list (list Q) -> boards -> option (list (list xnum)).

(** [move(board, legal_moves)]:
    [model_outputs = self._get_model_outputs(board, self._model)],
    [return np.argmax(np.where(legal_moves == 1, model_outputs, -np.inf), axis=1)]. *)
Definition move (board : boards) (legal_moves : array2 Z) : T (list nat) :=
  model ← attr _model;
  model_outputs ← DeepQLearningAgent._get_model_outputs network board model;
  lift ValueError
    (masked_outputs legal_moves (mk_array2 out_features model_outputs)
       ≫= argmax_axis1).

End Move.

End Policy.

(** ** AdvantageActorCriticAgent: targets of the actor and the critic *)

Module ActorCriticTarget.
Import XNum.

(** One row of [future_reward = self._gamma * next_s_pred * (1 - done)]. *)
Definition future_reward (gamma : Q) (next_s_pred : xnum) (done : Z) : xnum :=
  xmul (xmul (Fin gamma) next_s_pred) (of_Z (1 - done)).

(** One row of [critic_target = r + future_reward]. *)
Definition critic_target (r future_reward : xnum) : xnum :=
  xadd r future_reward.

(** One row of [advantage = a * (r + future_reward - s_pred)]. *)
Definition advantage (a : list Z) (r future_reward s_pred : xnum) : list xnum :=
  (fun ai => xmul (of_Z ai) (xsub (xadd r future_reward) s_pred)) <$> a.

End ActorCriticTarget.

(** ** DeepQLearningAgent: action probabilities

    One row of [get_action_proba], on real numbers: the model outputs
    are taken to be finite, and [np.exp] is the exponential function. *)

Module ActionProba.
Import Reals ActorCriticRewards.
Local Open Scope R_scope.

(** [np.clip(x, lo, hi)], that is [minimum(hi, maximum(x, lo))] *)
Definition clip (lo hi x : R) : R := Rmin hi (Rmax x lo).

(** One row of [model_outputs.max(axis=1)]; no element raises. *)
Definition row_max (row : list R) : option R :=
  match row with
  | [] => None
  | x :: rest => Some (foldl Rmax x rest)
  end.

(** [model_outputs = np.clip(model_outputs, -10, 10)],
    [model_outputs = model_outputs - model_outputs.max(axis=1).reshape((-1,1))],
    [model_outputs = np.exp(model_outputs)],
    [model_outputs = model_outputs / model_outputs.sum(axis=1).reshape((-1,1))]. *)
Definition get_action_proba_row (model_outputs : list R) : option (list R) :=
  let clipped := clip (-10) 10 <$> model_outputs in
  m ← row_max clipped;
  let exps := (fun x => exp (x - m)) <$> clipped in
  Some ((fun x => x / sum exps) <$> exps).

End ActionProba.

(** ** DeepQLearningAgent: saving the models

    The directory is a map from paths to the state dictionaries the
    files hold; it is taken to be writable.  A file that was written
    before an exception is raised stays written. *)

Module Saving.
Import Torch.

(** What the entries of a dictionary of tensors are serialised to: the
    values the tensors hold at that moment. *)
Definition serialise (ag : agent) (e : list (string * nat))
  : option (list (string * tensor)) :=
  mapM (fun p : string * nat => pair p.1 <$> tensors ag !! p.2) e.

(** [torch.save(d, path)] *)
Definition torch_save (fs : gmap string (list (string * tensor))) (d : nat)
    (path : string) : T (gmap string (list (string * tensor))) :=
  ag ← self;
  e ← lift KeyError (dicts ag !! d);
  data ← lift RuntimeError (serialise ag e);
  mret (<[path := data]> fs).

(** [save_model(file_path, iteration)]:
    [torch.save(self._model.state_dict(), "{}/model_{:04d}.pt".format(...))],
    [if self._use_target_net:
       torch.save(self._target_net.state_dict(),
                  "{}/model_{:04d}_target.pt".format(...))]. *)
Definition save_model (fs : gmap string (list (string * tensor)))
    (file_path : string) (iteration : option Z) (ag : agent)
  : result unit * agent * gmap string (list (string * tensor)) :=
  let iteration := default 0 iteration in
  match (model ← attr _model;
         d ← state_dict model;
         torch_save fs d (model_path file_path iteration ".pt")) ag with
  | (Raise e, ag1) => (Raise e, ag1, fs)
  | (Ok fs1, ag1) =>
      if _use_target_net ag1 then
        match (target_net ← attr _target_net;
               d ← state_dict target_net;
               torch_save fs1 d (model_path file_path iteration "_target.pt")) ag1 with
        | (Raise e, ag2) => (Raise e, ag2, fs1)
        | (Ok fs2, ag2) => (Ok tt, ag2, fs2)
        end
      else (Ok tt, ag1, fs1)
  end.

(** A module whose parameter names are distinct and whose parameters
    all have a tensor in storage. *)
Definition well_formed (ag : agent) (m : module) : Prop :=
  NoDup m.*1 /\ Forall (fun p : string * nat => is_Some (tensors ag !! p.2)) m.

(** The parameters of the module have in [ag'] the sizes they have in
    [ag]. *)
Definition same_sizes (ag ag' : agent) (m : module) : Prop :=
  Forall (fun p : string * nat =>
            length <$> tensors ag' !! p.2 = length <$> tensors ag !! p.2) m.

(** A state dictionary that [load_state_dict] accepts for a module: it
    holds no name that is not a parameter, and for every parameter a
    tensor of the size the parameter has. *)
Definition loadable (ag : agent) (m : module) (sd : list (string * tensor))
  : Prop :=
  Forall (fun k : string => k ∈ m.*1) sd.*1 /\
  Forall (fun p : string * nat =>
            is_Some (tensors ag !! p.2) /\
            length <$> assoc_get p.1 sd = length <$> tensors ag !! p.2) m.

(** The state of an agent after files saved from [ag0] have been loaded
    into [ag]: the tensors of [cells] hold what they held in [ag0], the
    others what they held in [ag], and no attribute differs from those
    of [ag]. *)
Definition restored (cells : list nat) (ag0 ag ag' : agent) : Prop :=
  but_tensors ag' = but_tensors ag /\
  forall c, tensors ag' !! c
            = if decide (c ∈ cells) then tensors ag0 !! c else tensors ag !! c.

End Saving.

(** ** AdvantageActorCriticAgent: saving the models *)

Module ActorCriticSaving.
Import Torch Saving.

(** [torch.save(self.<field>.state_dict(),
                "{}/model_{:04d}<suffix>".format(file_path, iteration))] *)
Definition save_one (field : agent -> option module) (suffix : string)
    (file_path : string) (iteration : Z)
    (fs : gmap string (list (string * tensor)))
  : T (gmap string (list (string * tensor))) :=
  model ← attr field;
  d ← state_dict model;
  torch_save fs d (model_path file_path iteration suffix).

(** One more statement that writes a file, after statements that have
    returned or raised. *)
Definition then_save
    (before : result unit * agent * gmap string (list (string * tensor)))
    (save : gmap string (list (string * tensor))
            -> T (gmap string (list (string * tensor))))
  : result unit * agent * gmap string (list (string * tensor)) :=
  match before with
  | (Ok _, ag, fs) =>
      match save fs ag with
      | (Ok fs', ag') => (Ok tt, ag', fs')
      | (Raise e, ag') => (Raise e, ag', fs)
      end
  | (Raise e, ag, fs) => (Raise e, ag, fs)
  end.

(** [save_model(file_path, iteration)]: the files of [_model] and
    [_full_model], and with a target network those of [_values_model]
    and [_target_net]. *)
Definition save_model (fs : gmap string (list (string * tensor)))
    (file_path : string) (iteration : option Z) (ag : agent)
  : result unit * agent * gmap string (list (string * tensor)) :=
  let iteration := default 0 iteration in
  let saved := then_save (Ok tt, ag, fs) (save_one _model ".pt" file_path iteration) in
  let saved := then_save saved (save_one _full_model "_full.pt" file_path iteration) in
  match saved with
  | (Ok _, ag', _) =>
      if _use_target_net ag' then
        let saved :=
          then_save saved (save_one _values_model "_values.pt" file_path iteration) in
        then_save saved (save_one _target_net "_target.pt" file_path iteration)
      else saved
  | _ => saved
  end.

End ActorCriticSaving.

(** ** Agent: the grid of point values *)

Module BoardGrid.
Import Numpy.

(** [np.arange(0, n)] *)
Definition arange (n : nat) : M ndarray :=
  new_array [n]
    {| buf_dtype := int_dtype;
       buf_data := (fun i : nat => XNum.of_Z (Z.of_nat i)) <$> seq 0 n |}.

(** [a.reshape(d, -1)]: the length that is left out is the size of [a]
    divided by [d]; an error is raised when [d] is 0 or does not divide
    the size. *)
Definition reshape_infer (a : ndarray) (d : nat) : M ndarray :=
  let size := prod (shape a) in
  if decide (d <> 0 /\ size mod d = 0)%nat
  then reshape a [d; (size / d)%nat]
  else raise.

(** [np.arange(0, self._board_size ** 2).reshape(self._board_size, -1)] *)
Definition _board_grid (_board_size : nat) : M ndarray :=
  a ← arange (_board_size ^ 2);
  reshape_infer a _board_size.

End BoardGrid.

(** ** The networks: shapes of what the layers produce

    A tensor is represented by its shape; [None] is the error a layer
    raises on an input it does not accept.  [F.relu] keeps the shape of
    its argument and is left out. *)

Module Layers.

(** [nn.Conv2d(in_channels, out_channels, (k, k))], stride 1 and no
    padding, on a batch C x H x W or on one C x H x W input. *)
Definition Conv2d (in_channels out_channels k : nat) (x : list nat)
  : option (list nat) :=
  match x with
  | [b; c; h; w] =>
      if decide (c = in_channels /\ k <= h /\ k <= w)%nat
      then Some [b; out_channels; (h - k + 1)%nat; (w - k + 1)%nat]
      else None
  | [c; h; w] =>
      if decide (c = in_channels /\ k <= h /\ k <= w)%nat
      then Some [out_channels; (h - k + 1)%nat; (w - k + 1)%nat]
      else None
  | _ => None
  end.

(** [nn.Flatten()]: the dimensions after the first one are merged. *)
Definition Flatten (x : list nat) : option (list nat) :=
  match x with
  | b :: d :: rest => Some [b; Numpy.prod (d :: rest)]
  | _ => None
  end.

(** [nn.Linear(in_features, out_features)]: acts on the last dimension. *)
Definition Linear (in_features out_features : nat) (x : list nat)
  : option (list nat) :=
  match reverse x with
  | last :: rest =>
      if decide (last = in_features)
      then Some (reverse (out_features :: rest))
      else None
  | [] => None
  end.

End Layers.

Module DeepQCNN.
Import Layers.

(** [forward]: [conv1 = Conv2d(2, 16, (3, 3))], [conv2 = Conv2d(16, 32, (3, 3))],
    [conv3 = Conv2d(32, 64, (5, 5))], [flat], [fc1 = Linear(256, 64)],
    [out = Linear(64, 4)]. *)
Definition forward (x : list nat) : option (list nat) :=
  x ← Conv2d 2 16 3 x;
  x ← Conv2d 16 32 3 x;
  x ← Conv2d 32 64 5 x;
  x ← Flatten x;
  x ← Linear 256 64 x;
  Linear 64 4 x.

End DeepQCNN.

Module AAC_CNN.
Import Layers.

(** What [forward] returns: one tensor, a pair of tensors, or [None]. *)
Inductive output : Type :=
| Tensor (x : list nat)
| Pair (x y : list nat)
| NoValue.

(** [forward]: [conv1 = Conv2d(2, 16, (3, 3))], [conv2 = Conv2d(16, 32, (3, 3))],
    [flat], [fc1 = Linear(1152, 64)], then
    [action_logits = Linear(64, 4)] and [state_value = Linear(64, 1)]
    according to [self.param]. *)
Definition forward (param : string) (x : list nat) : option output :=
  x ← Conv2d 2 16 3 x;
  x ← Conv2d 16 32 3 x;
  x ← Flatten x;
  x ← Linear 1152 64 x;
  if decide (param = "logits") then Tensor <$> Linear 64 4 x
  else if decide (param = "values") then Tensor <$> Linear 64 1 x
  else if decide (param = "full") then
    l ← Linear 64 4 x; v ← Linear 64 1 x; Some (Pair l v)
  else Some NoValue.

End AAC_CNN.

(** ** AdvantageActorCriticAgent: training

    The collaborators of the trainer are the replay buffer, the
    preprocessing of a sampled batch, the reward normalisation on
    floats (which is [Rewards.normalize_rewards]), the
    value network and the full network as functions of their parameter
    values, the actor loss (which goes through [softmax] and
    [log_softmax]), the gradient of the loss with respect to each
    parameter of the full network, and the update rule of RMSprop. *)

Module ActorCriticTraining.
Import XNum Torch.

(** An element-wise operation on two arrays with one row per sampled
    transition; arrays of different lengths do not combine. *)
Definition aligned {A B C : Type} (f : A -> B -> C) (xs : list A) (ys : list B)
  : option (list C) :=
  if decide (length xs = length ys) then Some (zip_with f xs ys) else None.

(** [advantage = a * (r + future_reward - s_pred)], row by row. *)
Definition advantage (a : list (list Z)) (r future_reward s_pred : list xnum)
  : option (list (list xnum)) :=
  rf ← aligned pair r future_reward;
  rfs ← aligned pair rf s_pred;
  aligned (fun (ai : list Z) (x : xnum * xnum * xnum) =>
             ActorCriticTarget.advantage ai x.1.1 x.1.2 x.2) a rfs.

(** A call that returns or raises without reading the agent. *)
Definition of_result {A : Type} (x : result A) : T A := fun ag => (x, ag).

Section Training.

Context {boards prepared buffer : Type}.
Variable get_current_size : buffer -> nat.
Variable draw : buffer -> nat -> DeepQLearningAgent.batch boards.
Variable _prepare_input : boards -> result prepared.
Variable normalize : list xnum -> result (list xnum).
Variable values_network : list tensor -> prepared -> option (list xnum).
Variable full_network :
  list tensor -> prepared -> option (list (list xnum) * list xnum).
Variable actor : list (list xnum) -> list (list xnum) -> Q -> Z -> xnum.
Variable gradient :
  Q -> Z -> list tensor -> prepared -> list (list xnum) -> list xnum -> list tensor.
Variable rmsprop : tensor -> tensor -> option tensor -> tensor * tensor.

(** [model(torch.Tensor(x)).detach().numpy()] for a network in mode
    "values": one value per row. *)
Definition values_call (model : module) (x : prepared) : T (list xnum) :=
  ag ← self;
  values ← lift RuntimeError (mapM (fun p : string * nat => tensors ag !! p.2) model);
  lift RuntimeError (values_network values x).

(** [model(torch.Tensor(x))] for the network in mode "full": the logits
    and the state values. *)
Definition full_call (model : module) (x : prepared)
  : T (list (list xnum) * list xnum) :=
  ag ← self;
  values ← lift RuntimeError (mapM (fun p : string * nat => tensors ag !! p.2) model);
  lift RuntimeError (full_network values x).

(** [torch.optim.RMSprop(model.parameters(), lr=0.0005)]: an optimiser
    of its own, without running averages yet; an empty parameter list
    is refused. *)
Definition RMSprop (model : module) : T (list nat) :=
  if decide (model = []) then raise ValueError else mret model.*2.

(** [optimizer.step()] of that optimiser: each of its parameters whose
    gradient is not [None] is updated. *)
Definition local_step (opt : list nat) : T unit :=
  for_each opt (fun l =>
    ag ← self;
    match grads ag !! l, tensors ag !! l with
    | Some g, Some p =>
        modify (set_tensors (<[l := (rmsprop p g None).1]> (tensors ag)))
    | _, _ => mret tt
    end).

(** [train_agent(batch_size, beta, normalize_rewards, num_games,
    reward_clip)]; [batch_size] is not used. *)
Definition train_agent (_buffer : buffer) (beta : Q) (normalize_rewards : bool)
    (num_games : Z) (reward_clip : bool) : T (list xnum) :=
  b ← DeepQLearningAgent.sample get_current_size draw _buffer
         (get_current_size _buffer);
  s_prepared ← of_result (_prepare_input (DeepQLearningAgent.s b));
  next_s_prepared ← of_result (_prepare_input (DeepQLearningAgent.next_s b));
  r ← (if normalize_rewards
       then of_result (normalize (DeepQLearningAgent.r b))
       else mret (DeepQLearningAgent.r b));
  let r := if reward_clip then xsign <$> r else r in
  ag ← self;
  next_model ← (if _use_target_net ag then attr _target_net else attr _values_model);
  next_s_pred ← values_call next_model next_s_prepared;
  values_model ← attr _values_model;
  s_pred ← values_call values_model s_prepared;
  future_reward ←
    lift ValueError
      (aligned (ActorCriticTarget.future_reward (_gamma ag)) next_s_pred
         (DeepQLearningAgent.done b));
  advantage ←
    lift ValueError (advantage (DeepQLearningAgent.a b) r future_reward s_pred);
  critic_target ←
    lift ValueError (aligned ActorCriticTarget.critic_target r future_reward);
  model ← attr _full_model;
  model_out ← full_call model s_prepared;
  optimizer ← RMSprop model;
  let actor_loss := actor model_out.1 advantage beta num_games in
  critic_loss ←
    lift RuntimeError (Loss.mean_huber_loss critic_target model_out.2);
  let loss := xadd actor_loss critic_loss in
  DeepQLearningAgent.zero_grad optimizer;;
  DeepQLearningAgent.backward
    (fun values x advantage =>
       gradient beta num_games values x advantage critic_target)
    model s_prepared advantage;;
  local_step optimizer;;
  mret [loss; actor_loss; critic_loss].

End Training.

End ActorCriticTraining.

(** ** Example observations *)

Module Examples.
Import Numpy.

(** A store with one integer buffer of eight cells. *)
Definition store8 : gmap nat buffer :=
  {[ 0%nat := {| buf_dtype := int_dtype;
                 buf_data := XNum.Fin <$> [0; 1; 2; 3; 4; 3; 2; 1]%Q |} ]}.

(** A single 2 x 2 observation with two frames over that buffer. *)
Definition single_board : ndarray :=
  {| base := 0; shape := [2; 2; 2]%nat; strides := [4; 2; 1]%nat |}.

(** The same cells as a batch of one. *)
Definition batch_board : ndarray :=
  {| base := 0; shape := [1; 2; 2; 2]%nat; strides := [8; 4; 2; 1]%nat |}.

End Examples.

(** ** Example agents *)

Module AgentExamples.
Import XNum Torch.

(** Initial values of the ten parameter tensors of a network. *)
Definition init_ones : list tensor := replicate 10 [1%Q].
Definition init_twos : list tensor := replicate 10 [2%Q].
Definition init_fives : list tensor := replicate 10 [5%Q].

(** A Q-learning agent with a target network. *)
Definition dqn : agent :=
  (DeepQLearningAgent.__init__ true (99 # 100) init_ones init_twos).2.

(** A Q-learning agent without target network. *)
Definition dqn_plain : agent :=
  (DeepQLearningAgent.__init__ false (99 # 100) init_ones init_twos).2.

(** An actor-critic agent with a target network. *)
Definition a2c : agent :=
  (AdvantageActorCriticAgent.reset_models
     (init_ones, init_ones, init_ones) (init_twos, init_twos, init_twos)
     (DeepQLearningAgent.blank true (99 # 100))).2.

(** The Q-learning agent with a target network after every parameter
    tensor has taken the value 7. *)
Definition dqn_trained : agent :=
  set_tensors ((fun _ : tensor => [7%Q]) <$> tensors dqn) dqn.

(** The actor-critic agent after every parameter tensor has taken the
    value 7. *)
Definition a2c_trained : agent :=
  set_tensors ((fun _ : tensor => [7%Q]) <$> tensors a2c) a2c.

(** A saved model whose tensors all hold 5, and a directory that holds
    the file of the live model of iteration 0 only. *)
Definition saved_fives : list (string * tensor) := zip DeepQCNN_names init_fives.

Definition models_dir : gmap string (list (string * tensor)) :=
  {[ "models/model_0000.pt"%string := saved_fives ]}.

(** The same for the actor-critic agent. *)
Definition saved_a2c_fives : list (string * tensor) := zip AAC_CNN_names init_fives.

Definition a2c_models_dir : gmap string (list (string * tensor)) :=
  {[ "models/model_0000.pt"%string := saved_a2c_fives ]}.

(** Toy collaborators for the actor-critic trainer: preprocessing and
    normalisation return their argument, the value of a board is the sum
    of its cells times the first value of the first tensor, the logits
    are four times that value, and the actor loss is 0. *)
Definition toy_value (values : list tensor) (board : list Q) : xnum :=
  Fin (default 0%Q (head (default [] (head values))) * foldr Qplus 0%Q board).

Definition toy_values_network (values : list tensor) (boards : list (list Q))
  : option (list xnum) :=
  Some (toy_value values <$> boards).

Definition toy_full_network (values : list tensor) (boards : list (list Q))
  : option (list (list xnum) * list xnum) :=
  Some ((fun board => replicate 4 (toy_value values board)) <$> boards,
        toy_value values <$> boards).

Definition toy_actor (logits advantage : list (list xnum)) (beta : Q)
    (num_games : Z) : xnum := Fin 0.

Definition toy_full_gradient (beta : Q) (num_games : Z) (values : list tensor)
    (boards : list (list Q)) (advantage : list (list xnum))
    (critic_target : list xnum) : list tensor :=
  (fun w : list Q => (fun _ : Q => 1%Q) <$> w) <$> values.

(** Toy collaborators for the trainer: a board is a list of cell values,
    the buffer is the list of stored transitions, the network multiplies
    the sum of the cells by the first value of each of its first four
    tensors, the gradient of every parameter is 1, and the update rule
    subtracts the gradient. *)
Definition toy_size (buf : DeepQLearningAgent.batch (list (list Q))) : nat :=
  length (DeepQLearningAgent.r buf).

Definition toy_draw (buf : DeepQLearningAgent.batch (list (list Q))) (n : nat)
  : DeepQLearningAgent.batch (list (list Q)) :=
  DeepQLearningAgent.mk_batch
    (take n (DeepQLearningAgent.s buf)) (take n (DeepQLearningAgent.a buf))
    (take n (DeepQLearningAgent.r buf)) (take n (DeepQLearningAgent.next_s buf))
    (take n (DeepQLearningAgent.done buf))
    (take n (DeepQLearningAgent.legal_moves buf)).

Definition toy_network (values : list tensor) (boards : list (list Q))
  : option (list (list xnum)) :=
  Some ((fun board =>
           (fun w => Fin (default 0%Q (head w) * foldr Qplus 0%Q board))
             <$> take 4 values) <$> boards).

Definition toy_gradient (values : list tensor) (boards : list (list Q))
    (target : list (list xnum)) : list tensor :=
  (fun w : list Q => (fun _ : Q => 1%Q) <$> w) <$> values.

Definition toy_rmsprop (p g : tensor) (sq : option tensor) : tensor * tensor :=
  (zip_with Qminus p g, g).

(** Two stored transitions, the second one terminal. *)
Definition toy_buffer : DeepQLearningAgent.batch (list (list Q)) :=
  DeepQLearningAgent.mk_batch
    [[1; 0]; [0; 1]]%Q
    [[1; 0; 0; 0]; [0; 0; 1; 0]]
    [Fin 1; Fin (-1)]
    [[0; 1]; [1; 1]]%Q
    [0; 1]
    [[1; 1; 0; 1]; [1; 0; 1; 1]].

End AgentExamples.

(** * Properties *)

Section AgentCoordinates.
Import Agent.

Lemma point_of_row_col (S row col : Z) :
  0 <= col < S -> _point_to_row_col S (_row_col_to_point S row col) = (row, col).
Proof.
  intros Hc. unfold _point_to_row_col, _row_col_to_point.
  f_equal.
  - rewrite Z.add_comm, Z.div_add by lia. rewrite Z.div_small by lia. lia.
  - rewrite Z.add_comm, Z.mod_add by lia. apply Z.mod_small; lia.
Qed.

Lemma row_col_of_point (S point : Z) :
  S <> 0 ->
  _row_col_to_point S (fst (_point_to_row_col S point))
                      (snd (_point_to_row_col S point)) = point.
Proof.
  intros HS. unfold _point_to_row_col, _row_col_to_point. simpl.
  rewrite (Z.div_mod point S) at 3 by assumption. lia.
Qed.

(** C10.  For a board of size [S >= 1] the two conversions are mutually
    inverse: converting an in-range (row, col) to a point and back gives
    (row, col) again, and converting a point below [S * S] to (row, col)
    and back gives the point again. *)
Theorem point_row_col_inverse (S : Z) (HS : 1 <= S) :
  (forall row col, 0 <= row < S -> 0 <= col < S ->
     _point_to_row_col S (_row_col_to_point S row col) = (row, col)) /\
  (forall point, 0 <= point < S * S ->
     _row_col_to_point S (fst (_point_to_row_col S point))
                         (snd (_point_to_row_col S point)) = point).
Proof.
  split.
  - intros row col _ Hc. now apply point_of_row_col.
  - intros point _. apply row_col_of_point. lia.
Qed.

Lemma point_row_col_inverse_witness :
  _point_to_row_col 10 (_row_col_to_point 10 3 7) = (3, 7) /\
  _row_col_to_point 10 (fst (_point_to_row_col 10 37))
                       (snd (_point_to_row_col 10 37)) = 37.
Proof.
  destruct (point_row_col_inverse 10 ltac:(lia)) as [H1 H2].
  split; [apply H1; lia | apply H2; lia].
Defined.

End AgentCoordinates.

(** ** The bootstrap value and the regression target *)

Section BootstrapTarget.
Import XNum QTarget.

Lemma xle_refl x : x <> NaN -> xle x x.
Proof. destruct x; simpl; intros H; try easy. apply Qle_refl. Qed.

Lemma xle_trans x y z : xle x y -> xle y z -> xle x z.
Proof.
  destruct x, y, z; simpl; try easy. apply Qle_trans.
Qed.

Lemma xle_NInf x : xle x NInf -> x = NInf.
Proof. destruct x; simpl; easy. Qed.

Lemma xmax_cases x y : xmax x y = x \/ xmax x y = y.
Proof. unfold xmax. destruct x, y; try destruct (xltb _ _); auto. Qed.

Lemma xltb_false_le x y : x <> NaN -> y <> NaN -> xltb x y = false -> xle y x.
Proof.
  destruct x as [a| | |], y as [b| | |]; simpl; try easy.
  intros _ _. destruct (a ?= b)%Q eqn:E; try easy; intros _.
  - apply Qeq_alt in E. rewrite E. apply Qle_refl.
  - apply Qgt_alt in E. now apply Qlt_le_weak.
Qed.

Lemma xltb_true_le x y : xltb x y = true -> xle x y.
Proof.
  destruct x as [a| | |], y as [b| | |]; simpl; try easy.
  destruct (a ?= b)%Q eqn:E; try easy; intros _.
  apply Qlt_alt in E. now apply Qlt_le_weak.
Qed.

Lemma xmax_not_nan x y : xmax x y <> NaN -> x <> NaN /\ y <> NaN.
Proof. destruct x, y; simpl; try easy. Qed.

Lemma xmax_upper x y : xmax x y <> NaN -> xle x (xmax x y) /\ xle y (xmax x y).
Proof.
  intros H. destruct (xmax_not_nan _ _ H) as [Hx Hy].
  assert (E : xmax x y = if xltb x y then y else x)
    by (destruct x, y; try easy).
  rewrite E. destruct (xltb x y) eqn:L.
  - split; [now apply xltb_true_le | now apply xle_refl].
  - split; [now apply xle_refl | now apply xltb_false_le].
Qed.

Lemma foldl_xmax_in rest : forall x, foldl xmax x rest ∈ x :: rest.
Proof.
  induction rest as [|y rest IH]; intros x; simpl.
  - apply list_elem_of_here.
  - specialize (IH (xmax x y)).
    apply elem_of_cons in IH as [E | IH].
    + rewrite E. destruct (xmax_cases x y) as [-> | ->].
      * apply list_elem_of_here.
      * apply list_elem_of_further, list_elem_of_here.
    + now do 2 apply list_elem_of_further.
Qed.

Lemma foldl_xmax_upper rest : forall x,
  foldl xmax x rest <> NaN -> forall v, v ∈ x :: rest -> xle v (foldl xmax x rest).
Proof.
  induction rest as [|y rest IH]; intros x Hn v Hv; simpl in *.
  - apply list_elem_of_singleton in Hv as ->. now apply xle_refl.
  - assert (Hxy : xmax x y <> NaN).
    { intros E. pose proof (IH (xmax x y) Hn (xmax x y) (list_elem_of_here _ _)) as H.
      rewrite E in H. destruct (foldl xmax NaN rest); easy. }
    destruct (xmax_upper _ _ Hxy) as [Hx Hy].
    pose proof (IH (xmax x y) Hn) as Hall.
    apply elem_of_cons in Hv as [-> | Hv].
    + eapply xle_trans; [exact Hx |]. apply Hall, list_elem_of_here.
    + apply elem_of_cons in Hv as [-> | Hv].
      * eapply xle_trans; [exact Hy |]. apply Hall, list_elem_of_here.
      * apply Hall. now apply list_elem_of_further.
Qed.

Lemma row_max_in row m : row_max row = Some m -> m ∈ row.
Proof.
  destruct row as [|x rest]; simpl; [easy |].
  intros [= <-]. apply foldl_xmax_in.
Qed.

Lemma row_max_upper row m :
  row_max row = Some m -> m <> NaN -> forall v, v ∈ row -> xle v m.
Proof.
  destruct row as [|x rest]; simpl; [easy |].
  intros [= <-]. apply foldl_xmax_upper.
Qed.

Lemma row_max_is_Some row : row <> [] -> is_Some (row_max row).
Proof. destruct row; [easy | eauto]. Qed.

(** Reading the masked row at a position. *)
Lemma masked_lookup (legal : list Z) (q : list xnum) j :
  zip_with (fun m v => if m =? 1 then v else NInf) legal q !! j =
  match legal !! j, q !! j with
  | Some m, Some v => Some (if m =? 1 then v else NInf)
  | _, _ => None
  end.
Proof.
  rewrite lookup_zip_with.
  destruct (legal !! j); simpl; [| easy]. now destruct (q !! j).
Qed.

(** The masked row only depends on the outputs of the legal actions. *)
Lemma masked_agree (legal : list Z) (q q' : list xnum) :
  length q' = length q -> length legal = length q ->
  (forall j, legal !! j = Some 1 -> q' !! j = q !! j) ->
  zip_with (fun m v => if m =? 1 then v else NInf) legal q' =
  zip_with (fun m v => if m =? 1 then v else NInf) legal q.
Proof.
  intros Hlen Hl Hagree. apply list_eq. intros j.
  rewrite !masked_lookup.
  destruct (legal !! j) as [m|] eqn:Em; [| easy].
  destruct (q !! j) as [v|] eqn:Ev.
  - destruct (q' !! j) as [v'|] eqn:Ev'.
    + destruct (Z.eqb_spec m 1) as [-> | Hne]; [| easy].
      specialize (Hagree j Em). congruence.
    + apply lookup_ge_None in Ev'. apply lookup_lt_Some in Ev. lia.
  - destruct (q' !! j) as [v'|] eqn:Ev'; [| easy].
    apply lookup_ge_None in Ev. apply lookup_lt_Some in Ev'. lia.
Qed.

(** With at least one legal action the bootstrap value exists and is the
    output of a legal action. *)
Lemma next_value_legal (legal : list Z) (q : list xnum) :
  length legal = length q ->
  (exists j, legal !! j = Some 1) ->
  exists m, next_value legal q = Some m /\
            exists j, legal !! j = Some 1 /\ q !! j = Some m.
Proof.
  intros Hlen [j0 Hj0].
  unfold next_value, where_legal. rewrite decide_True by assumption. simpl.
  set (row := zip_with _ legal q).
  assert (Hq0 : is_Some (q !! j0)).
  { apply lookup_lt_is_Some. apply lookup_lt_Some in Hj0. lia. }
  destruct Hq0 as [v0 Hv0].
  assert (Hr0 : row !! j0 = Some v0).
  { unfold row. rewrite masked_lookup, Hj0, Hv0. reflexivity. }
  destruct (row_max_is_Some row) as [m Hm].
  { intros E. rewrite E in Hr0. discriminate. }
  exists m. split; [exact Hm |].
  pose proof (row_max_in _ _ Hm) as Hin.
  apply list_elem_of_lookup in Hin as [j Hj].
  unfold row in Hj. rewrite masked_lookup in Hj.
  destruct (legal !! j) as [mj|] eqn:Emj; [| discriminate].
  destruct (q !! j) as [v|] eqn:Ev; [| discriminate].
  injection Hj as Hj.
  destruct (Z.eqb_spec mj 1) as [-> | Hne].
  - exists j. subst v. auto.
  - subst m. exists j0. split; [exact Hj0 |].
    assert (Hle : xle v0 NInf).
    { eapply row_max_upper; [exact Hm | easy |].
      apply list_elem_of_lookup. eauto. }
    apply xle_NInf in Hle. congruence.
Qed.

(** C4.  When a row of the legal-move mask has a legal action (and, as in
    the claim, an illegal one), the bootstrap value of that row is the
    output of a legal action, it bounds the output of every legal action
    unless it is NaN, and it does not change when the outputs of the
    illegal actions are replaced by anything else, however large. *)
Theorem bootstrap_ignores_illegal (legal : list Z) (q : list xnum) :
  length legal = length q ->
  (exists j, legal !! j = Some 1) ->
  (exists j, legal !! j = Some 0) ->
  exists m,
    next_value legal q = Some m /\
    (exists j, legal !! j = Some 1 /\ q !! j = Some m) /\
    (m <> NaN -> forall j v, legal !! j = Some 1 -> q !! j = Some v -> xle v m) /\
    (forall q', length q' = length q ->
       (forall j, legal !! j = Some 1 -> q' !! j = q !! j) ->
       next_value legal q' = Some m).
Proof.
  intros Hlen Hone _.
  destruct (next_value_legal legal q Hlen Hone) as (m & Hm & Hj).
  exists m. split; [exact Hm |]. split; [exact Hj |]. split.
  - intros Hn j v Hl Hv.
    unfold next_value, where_legal in Hm.
    rewrite decide_True in Hm by assumption. simpl in Hm.
    eapply row_max_upper; [exact Hm | exact Hn |].
    apply list_elem_of_lookup. exists j.
    rewrite masked_lookup, Hl, Hv. reflexivity.
  - intros q' Hlen' Hagree.
    unfold next_value, where_legal in *.
    rewrite decide_True in Hm by assumption.
    rewrite decide_True by lia. simpl in *.
    rewrite (masked_agree legal q q') by assumption. exact Hm.
Qed.

Lemma bootstrap_ignores_illegal_witness :
  exists m,
    next_value [0; 1; 1] [Fin 9; Fin 2; Fin 3] = Some m /\
    (exists j, [0; 1; 1] !! j = Some 1 /\ [Fin 9; Fin 2; Fin 3] !! j = Some m) /\
    (m <> NaN -> forall j v, [0; 1; 1] !! j = Some 1 ->
        [Fin 9; Fin 2; Fin 3] !! j = Some v -> xle v m) /\
    (forall q', length q' = length [Fin 9; Fin 2; Fin 3] ->
       (forall j, [0; 1; 1] !! j = Some 1 -> q' !! j = [Fin 9; Fin 2; Fin 3] !! j) ->
       next_value [0; 1; 1] q' = Some m).
Proof.
  apply (bootstrap_ignores_illegal [0; 1; 1] [Fin 9; Fin 2; Fin 3]).
  - reflexivity.
  - exists 1%nat. reflexivity.
  - exists 0%nat. reflexivity.
Defined.

(** The illegal action holds the largest raw output, the bootstrap value
    is the best legal one. *)
Example bootstrap_largest_is_illegal :
  next_value [0; 1; 1] [Fin 9; Fin 2; Fin 3] = Some (Fin 3).
Proof. reflexivity. Qed.

(** A terminal transition whose mask has a legal action with finite
    outputs: the bootstrap term is a finite number times zero, and the
    target is the reward, whatever the discount factor and the outputs. *)
Lemma terminal_target_with_legal_move (gamma : Q) (r : xnum)
    (legal : list Z) (q : list xnum) :
  length legal = length q ->
  (exists j, legal !! j = Some 1) ->
  (forall j v, legal !! j = Some 1 -> q !! j = Some v -> is_fin v = true) ->
  exists dr, discounted_reward_row gamma r legal q 1 = Some dr /\ xsame dr r.
Proof.
  intros Hlen Hone Hfin.
  destruct (next_value_legal legal q Hlen Hone) as (m & Hm & j & Hj & Hq).
  unfold discounted_reward_row. rewrite Hm. simpl.
  specialize (Hfin j m Hj Hq). destruct m as [b| | |]; try discriminate.
  eexists. split; [reflexivity |].
  destruct r as [a| | |]; simpl; try exact I.
  change (inject_Z (1 - 1)) with 0%Q. ring.
Qed.

Lemma masked_bootstrap_is_nan (gamma : Q) :
  (0 < gamma)%Q -> xmul (xmul (Fin gamma) NInf) (of_Z 0) = NaN.
Proof.
  intros Hg. change (xmul (Fin gamma) NInf) with (inf_times false gamma).
  unfold inf_times, Qsgn. now rewrite (proj1 (Qlt_alt 0 gamma) Hg).
Qed.

(** Without a legal action every masked output is [-inf], and so is the
    maximum of the row. *)
Lemma next_value_without_legal_move (q : list xnum) :
  q <> [] -> next_value (replicate (length q) 0) q = Some NInf.
Proof.
  intros Hq. unfold next_value, where_legal.
  rewrite decide_True by apply length_replicate.
  assert (E : zip_with (fun (m : Z) (v : xnum) => if m =? 1 then v else NInf)
                (replicate (length q) 0) q = replicate (length q) NInf).
  { clear. induction q as [|v q IH]; simpl; [reflexivity | now rewrite IH]. }
  rewrite E. destruct q as [|v q]; [easy |]. simpl. f_equal.
  generalize (length q). intros n.
  induction n as [|n IH]; simpl; [reflexivity | exact IH].
Qed.

(** The product of that maximum with [1 - done = 0] is NaN, and so is the
    target. *)
Lemma terminal_target_without_legal_move (gamma : Q) (r : xnum) (q : list xnum) :
  q <> [] -> (0 < gamma)%Q ->
  discounted_reward_row gamma r (replicate (length q) 0) q 1 = Some NaN.
Proof.
  intros Hq Hg. unfold discounted_reward_row.
  rewrite (next_value_without_legal_move q Hq).
  change (Some (xadd r (xmul (xmul (Fin gamma) NInf) (of_Z 0))) = Some NaN).
  rewrite (masked_bootstrap_is_nan gamma Hg). now destruct r.
Qed.

(** C3.  A sampled transition with [done = 1] and an all-zero legal-move
    mask (an episode that has terminated): the computed target is NaN and
    not the immediate reward [1]. *)
Theorem terminal_target_nan :
  discounted_reward_row (99 # 100) (Fin 1) [0; 0; 0; 0]
                        [Fin (1 # 2); Fin 0; Fin (-1); Fin 2] 1 = Some NaN /\
  ~ xsame NaN (Fin 1).
Proof.
  split.
  - apply (terminal_target_without_legal_move (99 # 100) (Fin 1)
             [Fin (1 # 2); Fin 0; Fin (-1); Fin 2]); easy.
  - simpl. tauto.
Qed.

Lemma target_row_lookup (a : list Z) (q t : list xnum) (dr : xnum) j aj qj :
  target_row a q dr = Some t ->
  a !! j = Some aj -> q !! j = Some qj ->
  t !! j = Some (xadd (xmul (of_Z (1 - aj)) qj) (xmul (of_Z aj) dr)).
Proof.
  unfold target_row. destruct (decide _); [| easy].
  intros [= <-] Ha Hq. rewrite lookup_zip_with, Ha. simpl. now rewrite Hq.
Qed.

(** With a finite discounted reward and finite current outputs the blend
    selects: the target of a row exists, has the length of the row, keeps
    the current output wherever the action indicator is 0 and holds the
    discounted reward wherever it is 1. *)
Lemma target_row_selects (a : list Z) (q : list xnum) (dr : xnum) :
  length a = length q ->
  is_fin dr = true ->
  (forall v, v ∈ q -> is_fin v = true) ->
  exists t,
    target_row a q dr = Some t /\
    length t = length q /\
    forall j aj qj, a !! j = Some aj -> q !! j = Some qj ->
      exists tj, t !! j = Some tj /\
                 (aj = 0 -> xsame tj qj) /\ (aj = 1 -> xsame tj dr).
Proof.
  intros Hlen Hdr Hq.
  assert (Ht : exists t, target_row a q dr = Some t /\ length t = length q).
  { unfold target_row. rewrite decide_True by assumption.
    eexists. split; [reflexivity |]. rewrite length_zip_with. lia. }
  destruct Ht as (t & Ht & Hlt). exists t. split; [exact Ht |]. split; [exact Hlt |].
  intros j aj qj Ha Hqj.
  rewrite (target_row_lookup a q t dr j aj qj Ht Ha Hqj).
  eexists. split; [reflexivity |].
  assert (Hf : is_fin qj = true) by (apply Hq, list_elem_of_lookup; eauto).
  destruct qj as [x| | |]; try discriminate.
  destruct dr as [d| | |]; try discriminate.
  split; intros ->; simpl.
  - change (inject_Z (1 - 0)) with 1%Q. change (inject_Z 0) with 0%Q. ring.
  - change (inject_Z (1 - 1)) with 0%Q. change (inject_Z 1) with 1%Q. ring.
Qed.

(** A discounted reward that is not a finite number spreads: the target
    is NaN at every action that was not taken. *)
Lemma target_row_spreads (a : list Z) (q : list xnum) (dr : xnum) :
  length a = length q -> is_fin dr = false ->
  exists t,
    target_row a q dr = Some t /\
    forall j, (j < length q)%nat -> a !! j = Some 0 -> t !! j = Some NaN.
Proof.
  intros Hlen Hdr.
  assert (Ht : exists t, target_row a q dr = Some t).
  { unfold target_row. rewrite decide_True by assumption. eauto. }
  destruct Ht as (t & Ht). exists t. split; [exact Ht |].
  intros j Hj Ha. destruct (lookup_lt_is_Some_2 q j Hj) as [qj Hq].
  rewrite (target_row_lookup a q t dr j 0 qj Ht Ha Hq). f_equal.
  assert (Hz : xmul (of_Z 0) dr = NaN) by (destruct dr; [discriminate | | |]; reflexivity).
  rewrite Hz. now destruct (xmul (of_Z (1 - 0)) qj).
Qed.

(** C5.  For every sampled transition with [done = 1] and an all-zero
    legal-move mask, whatever its reward, its action and the current
    outputs: the discounted reward is NaN, and the regression target of
    the row is NaN at every action that was not taken, so it is not the
    current output there as soon as that output is a number. *)
Theorem target_row_not_kept (gamma : Q) (r : xnum) (next_q : list xnum)
    (a : list Z) (q : list xnum) :
  (0 < gamma)%Q -> next_q <> [] -> length a = length q ->
  exists t,
    discounted_reward_row gamma r (replicate (length next_q) 0) next_q 1
      = Some NaN /\
    target_row a q NaN = Some t /\
    forall j qj, a !! j = Some 0 -> q !! j = Some qj ->
      t !! j = Some NaN /\ (qj <> NaN -> ~ xsame NaN qj).
Proof.
  intros Hg Hne Hlen.
  destruct (target_row_spreads a q NaN Hlen eq_refl) as (t & Ht & Hnan).
  exists t. split; [now apply terminal_target_without_legal_move |].
  split; [exact Ht |]. intros j qj Ha Hq. split.
  - apply Hnan; [| exact Ha]. apply lookup_lt_is_Some. eauto.
  - intros Hq'. destruct qj; simpl; tauto.
Qed.

Lemma target_row_not_kept_witness :
  exists t,
    discounted_reward_row (99 # 100) (Fin 1)
      (replicate (length [Fin 0; Fin 0; Fin 0; Fin 0]) 0)
      [Fin 0; Fin 0; Fin 0; Fin 0] 1 = Some NaN /\
    target_row [0; 1; 0; 0] [Fin 1; Fin 2; Fin 3; Fin 4] NaN = Some t /\
    forall j qj,
      [0; 1; 0; 0] !! j = Some 0 -> [Fin 1; Fin 2; Fin 3; Fin 4] !! j = Some qj ->
      t !! j = Some NaN /\ (qj <> NaN -> ~ xsame NaN qj).
Proof.
  apply (target_row_not_kept (99 # 100) (Fin 1) [Fin 0; Fin 0; Fin 0; Fin 0]
           [0; 1; 0; 0] [Fin 1; Fin 2; Fin 3; Fin 4]);
    [reflexivity | discriminate | reflexivity].
Defined.

End BootstrapTarget.

(** ** Arrays: indices, views and element-wise operations *)

Section ArrayIndexing.
Import Numpy.

Lemma length_indices (sh : list nat) : length (indices sh) = prod sh.
Proof.
  induction sh as [|d ds IH]; simpl; [reflexivity |].
  generalize 0%nat. induction d as [|d IHd]; intros s; simpl; [reflexivity |].
  rewrite length_app, length_fmap, IH. f_equal. apply IHd.
Qed.

(** Lookup in a concatenation of blocks of equal length. *)
Lemma lookup_bind_blocks {A : Type} (f : nat -> list A) (P : nat) (d : nat) :
  (forall i, length (f i) = P) ->
  forall s i r, (i < d)%nat -> (r < P)%nat ->
    (seq s d ≫= f) !! (i * P + r)%nat = f (s + i)%nat !! r.
Proof.
  intros Hlen. induction d as [|d IH]; intros s i r Hi Hr; [lia |].
  simpl. destruct i as [|i].
  - rewrite lookup_app_l by (rewrite Hlen; simpl; lia).
    simpl. now rewrite Nat.add_0_r.
  - rewrite lookup_app_r by (rewrite Hlen; simpl; lia).
    rewrite Hlen. replace (S i * P + r - P)%nat with (i * P + r)%nat by (simpl; lia).
    rewrite IH by lia. now replace (S s + i)%nat with (s + S i)%nat by lia.
Qed.

Lemma offset_cons (st : nat) (sts : list nat) (i : nat) (idx : list nat) :
  offset (st :: sts) (i :: idx) = (i * st + offset sts idx)%nat.
Proof. reflexivity. Qed.

Lemma in_range_cons (i d : nat) (idx sh : list nat) :
  in_range (i :: idx) (d :: sh) = true <-> (i < d)%nat /\ in_range idx sh = true.
Proof.
  simpl. rewrite andb_true_iff, bool_decide_eq_true. reflexivity.
Qed.

Lemma in_range_length (idx sh : list nat) :
  in_range idx sh = true -> length idx = length sh.
Proof.
  revert sh. induction idx as [|i idx IH]; intros [|d sh]; simpl; try easy.
  rewrite andb_true_iff. intros [_ H]. f_equal. now apply IH.
Qed.

Lemma offset_c_strides_lt (sh idx : list nat) :
  in_range idx sh = true -> (offset (c_strides sh) idx < prod sh)%nat.
Proof.
  revert idx. induction sh as [|d ds IH]; intros [|i idx]; simpl; try easy.
  - intros _. unfold offset. simpl. lia.
  - rewrite andb_true_iff, bool_decide_eq_true. intros [Hi Hr].
    specialize (IH idx Hr). rewrite offset_cons. fold (prod ds). nia.
Qed.

(** The index stored at the row-major position of an in-range index is
    that index. *)
Lemma indices_lookup (sh idx : list nat) :
  in_range idx sh = true ->
  indices sh !! offset (c_strides sh) idx = Some idx.
Proof.
  revert idx. induction sh as [|d ds IH]; intros [|i idx]; simpl; try easy.
  rewrite andb_true_iff, bool_decide_eq_true. intros [Hi Hr].
  rewrite offset_cons.
  rewrite (lookup_bind_blocks (fun i => cons i <$> indices ds) (prod ds)).
  - rewrite list_lookup_fmap, (IH idx Hr). reflexivity.
  - intros k. now rewrite length_fmap, length_indices.
  - exact Hi.
  - now apply offset_c_strides_lt.
Qed.

Lemma indices_in_range (sh idx : list nat) :
  idx ∈ indices sh -> in_range idx sh = true.
Proof.
  revert idx. induction sh as [|d ds IH]; intros idx; simpl.
  - intros H. apply list_elem_of_singleton in H as ->. reflexivity.
  - intros H. apply list_elem_of_bind in H as (i & Hin & Hi).
    apply list_elem_of_fmap in Hin as (idx' & -> & Hidx').
    apply elem_of_seq in Hi. apply in_range_cons. split; [lia | now apply IH].
Qed.

(** An array can be gathered exactly when each of its elements can be
    read. *)
Lemma gather_is_Some (sh st : list nat) (b : buffer) :
  is_Some (gather sh st b) <->
  (forall idx, in_range idx sh = true -> is_Some (read sh st b idx)).
Proof.
  unfold gather. rewrite mapM_is_Some, Forall_forall. split.
  - intros H idx Hr. apply (H idx).
    apply list_elem_of_lookup. eexists. now apply indices_lookup.
  - intros H idx Hin. apply H. now apply indices_in_range.
Qed.

Lemma gather_lookup (sh st : list nat) (b : buffer) (data : list XNum.xnum) (idx : list nat) :
  gather sh st b = Some data -> in_range idx sh = true ->
  data !! offset (c_strides sh) idx = read sh st b idx.
Proof.
  intros Hg Hr. unfold gather in Hg. apply mapM_Some in Hg.
  destruct (Forall2_lookup_l _ _ _ _ _ Hg (indices_lookup sh idx Hr))
    as (y & Hy & Hread).
  now rewrite Hy, Hread.
Qed.


Lemma to_list_readable (h : gmap nat buffer) (a : ndarray) (data : list XNum.xnum) :
  to_list h a = Some data -> readable h a.
Proof.
  unfold to_list, readable, get. destruct (h !! base a) as [b|]; simpl; [| easy].
  intros Hg. split; [eauto |]. apply gather_is_Some. eauto.
Qed.

Lemma readable_gather (h : gmap nat buffer) (a : ndarray) :
  readable h a ->
  exists b data, h !! base a = Some b /\ gather (shape a) (strides a) b = Some data.
Proof.
  intros [[b Hb] Hr]. exists b.
  destruct (proj2 (gather_is_Some (shape a) (strides a) b)) as [data Hd].
  - intros idx Hi. specialize (Hr idx Hi). unfold get in Hr. now rewrite Hb in Hr.
  - eauto.
Qed.

Lemma fresh_lookup_None (h : gmap nat buffer) : h !! fresh (dom h) = None.
Proof. apply not_elem_of_dom, is_fresh. Qed.

(** What an element-wise operation on a readable array returns. *)
Lemma elementwise_readable (out : dtype -> dtype) (f : dtype -> XNum.xnum -> XNum.xnum)
    (h : gmap nat buffer) (a : ndarray) :
  readable h a ->
  exists a' h' b,
    elementwise out f a h = (Some a', h') /\
    h !! base a = Some b /\
    shape a' = shape a /\
    strides a' = c_strides (shape a) /\
    dtype_of h' a' = Some (out (buf_dtype b)) /\
    readable h' a' /\
    forall idx, in_range idx (shape a) = true ->
      get h' a' idx = f (buf_dtype b) <$> get h a idx.
Proof.
  intros Hr. destruct (readable_gather h a Hr) as (b & data & Hb & Hd).
  unfold elementwise, new_array. rewrite Hb, Hd.
  eexists _, _, b. split; [reflexivity |]. split; [reflexivity |].
  split; [reflexivity |]. split; [reflexivity |].
  assert (Hget : forall idx, in_range idx (shape a) = true ->
            get (<[fresh (dom h) := {| buf_dtype := out (buf_dtype b);
                                       buf_data := f (buf_dtype b) <$> data |}]> h)
                {| base := fresh (dom h); shape := shape a;
                   strides := c_strides (shape a) |} idx
            = f (buf_dtype b) <$> get h a idx).
  { intros idx Hi. unfold get. simpl. rewrite lookup_insert_eq, Hb. simpl.
    unfold read at 1. rewrite Hi. simpl.
    rewrite list_lookup_fmap. f_equal. now apply gather_lookup. }
  split; [| split].
  - unfold dtype_of. simpl. now rewrite lookup_insert_eq.
  - split; simpl.
    + rewrite lookup_insert_eq. eauto.
    + intros idx Hi. rewrite (Hget idx Hi).
      destruct Hr as [_ Hr]. destruct (Hr idx Hi) as [v ->]. simpl. eauto.
  - exact Hget.
Qed.

End ArrayIndexing.

(** ** The preprocessing pipeline *)

Section Preprocessing.
Import Numpy Preprocess.

Lemma bind_Some {A B : Type} (m : M A) (f : A -> M B) h x h1 :
  m h = (Some x, h1) -> (m ≫= f) h = f x h1.
Proof. intros E. unfold mbind, M_bind. now rewrite E. Qed.

Lemma bind_None {A B : Type} (m : M A) (f : A -> M B) h h1 :
  m h = (None, h1) -> (m ≫= f) h = (None, h1).
Proof. intros E. unfold mbind, M_bind. now rewrite E. Qed.

Lemma bind_Some_inv {A B : Type} (m : M A) (f : A -> M B) h y h2 :
  (m ≫= f) h = (Some y, h2) ->
  exists x h1, m h = (Some x, h1) /\ f x h1 = (Some y, h2).
Proof.
  unfold mbind, M_bind. destruct (m h) as [[x|] h1]; [eauto | discriminate].
Qed.

(** *** Views of a batch *)

(** A C-contiguous array seen as a batch of one. *)
Lemma batch_view_get (h : gmap nat buffer) (c : ndarray) (idx : list nat) :
  strides c = c_strides (shape c) ->
  get h {| base := base c; shape := 1%nat :: shape c;
           strides := c_strides (1%nat :: shape c) |} (0%nat :: idx)
  = get h c idx.
Proof.
  intros Hs. unfold get. simpl. destruct (h !! base c) as [b|]; simpl; [| easy].
  unfold read. simpl. rewrite Hs. destruct (in_range idx (shape c)); [| easy].
  rewrite offset_cons. reflexivity.
Qed.

Lemma reshape_batch_of_one (h : gmap nat buffer) (a : ndarray) :
  readable h a ->
  exists a1 h1,
    reshape a (1%nat :: shape a) h = (Some a1, h1) /\
    shape a1 = 1%nat :: shape a /\
    strides a1 = c_strides (1%nat :: shape a) /\
    readable h1 a1 /\
    (forall idx, in_range idx (shape a) = true ->
       get h1 a1 (0%nat :: idx) = get h a idx) /\
    dtype_of h1 a1 = dtype_of h a.
Proof.
  intros Hr. unfold reshape.
  rewrite decide_True by (simpl; lia).
  assert (Hread : forall (k : gmap nat buffer) (c : ndarray),
            strides c = c_strides (shape c) -> readable k c ->
            readable k {| base := base c; shape := 1%nat :: shape c;
                          strides := c_strides (1%nat :: shape c) |}).
  { intros k c Hs [Hb Hc]. split; [exact Hb |]. simpl.
    intros [|i idx]; [easy |]. rewrite in_range_cons. intros [Hi Hidx].
    replace i with 0%nat by lia.
    pose proof (batch_view_get k c idx Hs) as E. simpl in *. rewrite E. auto. }
  destruct (decide (strides a = c_strides (shape a))) as [Hs | Hs].
  - eexists _, h. split; [reflexivity |]. split; [reflexivity |].
    split; [reflexivity |]. split; [now apply Hread |].
    split; [| reflexivity]. intros idx _. now apply batch_view_get.
  - destruct (elementwise_readable (fun d => d) (fun _ x => x) h a Hr)
      as (c & h1 & b & Hc & Hb & Hsh & Hst & Hdt & Hrc & Hget).
    rewrite <- Hsh in Hst.
    exists {| base := base c; shape := 1%nat :: shape c;
              strides := c_strides (1%nat :: shape c) |}, h1.
    split; [| split; [| split; [| split; [| split]]]].
    + fold copy in Hc. rewrite (bind_Some _ _ _ _ _ Hc). now rewrite Hsh.
    + simpl. now rewrite Hsh.
    + simpl. now rewrite Hsh.
    + now apply Hread.
    + intros idx Hi. rewrite (batch_view_get h1 c idx Hst).
      rewrite (Hget idx Hi). now destruct (get h a idx).
    + unfold dtype_of at 2. rewrite Hb. exact Hdt.
Qed.

(** Moving the last axis of a rank-4 array behind the batch axis. *)
Lemma rollaxis_rank4 (h : gmap nat buffer) (a : ndarray) (B S1 S2 N s0 s1 s2 s3 : nat) :
  shape a = [B; S1; S2; N] -> strides a = [s0; s1; s2; s3] ->
  rollaxis a 3 1 h =
    (Some {| base := base a; shape := [B; N; S1; S2];
             strides := [s0; s3; s1; s2] |}, h).
Proof.
  intros Hsh Hst. unfold rollaxis, ndim. rewrite Hsh. cbn zeta. simpl length.
  rewrite (decide_True (P := (3 < 4 /\ 1 <= 4)%nat)) by lia.
  rewrite (decide_False (P := (3 < 1)%nat)) by lia.
  rewrite (decide_False (P := (3 = 1)%nat)) by lia.
  unfold transpose. rewrite Hsh, Hst. reflexivity.
Qed.

Lemma rolled_get (h : gmap nat buffer) (l B S1 S2 N s0 s1 s2 s3 b n i j : nat) :
  get h {| base := l; shape := [B; N; S1; S2]; strides := [s0; s3; s1; s2] |}
      [b; n; i; j]
  = get h {| base := l; shape := [B; S1; S2; N]; strides := [s0; s1; s2; s3] |}
      [b; i; j; n].
Proof.
  unfold get. simpl. destruct (h !! l) as [buf|]; simpl; [| easy].
  unfold read. simpl.
  destruct (bool_decide (b < B)%nat), (bool_decide (n < N)%nat),
           (bool_decide (i < S1)%nat), (bool_decide (j < S2)%nat); simpl; try easy.
  unfold offset. simpl. f_equal. lia.
Qed.

Lemma in_range_rank4 (idx : list nat) (B N S1 S2 : nat) :
  in_range idx [B; N; S1; S2] = true ->
  exists b n i j, idx = [b; n; i; j] /\
    (b < B)%nat /\ (n < N)%nat /\ (i < S1)%nat /\ (j < S2)%nat.
Proof.
  destruct idx as [|b [|n [|i [|j [|]]]]]; simpl; try easy;
    rewrite ?andb_false_r; try easy.
  rewrite !andb_true_iff, !bool_decide_eq_true.
  intros (? & ? & ? & ? & _). exists b, n, i, j. auto.
Qed.

Lemma in_range_rank4_intro (b n i j B N S1 S2 : nat) :
  (b < B)%nat -> (n < N)%nat -> (i < S1)%nat -> (j < S2)%nat ->
  in_range [b; n; i; j] [B; N; S1; S2] = true.
Proof.
  intros. simpl. rewrite !andb_true_iff, !bool_decide_eq_true. auto.
Qed.

(** *** The copies and the normalisation *)

Lemma dtype_of_buffer (h : gmap nat buffer) (a : ndarray) (b : buffer) (dt : dtype) :
  dtype_of h a = Some dt -> h !! base a = Some b -> buf_dtype b = dt.
Proof. unfold dtype_of. intros Hd Hb. rewrite Hb in Hd. now injection Hd. Qed.

Lemma normalize_copy (h : gmap nat buffer) (a : ndarray) (dt : dtype) :
  readable h a -> dtype_of h a = Some dt ->
  exists out h',
    (c ← copy a; n ← _normalize_board c; copy n) h = (Some out, h') /\
    shape out = shape a /\
    dtype_of h' out = Some float32 /\
    readable h' out /\
    forall idx, in_range idx (shape a) = true ->
      get h' out idx = normalized dt <$> get h a idx.
Proof.
  intros Hr Hdt.
  destruct (elementwise_readable (fun d => d) (fun _ x => x) h a Hr)
    as (c & h1 & b1 & E1 & Hb1 & Hs1 & _ & D1 & Hr1 & G1).
  destruct (elementwise_readable (fun _ => float32) cast_float32 h1 c Hr1)
    as (f & h2 & b2 & E2 & Hb2 & Hs2 & _ & D2 & Hr2 & G2).
  destruct (elementwise_readable true_divide_dtype (true_divide1 4) h2 f Hr2)
    as (n & h3 & b3 & E3 & Hb3 & Hs3 & _ & D3 & Hr3 & G3).
  destruct (elementwise_readable (fun d => d) (fun _ x => x) h3 n Hr3)
    as (out & h4 & b4 & E4 & Hb4 & Hs4 & _ & D4 & Hr4 & G4).
  pose proof (dtype_of_buffer h a b1 dt Hdt Hb1) as T1.
  pose proof (dtype_of_buffer h1 c b2 _ D1 Hb2) as T2.
  pose proof (dtype_of_buffer h2 f b3 _ D2 Hb3) as T3.
  pose proof (dtype_of_buffer h3 n b4 _ D3 Hb4) as T4.
  rewrite T3 in T4. simpl in T4.
  exists out, h4. split; [| split; [| split; [| split]]].
  - fold copy in E1. rewrite (bind_Some _ _ _ _ _ E1).
    unfold _normalize_board.
    fold astype_float32 in E2. fold (true_divide 4) in E3. fold copy in E4.
    assert (En : (f0 ← astype_float32 c; true_divide 4 f0) h1 = (Some n, h3))
      by now rewrite (bind_Some _ _ _ _ _ E2).
    now rewrite (bind_Some _ _ _ _ _ En).
  - congruence.
  - now rewrite D4, T4.
  - exact Hr4.
  - intros idx Hi.
    rewrite G4 by congruence. rewrite G3 by congruence.
    rewrite G2 by congruence. rewrite G1 by congruence.
    rewrite T3, T2, T1. unfold normalized.
    now destruct (get h a idx).
Qed.

Lemma rolled_readable (h : gmap nat buffer) (l B S1 S2 N s0 s1 s2 s3 : nat) :
  readable h {| base := l; shape := [B; S1; S2; N]; strides := [s0; s1; s2; s3] |} ->
  readable h {| base := l; shape := [B; N; S1; S2]; strides := [s0; s3; s1; s2] |}.
Proof.
  intros [Hb Hr]. split; [exact Hb |]. simpl in *. intros idx Hi.
  destruct (in_range_rank4 idx _ _ _ _ Hi) as (b & n & i & j & -> & ? & ? & ? & ?).
  rewrite rolled_get. apply Hr. now apply in_range_rank4_intro.
Qed.

(** Everything after the promotion to a batch, on a rank-4 array. *)
Lemma roll_normalize (h : gmap nat buffer) (a : ndarray) (B S1 S2 N : nat)
    (dt : dtype) :
  shape a = [B; S1; S2; N] -> length (strides a) = 4%nat -> readable h a ->
  dtype_of h a = Some dt ->
  exists out h',
    (board2 ← rollaxis a 3 1; c ← copy board2; n ← _normalize_board c; copy n) h
      = (Some out, h') /\
    shape out = [B; N; S1; S2] /\
    dtype_of h' out = Some float32 /\
    forall b n i j, (b < B)%nat -> (n < N)%nat -> (i < S1)%nat -> (j < S2)%nat ->
      get h' out [b; n; i; j] = normalized dt <$> get h a [b; i; j; n].
Proof.
  intros Hsh Hlen Hr Hdt. destruct a as [l sh st]. simpl in *. subst sh.
  destruct st as [|s0 [|s1 [|s2 [|s3 [|]]]]]; try discriminate.
  set (a2 := {| base := l; shape := [B; N; S1; S2]; strides := [s0; s3; s1; s2] |}).
  destruct (normalize_copy h a2 dt (rolled_readable _ _ _ _ _ _ _ _ _ _ Hr) Hdt)
    as (out & h' & E & Hs & Hd & _ & Hg).
  exists out, h'. split; [| split; [| split]].
  - rewrite (bind_Some _ _ _ _ _
               (rollaxis_rank4 h {| base := l; shape := [B; S1; S2; N];
                                    strides := [s0; s1; s2; s3] |}
                               B S1 S2 N s0 s1 s2 s3 eq_refl eq_refl)).
    exact E.
  - exact Hs.
  - exact Hd.
  - intros b n i j Hb Hn Hi Hj.
    rewrite (Hg [b; n; i; j]) by now apply in_range_rank4_intro.
    unfold a2. now rewrite rolled_get.
Qed.

(** Rounding does not depend on how the rational is written. *)
Lemma round_proper (fmt : Float.format) (q q' : Q) :
  (q == q')%Q -> Float.round fmt q = Float.round fmt q'.
Proof. intros E. unfold Float.round. now rewrite (Qred_complete q q' E). Qed.

(** On a value that is a float32 value and whose quarter is one as well,
    the conversion and the division are exact. *)
Lemma normalized_exact (dt : dtype) (q : Q) :
  Float.representable Float.binary32 q ->
  Float.representable Float.binary32 (q / 4) ->
  XNum.xsame (normalized dt (XNum.Fin q)) (XNum.Fin (q / 4)).
Proof.
  unfold Float.representable. intros H1 H2.
  assert (Hdiv : forall q', (q' == q)%Q ->
            XNum.xsame (true_divide1 4 float32 (XNum.Fin q')) (XNum.Fin (q / 4))).
  { intros q' E. unfold true_divide1, Float.fdiv.
    change (Float.round Float.binary32 4) with (XNum.Fin 4).
    change (Float.xdiv (XNum.Fin q') (XNum.Fin 4)) with (XNum.Fin (q' / 4)).
    cbn [Float.rnd]. rewrite (round_proper _ (q' / 4) (q / 4)); [exact H2 |].
    now rewrite E. }
  unfold normalized, cast_float32. destruct dt; cbn [Float.rnd].
  - destruct (Float.round Float.binary32 q) as [q'| | |]; try easy. now apply Hdiv.
  - now apply Hdiv.
  - destruct (Float.round Float.binary32 q) as [q'| | |]; try easy. now apply Hdiv.
Qed.

(** C6.  A readable observation of shape board x board x N is promoted to
    a batch of one and comes back with shape 1 x N x board x board; a
    batch of shape B x board x board x N comes back with shape
    B x N x board x board.  In both cases the result is a float32 array,
    and its element at (b, n, i, j) is the element (b, i, j, n) of the
    input converted to float32 and divided by 4 as a float32 value.  For
    a cell whose value and its quarter are float32 values (the integers
    a board holds are), that is the value divided by 4. *)
Theorem prepare_input_layout (h : gmap nat buffer) (board : ndarray)
    (S N : nat) (data : list XNum.xnum) (dt : dtype) :
  to_list h board = Some data -> dtype_of h board = Some dt ->
  let element (x : XNum.xnum) :=
    Float.fdiv Float.binary32 (cast_float32 dt x) (XNum.Fin 4) in
  (shape board = [S; S; N] ->
   exists out h',
     _prepare_input [S; S; N] board h = (Some out, h') /\
     shape out = [1%nat; N; S; S] /\
     dtype_of h' out = Some float32 /\
     forall n i j, (n < N)%nat -> (i < S)%nat -> (j < S)%nat ->
       exists x, get h board [i; j; n] = Some x /\
                 get h' out [0%nat; n; i; j] = Some (element x)) /\
  (forall (B : nat) (_input_shape : list nat),
   shape board = [B; S; S; N] -> length (strides board) = 4%nat ->
   exists out h',
     _prepare_input _input_shape board h = (Some out, h') /\
     shape out = [B; N; S; S] /\
     dtype_of h' out = Some float32 /\
     forall b n i j, (b < B)%nat -> (n < N)%nat -> (i < S)%nat -> (j < S)%nat ->
       exists x, get h board [b; i; j; n] = Some x /\
                 get h' out [b; n; i; j] = Some (element x)) /\
  (forall q : Q,
     Float.representable Float.binary32 q ->
     Float.representable Float.binary32 (q / 4) ->
     XNum.xsame (element (XNum.Fin q)) (XNum.Fin (q / 4))).
Proof.
  intros Hdata Hdt. cbn zeta. apply to_list_readable in Hdata as Hr.
  change (fun x => Float.fdiv Float.binary32 (cast_float32 dt x) (XNum.Fin 4))
    with (normalized dt).
  split; [| split].
  - intros Hsh. unfold _prepare_input, ndim. rewrite Hsh. simpl length.
    rewrite (decide_True (P := (3 = 3)%nat)) by reflexivity.
    destruct (reshape_batch_of_one h board Hr)
      as (a1 & h1 & E1 & Hs1 & Ht1 & Hr1 & G1 & D1).
    rewrite Hsh in E1, Hs1, Ht1, G1. rewrite Hdt in D1.
    destruct (roll_normalize h1 a1 1 S S N dt Hs1 ltac:(now rewrite Ht1) Hr1 D1)
      as (out & h' & E & Hs & Hd & Hg).
    exists out, h'. split; [| split; [| split]].
    + rewrite (bind_Some _ _ _ _ _ E1). exact E.
    + exact Hs.
    + exact Hd.
    + intros n i j Hn Hi Hj.
      rewrite (Hg 0%nat n i j) by (assumption || lia).
      assert (Hin : in_range [i; j; n] [S; S; N] = true).
      { simpl. rewrite !andb_true_iff, !bool_decide_eq_true. auto. }
      rewrite (G1 [i; j; n] Hin).
      destruct Hr as [_ Hr]. rewrite Hsh in Hr. destruct (Hr _ Hin) as [x Hx].
      exists x. now rewrite Hx.
  - intros B ish Hsh Hlen. unfold _prepare_input, ndim. rewrite Hsh. simpl length.
    rewrite (decide_False (P := (4 = 3)%nat)) by lia.
    destruct (roll_normalize h board B S S N dt Hsh Hlen Hr Hdt)
      as (out & h' & E & Hs & Hd & Hg).
    exists out, h'. split; [| split; [| split]].
    + rewrite (bind_Some _ _ h board h eq_refl). exact E.
    + exact Hs.
    + exact Hd.
    + intros b n i j Hb Hn Hi Hj. rewrite (Hg b n i j) by assumption.
      destruct Hr as [_ Hr]. rewrite Hsh in Hr.
      destruct (Hr [b; i; j; n]) as [x Hx];
        [now apply in_range_rank4_intro |].
      exists x. now rewrite Hx.
  - intros q. apply normalized_exact.
Qed.

Lemma prepare_input_layout_witness :
  let element (x : XNum.xnum) :=
    Float.fdiv Float.binary32 (cast_float32 int_dtype x) (XNum.Fin 4) in
  (exists out h',
     _prepare_input [2; 2; 2]%nat Examples.single_board Examples.store8
       = (Some out, h') /\
     shape out = [1; 2; 2; 2]%nat /\
     dtype_of h' out = Some float32 /\
     forall n i j, (n < 2)%nat -> (i < 2)%nat -> (j < 2)%nat ->
       exists x, get Examples.store8 Examples.single_board [i; j; n] = Some x /\
                 get h' out [0%nat; n; i; j] = Some (element x)) /\
  (exists out h',
     _prepare_input [2; 2; 2]%nat Examples.batch_board Examples.store8
       = (Some out, h') /\
     shape out = [1; 2; 2; 2]%nat /\
     dtype_of h' out = Some float32 /\
     forall b n i j, (b < 1)%nat -> (n < 2)%nat -> (i < 2)%nat -> (j < 2)%nat ->
       exists x, get Examples.store8 Examples.batch_board [b; i; j; n] = Some x /\
                 get h' out [b; n; i; j] = Some (element x)) /\
  XNum.xsame (element (XNum.Fin 3)) (XNum.Fin (3 / 4)).
Proof.
  cbn zeta.
  destruct (prepare_input_layout Examples.store8 Examples.single_board 2 2
              (XNum.Fin <$> [0; 1; 2; 3; 4; 3; 2; 1]%Q) int_dtype)
    as (H1 & _ & H3); [vm_compute; reflexivity | vm_compute; reflexivity |].
  destruct (prepare_input_layout Examples.store8 Examples.batch_board 2 2
              (XNum.Fin <$> [0; 1; 2; 3; 4; 3; 2; 1]%Q) int_dtype)
    as (_ & H2 & _); [vm_compute; reflexivity | vm_compute; reflexivity |].
  split; [apply H1; reflexivity |].
  split; [apply (H2 1%nat [2; 2; 2]%nat); reflexivity |].
  apply (H3 3%Q); vm_compute; reflexivity.
Defined.

(** *** No buffer is written, and the result is reproducible *)


Lemma extends_ret {A : Type} (x : A) : extends (mret x : M A).
Proof. intros h. reflexivity. Qed.

Lemma extends_raise {A : Type} : extends (@raise A).
Proof. intros h. reflexivity. Qed.

Lemma extends_bind {A B : Type} (m : M A) (f : A -> M B) :
  extends m -> (forall x, extends (f x)) -> extends (m ≫= f).
Proof.
  intros Hm Hf h. unfold mbind, M_bind. specialize (Hm h).
  destruct (m h) as [[x|] h1]; simpl in *; [| exact Hm].
  etransitivity; [exact Hm | apply Hf].
Qed.

Lemma extends_elementwise (out : dtype -> dtype) (f : dtype -> XNum.xnum -> XNum.xnum)
    (a : ndarray) :
  extends (elementwise out f a).
Proof.
  intros h. unfold elementwise, new_array.
  destruct (h !! base a) as [b|]; [| reflexivity].
  destruct (gather _ _ b); [| reflexivity].
  simpl. apply insert_subseteq, fresh_lookup_None.
Qed.

Lemma extends_reshape (a : ndarray) (sh : list nat) : extends (reshape a sh).
Proof.
  unfold reshape. destruct (decide _); [| apply extends_raise].
  destruct (decide _); [apply extends_ret |].
  apply extends_bind; [apply extends_elementwise | intros c; apply extends_ret].
Qed.

Lemma extends_rollaxis (a : ndarray) (axis start : nat) :
  extends (rollaxis a axis start).
Proof.
  unfold rollaxis. cbn zeta. destruct (decide _); [| apply extends_raise].
  destruct (decide _); apply extends_ret.
Qed.

Lemma extends_prepare_input (ish : list nat) (board : ndarray) :
  extends (_prepare_input ish board).
Proof.
  unfold _prepare_input. apply extends_bind.
  - destruct (decide _); [apply extends_reshape | apply extends_ret].
  - intros b1. apply extends_bind; [apply extends_rollaxis |].
    intros b2. apply extends_bind; [apply extends_elementwise |].
    intros c. apply extends_bind.
    + unfold _normalize_board. apply extends_bind; [apply extends_elementwise |].
      intros f. apply extends_elementwise.
    + intros n. apply extends_elementwise.
Qed.



Lemma sim_ret h a h' a' :
  same_view h a h' a' -> sim_result ((mret a : M ndarray) h) ((mret a' : M ndarray) h').
Proof. intros H. exact H. Qed.

Lemma sim_bind (m m' : M ndarray) (f f' : ndarray -> M ndarray) h h' :
  sim_result (m h) (m' h') ->
  (forall r k r' k', same_view k r k' r' -> sim_result (f r k) (f' r' k')) ->
  sim_result ((m ≫= f) h) ((m' ≫= f') h').
Proof.
  intros Hm Hf. unfold mbind, M_bind. unfold sim_result in Hm.
  destruct (m h) as [[r|] k], (m' h') as [[r'|] k']; simpl in Hm; try easy.
  now apply Hf.
Qed.

Lemma sim_elementwise (out : dtype -> dtype) (f : dtype -> XNum.xnum -> XNum.xnum)
    h a h' a' :
  same_view h a h' a' ->
  sim_result (elementwise out f a h) (elementwise out f a' h').
Proof.
  intros (Hsh & Hst & Hb). unfold elementwise, new_array.
  rewrite <- Hb, <- Hsh, <- Hst.
  destruct (h !! base a) as [b|]; [| exact I].
  destruct (gather (shape a) (strides a) b) as [data|]; [| exact I].
  unfold sim_result, same_view. simpl. now rewrite !lookup_insert_eq.
Qed.

Lemma sim_reshape (sh : list nat) h a h' a' :
  same_view h a h' a' -> sim_result (reshape a sh h) (reshape a' sh h').
Proof.
  intros Hv. pose proof Hv as (Hsh & Hst & Hb). unfold reshape.
  rewrite <- Hsh, <- Hst.
  destruct (decide _); [| exact I].
  destruct (decide _).
  - unfold sim_result, same_view. simpl. auto.
  - apply sim_bind; [now apply sim_elementwise |].
    intros r k r' k' (_ & _ & Hr). unfold sim_result, same_view. simpl. auto.
Qed.

Lemma sim_rollaxis (axis start : nat) h a h' a' :
  same_view h a h' a' ->
  sim_result (rollaxis a axis start h) (rollaxis a' axis start h').
Proof.
  intros Hv. pose proof Hv as (Hsh & Hst & Hb). unfold rollaxis, ndim, transpose.
  cbn zeta. rewrite <- Hsh, <- Hst.
  destruct (decide _); [| exact I].
  destruct (decide _); [exact Hv |].
  unfold sim_result, same_view. simpl. auto.
Qed.

Lemma sim_prepare_input (ish : list nat) h a h' a' :
  same_view h a h' a' ->
  sim_result (_prepare_input ish a h) (_prepare_input ish a' h').
Proof.
  intros Hv. unfold _prepare_input. apply sim_bind.
  - unfold ndim. rewrite <- (proj1 Hv).
    destruct (decide _); [now apply sim_reshape | exact Hv].
  - intros b1 k1 b1' k1' H1. apply sim_bind; [now apply sim_rollaxis |].
    intros b2 k2 b2' k2' H2. apply sim_bind; [now apply sim_elementwise |].
    intros c k3 c' k3' H3. apply sim_bind.
    + unfold _normalize_board. apply sim_bind; [now apply sim_elementwise |].
      intros f k4 f' k4' H4. now apply sim_elementwise.
    + intros n k5 n' k5' H5. now apply sim_elementwise.
Qed.

Lemma rollaxis_inv (a a' : ndarray) (axis start : nat) h h' :
  rollaxis a axis start h = (Some a', h') -> base a' = base a /\ h' = h.
Proof.
  unfold rollaxis. cbn zeta. destruct (decide _); [| discriminate].
  destruct (decide _); intros [= <- <-]; auto.
Qed.

Lemma reshape_without_buffer (a a' : ndarray) (sh : list nat) h h' :
  h !! base a = None ->
  reshape a sh h = (Some a', h') -> base a' = base a /\ h' = h.
Proof.
  intros Hb. unfold reshape. destruct (decide _); [| discriminate].
  destruct (decide _); [intros [= <- <-]; auto |].
  unfold mbind, M_bind, copy, elementwise. now rewrite Hb.
Qed.

(** A run that returns has read the buffer of its argument. *)
Lemma prepare_input_reads (ish : list nat) (board out : ndarray) h h2 :
  _prepare_input ish board h = (Some out, h2) -> is_Some (h !! base board).
Proof.
  intros E. destruct (h !! base board) as [b|] eqn:Hb; [eauto | exfalso].
  unfold _prepare_input in E.
  apply bind_Some_inv in E as (b1 & h1 & E1 & E).
  assert (H1 : base b1 = base board /\ h1 = h).
  { destruct (decide _).
    - eapply reshape_without_buffer; eassumption.
    - injection E1 as <- <-. auto. }
  destruct H1 as [Hb1 ->].
  apply bind_Some_inv in E as (b2 & h2' & E2 & E).
  apply rollaxis_inv in E2 as [Hb2 ->].
  apply bind_Some_inv in E as (c & h3 & E3 & _).
  unfold copy, elementwise in E3. rewrite Hb2, Hb1, Hb in E3. discriminate.
Qed.

(** The value of a run of the pipeline is an array that can be read. *)
Lemma prepare_input_readable (ish : list nat) (board out : ndarray) h h2 :
  _prepare_input ish board h = (Some out, h2) -> readable h2 out.
Proof.
  intros E. unfold _prepare_input in E.
  apply bind_Some_inv in E as (b1 & h1 & _ & E).
  apply bind_Some_inv in E as (b2 & k2 & _ & E).
  apply bind_Some_inv in E as (c & k3 & _ & E).
  apply bind_Some_inv in E as (n & k4 & _ & E).
  assert (Hn : readable k4 n).
  { unfold copy, elementwise in E.
    destruct (k4 !! base n) as [b|] eqn:Hb; [| discriminate].
    destruct (gather (shape n) (strides n) b) as [data|] eqn:Hd; [| discriminate].
    apply (to_list_readable k4 n data). unfold to_list. now rewrite Hb. }
  destruct (elementwise_readable (fun d => d) (fun _ x => x) k4 n Hn)
    as (out' & h' & b & E' & _ & _ & _ & _ & Hr & _).
  fold copy in E'. rewrite E' in E. now injection E as <- <-.
Qed.

Lemma readable_to_list h (a : ndarray) : readable h a -> is_Some (to_list h a).
Proof.
  intros Hr. destruct (readable_gather h a Hr) as (b & data & Hb & Hd).
  unfold to_list. rewrite Hb. simpl. eauto.
Qed.

(** C7.  Whatever the input array and whether or not the call raises,
    every buffer that existed before the call holds the same contents
    after it; and when the call returns, a second call on the same input
    returns an array with the same shape, the same dtype and the same
    elements as the first, which is still intact. *)
Theorem prepare_input_pure (ish : list nat) (board : ndarray) (h : gmap nat buffer) :
  (forall l b, h !! l = Some b -> (_prepare_input ish board h).2 !! l = Some b) /\
  (forall out1 h1, _prepare_input ish board h = (Some out1, h1) ->
     to_list h1 board = to_list h board /\
     exists out2 h2 data,
       _prepare_input ish board h1 = (Some out2, h2) /\
       shape out2 = shape out1 /\
       dtype_of h2 out2 = dtype_of h1 out1 /\
       to_list h1 out1 = Some data /\
       to_list h2 out1 = Some data /\
       to_list h2 out2 = Some data).
Proof.
  split.
  - intros l b Hl. eapply lookup_weaken; [exact Hl |]. apply extends_prepare_input.
  - intros out1 h1 E1.
    pose proof (extends_prepare_input ish board h) as Hext. rewrite E1 in Hext.
    simpl in Hext.
    destruct (prepare_input_reads _ _ _ _ _ E1) as [bb Hbb].
    pose proof (lookup_weaken _ _ _ _ Hbb Hext) as Hbb1.
    split; [unfold to_list; now rewrite Hbb, Hbb1 |].
    assert (Hv : same_view h board h1 board).
    { unfold same_view. rewrite Hbb, Hbb1. auto. }
    pose proof (sim_prepare_input ish _ _ _ _ Hv) as Hsim.
    rewrite E1 in Hsim. unfold sim_result in Hsim. simpl in Hsim.
    destruct (_prepare_input ish board h1) as [[out2|] h2] eqn:E2; simpl in Hsim;
      [| easy].
    destruct Hsim as (Hsh & Hst & Hb).
    pose proof (extends_prepare_input ish board h1) as Hext2. rewrite E2 in Hext2.
    simpl in Hext2.
    pose proof (prepare_input_readable _ _ _ _ _ E1) as Hr1.
    destruct (readable_to_list _ _ Hr1) as [data Hdata].
    destruct Hr1 as [[b1 Hb1] _].
    pose proof (lookup_weaken _ _ _ _ Hb1 Hext2) as Hb1'.
    assert (D1 : to_list h2 out1 = Some data).
    { unfold to_list in *. now rewrite Hb1', <- Hb1. }
    exists out2, h2, data. split; [reflexivity |]. split; [congruence |].
    split; [unfold dtype_of; congruence |]. split; [exact Hdata |].
    split; [exact D1 |].
    unfold to_list in *. rewrite <- Hsh, <- Hst, <- Hb, Hb1.
    now rewrite Hb1 in Hdata.
Qed.

Lemma prepare_input_pure_witness :
  to_list Examples.store8 Examples.single_board = Some (XNum.Fin <$> [0; 1; 2; 3; 4; 3; 2; 1]%Q) /\
  exists out1 h1 out2 h2 data,
    _prepare_input [2; 2; 2]%nat Examples.single_board Examples.store8
      = (Some out1, h1) /\
    to_list h1 Examples.single_board = Some (XNum.Fin <$> [0; 1; 2; 3; 4; 3; 2; 1]%Q) /\
    _prepare_input [2; 2; 2]%nat Examples.single_board h1 = (Some out2, h2) /\
    to_list h2 out1 = Some data /\ to_list h2 out2 = Some data.
Proof.
  split; [vm_compute; reflexivity |].
  destruct (_prepare_input [2; 2; 2]%nat Examples.single_board Examples.store8)
    as [[out1|] h1] eqn:E1; [| vm_compute in E1; discriminate].
  destruct (proj2 (prepare_input_pure [2; 2; 2]%nat Examples.single_board
                     Examples.store8) out1 h1 E1)
    as (Hin & out2 & h2 & data & E2 & _ & _ & _ & D1 & D2).
  exists out1, h1, out2, h2, data.
  split; [reflexivity |]. split; [rewrite Hin; vm_compute; reflexivity |].
  auto.
Defined.

End Preprocessing.

(** ** Methods of the agents *)

Section Frames.
Import Torch.

Variable view : agent -> agent.

Lemma frame_ret {A : Type} (x : A) : frame view (mret x : T A).
Proof. intros ag. reflexivity. Qed.

Lemma frame_raise {A : Type} (e : exn) : frame view (@raise A e).
Proof. intros ag. reflexivity. Qed.

Lemma frame_self : frame view self.
Proof. intros ag. reflexivity. Qed.

Lemma frame_attr {A : Type} (field : agent -> option A) : frame view (attr field).
Proof. intros ag. unfold attr. now destruct (field ag). Qed.

Lemma frame_lift {A : Type} (e : exn) (o : option A) : frame view (lift e o).
Proof. destruct o; [apply frame_ret | apply frame_raise]. Qed.

Lemma frame_modify (f : agent -> agent) :
  (forall ag, view (f ag) = view ag) -> frame view (modify f).
Proof. intros H ag. apply H. Qed.

Lemma frame_bind {A B : Type} (m : T A) (f : A -> T B) :
  frame view m -> (forall x, frame view (f x)) -> frame view (m ≫= f).
Proof.
  intros Hm Hf ag. unfold mbind, T_bind. specialize (Hm ag).
  destruct (m ag) as [[x|e] ag1]; simpl in *; [| exact Hm].
  now rewrite Hf.
Qed.

Lemma frame_for_each {A : Type} (l : list A) (body : A -> T unit) :
  (forall x, frame view (body x)) -> frame view (for_each l body).
Proof.
  intros H. induction l as [|x l IH]; simpl; [apply frame_ret |].
  apply frame_bind; [apply H | intros _; exact IH].
Qed.

End Frames.

Create HintDb frames.

#[local] Hint Resolve frame_ret frame_raise frame_self frame_attr frame_lift
  frame_bind frame_for_each : frames.

Section TargetSync.
Import Torch.

Lemma frame_state_dict (m : list (string * nat)) : frame but_dicts (state_dict m).
Proof. intros ag. reflexivity. Qed.

Lemma frame_dict_keys (d : nat) : frame but_dicts (dict_keys d).
Proof. unfold dict_keys. auto 10 with frames. Qed.

Lemma frame_dict_getitem (d : nat) (key : string) :
  frame but_dicts (dict_getitem d key).
Proof. unfold dict_getitem. auto 10 with frames. Qed.

Lemma frame_dict_setitem (d : nat) (key : string) (v : nat) :
  frame but_dicts (dict_setitem d key v).
Proof.
  unfold dict_setitem. apply frame_bind; [apply frame_self |]. intros ag.
  apply frame_bind; [apply frame_lift |]. intros e.
  apply frame_modify. reflexivity.
Qed.

(** Synchronising the target network writes to dictionaries only. *)
Lemma frame_update_target_net :
  frame but_dicts DeepQLearningAgent.update_target_net /\
  frame but_dicts AdvantageActorCriticAgent.update_target_net.
Proof.
  split; intros ag0; unfold DeepQLearningAgent.update_target_net,
    AdvantageActorCriticAgent.update_target_net;
    (apply frame_bind; [apply frame_self |]); intros ag;
    (destruct (_use_target_net ag); [| apply frame_ret]);
    (apply frame_bind; [apply frame_attr |]); intros m;
    (apply frame_bind; [apply frame_state_dict |]); intros md;
    (apply frame_bind; [apply frame_attr |]); intros t;
    (apply frame_bind; [apply frame_state_dict |]); intros td;
    (apply frame_bind; [apply frame_dict_keys |]); intros keys;
    apply frame_for_each; intros key;
    (apply frame_bind; [apply frame_dict_getitem |]); intros v;
    apply frame_dict_setitem.
Qed.

(** After [update_target_net] every stored tensor, and with it every
    parameter of the target network, is what it was before the call. *)
Lemma update_target_net_keeps_tensors (ag : agent) :
  let ag1 := (DeepQLearningAgent.update_target_net ag).2 in
  let ag2 := (AdvantageActorCriticAgent.update_target_net ag).2 in
  (tensors ag1 = tensors ag /\ _target_net ag1 = _target_net ag /\
   _model ag1 = _model ag) /\
  (tensors ag2 = tensors ag /\ _target_net ag2 = _target_net ag /\
   _model ag2 = _model ag).
Proof.
  destruct frame_update_target_net as [H1 H2].
  specialize (H1 ag). specialize (H2 ag). unfold but_dicts in *.
  split.
  - change (tensors (set_dicts ∅ (DeepQLearningAgent.update_target_net ag).2)
            = tensors (set_dicts ∅ ag) /\
            _target_net (set_dicts ∅ (DeepQLearningAgent.update_target_net ag).2)
            = _target_net (set_dicts ∅ ag) /\
            _model (set_dicts ∅ (DeepQLearningAgent.update_target_net ag).2)
            = _model (set_dicts ∅ ag)).
    now rewrite H1.
  - change (tensors (set_dicts ∅ (AdvantageActorCriticAgent.update_target_net ag).2)
            = tensors (set_dicts ∅ ag) /\
            _target_net (set_dicts ∅ (AdvantageActorCriticAgent.update_target_net ag).2)
            = _target_net (set_dicts ∅ ag) /\
            _model (set_dicts ∅ (AdvantageActorCriticAgent.update_target_net ag).2)
            = _model (set_dicts ∅ ag)).
    now rewrite H2.
Qed.

(** C1.  [update_target_net] changes no stored tensor of any agent, so
    the parameters of the target network after the call are those before
    it.  For agents built with the target-network flag on, the live
    network initialised with 1 and the target network with 2, the call
    returns and the parameters of the target network are still 2 while
    those of the live network are 1, for the Q-learning agent and for the
    actor-critic agent. *)
Theorem update_target_net_leaves_target_stale :
  (forall ag : agent,
     same_parameters ag (DeepQLearningAgent.update_target_net ag).2 /\
     same_parameters ag (AdvantageActorCriticAgent.update_target_net ag).2) /\
  let synced := (DeepQLearningAgent.update_target_net AgentExamples.dqn) in
  let synced' := (AdvantageActorCriticAgent.update_target_net AgentExamples.a2c) in
  (synced.1 = Ok tt /\
   parameter_values synced.2 <$> _target_net synced.2
     = Some (replicate 10 (Some [2%Q])) /\
   parameter_values synced.2 <$> _model synced.2
     = Some (replicate 10 (Some [1%Q]))) /\
  (synced'.1 = Ok tt /\
   parameter_values synced'.2 <$> _target_net synced'.2
     = Some (replicate 10 (Some [2%Q])) /\
   parameter_values synced'.2 <$> _model synced'.2
     = Some (replicate 10 (Some [1%Q]))).
Proof.
  split.
  - intros ag.
    destruct (update_target_net_keeps_tensors ag)
      as [(T1 & N1 & M1) (T2 & N2 & M2)].
    unfold same_parameters. auto 10.
  - vm_compute. repeat split.
Qed.

End TargetSync.

(** ** The optimiser of the Q-learning trainer *)

Section Trainer.
Import XNum Torch DeepQLearningAgent.

Context {boards buffer : Type}.
Variable get_current_size : buffer -> nat.
Variable draw : buffer -> nat -> batch boards.
Variable network : list (list Q) -> boards -> option (list (list xnum)).
Variable gradient : list (list Q) -> boards -> list (list xnum) -> list (list Q).
Variable rmsprop : list Q -> list Q -> option (list Q) -> list Q * list Q.

Lemma set_grads_same (ag : agent) : set_grads (grads ag) ag = ag.
Proof. now destruct ag. Qed.

Lemma self_bind {B : Type} (f : agent -> T B) (ag : agent) :
  (self ≫= f) ag = f ag ag.
Proof. reflexivity. Qed.

Lemma lift_bind_Some {A B : Type} (e : exn) (x : A) (f : A -> T B) (ag : agent) :
  (lift e (Some x) ≫= f) ag = f x ag.
Proof. reflexivity. Qed.

Lemma lift_bind_None {A B : Type} (e : exn) (f : A -> T B) (ag : agent) :
  (lift e None ≫= f) ag = (Raise e, ag).
Proof. reflexivity. Qed.

Lemma bind_Ok {A B : Type} (m : T A) (f : A -> T B) (ag ag' : agent) (x : A) :
  m ag = (Ok x, ag') -> (m ≫= f) ag = f x ag'.
Proof. intros E. unfold mbind, T_bind. now rewrite E. Qed.

Lemma bind_Raise {A B : Type} (m : T A) (f : A -> T B) (ag ag' : agent) (e : exn) :
  m ag = (Raise e, ag') -> (m ≫= f) ag = (Raise e, ag').
Proof. intros E. unfold mbind, T_bind. now rewrite E. Qed.

Lemma modify_bind {B : Type} (g : agent -> agent) (f : unit -> T B) (ag : agent) :
  (modify g ≫= f) ag = f tt (g ag).
Proof. reflexivity. Qed.

(** Resetting gradients that are [None] already changes nothing. *)
Lemma zero_grad_noop (opt : list nat) (ag : agent) :
  (forall l, l ∈ opt -> grads ag !! l = None) ->
  zero_grad opt ag = (Ok tt, ag).
Proof.
  unfold zero_grad. induction opt as [|l opt IH]; intros H; [reflexivity |].
  simpl. unfold mbind, T_bind, self, modify. simpl.
  rewrite delete_id by (apply H; left).
  rewrite set_grads_same. apply IH. intros l' Hl'. apply H. now right.
Qed.

(** A step over parameters without gradient updates nothing. *)
Lemma step_noop (opt : list nat) (ag : agent) :
  (forall l, l ∈ opt -> grads ag !! l = None) ->
  step rmsprop opt ag = (Ok tt, ag).
Proof.
  unfold step. induction opt as [|l opt IH]; intros H; [reflexivity |].
  simpl. unfold mbind, T_bind, self. simpl.
  rewrite (H l) by left. simpl. apply IH. intros l' Hl'. apply H. now right.
Qed.

Lemma accumulate_frame (lgs : list (nat * list Q)) :
  frame but_grads
    (for_each lgs (fun lg =>
       ag ← self;
       let g := match grads ag !! lg.1 with
                | Some old => zip_with Qplus old lg.2
                | None => lg.2
                end in
       modify (set_grads (<[lg.1 := g]> (grads ag))))).
Proof.
  apply frame_for_each. intros lg. apply frame_bind; [apply frame_self |].
  intros ag. apply frame_modify. reflexivity.
Qed.

Lemma accumulate_outside (lgs : list (nat * list Q)) (l : nat) :
  l ∉ lgs.*1 -> forall ag,
  grads (for_each lgs (fun lg =>
           ag ← self;
           let g := match grads ag !! lg.1 with
                    | Some old => zip_with Qplus old lg.2
                    | None => lg.2
                    end in
           modify (set_grads (<[lg.1 := g]> (grads ag)))) ag).2 !! l
  = grads ag !! l.
Proof.
  induction lgs as [|lg lgs IH]; intros Hl ag; [reflexivity |].
  simpl in *. apply not_elem_of_cons in Hl as [Hne Hl].
  unfold mbind, T_bind, self, modify. simpl.
  rewrite IH by assumption. simpl. now apply lookup_insert_ne.
Qed.

(** [backward] writes gradients only, and only those of the parameters
    of the model the loss was computed with. *)
Lemma backward_frame (model : list (string * nat)) (board : boards)
    (target : list (list xnum)) (ag : agent) :
  let ag1 := (backward gradient model board target ag).2 in
  but_grads ag1 = but_grads ag /\
  forall l, l ∉ model.*2 -> grads ag1 !! l = grads ag !! l.
Proof.
  unfold backward. rewrite self_bind.
  destruct (mapM _ model) as [values|];
    [rewrite lift_bind_Some | rewrite lift_bind_None; now split].
  split.
  - apply accumulate_frame.
  - intros l Hl. apply accumulate_outside.
    intros Hin. apply Hl.
    apply list_elem_of_fmap in Hin as ([l' g] & -> & Hin).
    apply elem_of_zip_l in Hin. exact Hin.
Qed.

Lemma target_bound_grads (ag ag1 : agent) (m : list (string * nat)) :
  target_bound ag -> _model ag = Some m ->
  but_grads ag1 = but_grads ag ->
  (forall l, l ∉ m.*2 -> grads ag1 !! l = grads ag !! l) ->
  same_parameters ag ag1 /\ target_bound ag1.
Proof.
  intros (m' & t & Hf & Hm & Ht & Ho & Hg & Hd) Hm' Hb Hout.
  assert (m' = m) as -> by congruence.
  pose proof (f_equal _use_target_net Hb) as E1.
  pose proof (f_equal _model Hb) as E2.
  pose proof (f_equal _target_net Hb) as E3.
  pose proof (f_equal optimizer Hb) as E4.
  split; [exact (conj (f_equal tensors Hb) (conj E2 E3)) |].
  exists m, t.
  simpl in *.
  split; [congruence |]. split; [congruence |]. split; [congruence |].
  split; [congruence |]. split; [| exact Hd].
  intros l Hl. rewrite Hout; [now apply Hg |].
  intros Hin. exact (Hd l Hin Hl).
Qed.

(** A step of the monad whose first method does not change the object. *)
Lemma bind_readonly {A B : Type} (m : T A) (f : A -> T B) (ag : agent)
    (P : result B * agent -> Prop) :
  frame (fun x => x) m ->
  (forall e, P (Raise e, ag)) ->
  (forall x, m ag = (Ok x, ag) -> P (f x ag)) ->
  P ((m ≫= f) ag).
Proof.
  intros Hm Hr Hf. unfold mbind, T_bind. specialize (Hm ag).
  destruct (m ag) as [[x|e] ag1] eqn:E; simpl in Hm; subst ag1; auto.
Qed.

Lemma frame_sample (b : buffer) (n : nat) :
  frame (fun x => x) (sample get_current_size draw b n).
Proof. unfold sample. destruct (decide _); auto with frames. Qed.

Lemma frame_model_call (model : list (string * nat)) (board : boards) :
  frame (fun x => x) (model_call network model board).
Proof. unfold model_call. auto 10 with frames. Qed.

(** With [self.optimizer] bound to the target network, a training call
    changes no stored tensor, whether it returns or raises: neither the
    parameters of the live network nor those of the target network. *)
Lemma train_agent_updates_nothing (_buffer : buffer) (batch_size : nat)
    (reward_clip : bool) (ag : agent) :
  target_bound ag ->
  let trained :=
    train_agent get_current_size draw network gradient rmsprop
      _buffer batch_size reward_clip ag in
  same_parameters ag trained.2 /\ target_bound trained.2.
Proof.
  intros Hb. pose proof Hb as (m & t & Hf & Hm & Ht & Ho & Hg & Hd).
  cbn zeta. unfold train_agent.
  assert (Hraise : forall e,
             same_parameters ag ((Raise e : result xnum, ag)).2 /\
             target_bound ((Raise e : result xnum, ag)).2)
    by (intros e; split; [repeat split | exact Hb]).
  apply bind_readonly; [apply frame_attr | exact Hraise |].
  intros model Emodel. unfold attr in Emodel. rewrite Hm in Emodel.
  injection Emodel as <-.
  apply bind_readonly; [apply frame_sample | exact Hraise |]. intros b _.
  apply bind_readonly; [apply frame_self | exact Hraise |]. intros ag' Eag.
  injection Eag as <-.
  apply bind_readonly;
    [destruct (_use_target_net ag); apply frame_attr | exact Hraise |].
  intros current _.
  apply bind_readonly; [apply frame_model_call | exact Hraise |]. intros nmo _.
  apply bind_readonly; [apply frame_lift | exact Hraise |]. intros dr _.
  apply bind_readonly; [apply frame_model_call | exact Hraise |]. intros tg0 _.
  apply bind_readonly; [apply frame_lift | exact Hraise |]. intros tg _.
  apply bind_readonly; [apply frame_model_call | exact Hraise |]. intros outs _.
  apply bind_readonly; [apply frame_lift | exact Hraise |]. intros loss _.
  apply bind_readonly; [apply frame_attr | exact Hraise |].
  intros opt Eopt. unfold attr in Eopt. rewrite Ho in Eopt. injection Eopt as <-.
  rewrite (bind_Ok _ _ _ _ _ (zero_grad_noop _ ag Hg)).
  pose proof (backward_frame m (s b) tg ag) as [Hframe Hout].
  destruct (backward gradient m (s b) tg ag) as [[u|e] ag1] eqn:Eb;
    simpl in Hframe, Hout.
  - rewrite (bind_Ok _ _ _ _ _ Eb).
    assert (Hg1 : forall l, l ∈ t.*2 -> grads ag1 !! l = None).
    { intros l Hl. rewrite Hout; [now apply Hg |].
      intros Hin. exact (Hd l Hin Hl). }
    rewrite (bind_Ok _ _ _ _ _ (step_noop _ ag1 Hg1)).
    exact (target_bound_grads ag ag1 m Hb Hm Hframe Hout).
  - rewrite (bind_Raise _ _ _ _ _ Eb).
    exact (target_bound_grads ag ag1 m Hb Hm Hframe Hout).
Qed.

End Trainer.

(** ** The state the constructor leaves *)

Section Construction.
Import XNum Torch DeepQLearningAgent.

(** A new module takes cells that were not in use, and changes nothing
    but the tensor storage. *)
Lemma new_module_spec (names : list string) :
  forall (init : list (list Q)) (ag : agent),
  exists (m : list (string * nat)) (ag' : agent),
    new_module names init ag = (Ok m, ag') /\
    but_tensors ag' = but_tensors ag /\
    (dom (tensors ag) ⊆ dom (tensors ag')) /\
    forall l, l ∈ m.*2 -> (l ∉ dom (tensors ag)) /\ (l ∈ dom (tensors ag')).
Proof.
  induction names as [|name names IH]; intros init ag.
  - exists [], ag. simpl. split; [reflexivity |]. split; [reflexivity |].
    split; [reflexivity |]. intros l Hl. now apply elem_of_nil in Hl.
  - simpl. rewrite self_bind.
    set (l0 := fresh (dom (tensors ag))).
    set (ag1 := set_tensors (<[l0 := default [] (head init)]> (tensors ag)) ag).
    destruct (IH (tail init) ag1) as (rest & ag' & E & Hb & Hdom & Hl).
    exists ((name, l0) :: rest), ag'.
    assert (Hfresh : l0 ∉ dom (tensors ag)) by apply is_fresh.
    assert (Hdom1 : dom (tensors ag1) = {[l0]} ∪ dom (tensors ag))
      by (unfold ag1; simpl; apply dom_insert_L).
    split; [| split; [| split]].
    + rewrite modify_bind. fold l0. fold ag1.
      now rewrite (bind_Ok _ _ _ _ _ E).
    + rewrite Hb. reflexivity.
    + rewrite Hdom1 in Hdom. apply union_subseteq in Hdom. tauto.
    + intros l Hin. simpl in Hin. apply elem_of_cons in Hin as [-> | Hin].
      * split; [exact Hfresh |]. apply Hdom. rewrite Hdom1.
        apply elem_of_union_l, elem_of_singleton. reflexivity.
      * destruct (Hl l Hin) as [Hn Hi]. split; [| exact Hi].
        intros Hc. apply Hn. rewrite Hdom1. now apply elem_of_union_r.
Qed.

Lemma agent_model_spec (init : list (list Q)) (ag : agent) :
  exists (m : list (string * nat)) (ag' : agent),
    _agent_model init ag = (Ok m, ag') /\
    optimizer ag' = Some m.*2 /\
    _use_target_net ag' = _use_target_net ag /\
    _model ag' = _model ag /\ _target_net ag' = _target_net ag /\
    grads ag' = grads ag /\
    (dom (tensors ag) ⊆ dom (tensors ag')) /\
    forall l, l ∈ m.*2 -> (l ∉ dom (tensors ag)) /\ (l ∈ dom (tensors ag')).
Proof.
  destruct (new_module_spec DeepQCNN_names init ag) as (m & ag1 & E & Hb & Hd & Hl).
  exists m, (set_optimizer (Some m.*2) ∅ ag1). unfold _agent_model.
  split; [now rewrite (bind_Ok _ _ _ _ _ E) |].
  pose proof (f_equal _use_target_net Hb). pose proof (f_equal _model Hb).
  pose proof (f_equal _target_net Hb). pose proof (f_equal grads Hb).
  simpl in *. auto 10.
Qed.

(** Every agent constructed with the target-network flag on has its
    optimiser bound to the target network. *)
Lemma init_target_bound (gamma : Q) (init_model init_target : list (list Q)) :
  target_bound (__init__ true gamma init_model init_target).2.
Proof.
  unfold __init__, reset_models.
  destruct (agent_model_spec init_model (blank true gamma))
    as (m & ag1 & E1 & _ & Hf1 & _ & _ & Hg1 & _ & Hl1).
  rewrite (bind_Ok _ _ _ _ _ E1).
  rewrite modify_bind.
  rewrite self_bind.
  change (_use_target_net (set_model (Some m) ag1)) with (_use_target_net ag1).
  rewrite Hf1. change (_use_target_net (blank true gamma)) with true. cbn iota.
  destruct (agent_model_spec init_target (set_model (Some m) ag1))
    as (t & ag2 & E2 & Ho2 & Hf2 & Hm2 & _ & Hg2 & _ & Hl2).
  rewrite (bind_Ok _ _ _ _ _ E2).
  rewrite modify_bind.
  pose proof (proj1 frame_update_target_net (set_target_net (Some t) ag2)) as Hfr.
  set (ag3 := (update_target_net (set_target_net (Some t) ag2)).2) in *.
  unfold but_dicts in Hfr.
  pose proof (f_equal _use_target_net Hfr) as F1.
  pose proof (f_equal _model Hfr) as F2.
  pose proof (f_equal _target_net Hfr) as F3.
  pose proof (f_equal optimizer Hfr) as F4.
  pose proof (f_equal grads Hfr) as F5.
  simpl in *.
  exists m, t. split; [congruence |]. split; [congruence |].
  split; [congruence |]. split; [congruence |]. split.
  - intros l _. rewrite F5, Hg2. simpl. rewrite Hg1. apply lookup_empty.
  - intros l Hm Ht. destruct (Hl1 l Hm) as [_ Hin]. destruct (Hl2 l Ht) as [Hnot _].
    simpl in Hnot. contradiction.
Qed.

End Construction.

Section TrainerBinding.
Import XNum Torch DeepQLearningAgent.

(** C2.  Whatever the replay buffer, the network, its gradients and the
    update rule, a training call on an agent constructed with a target
    network changes no stored tensor: the parameters of the live network
    after the call are those before it (as are those of the target
    network), and the optimiser is still bound to the target network
    for the next call. *)
Theorem train_agent_leaves_live_model
    (boards buffer : Type) (get_current_size : buffer -> nat)
    (draw : buffer -> nat -> batch boards)
    (network : list (list Q) -> boards -> option (list (list xnum)))
    (gradient : list (list Q) -> boards -> list (list xnum) -> list (list Q))
    (rmsprop : list Q -> list Q -> option (list Q) -> list Q * list Q)
    (gamma : Q) (init_model init_target : list (list Q))
    (_buffer : buffer) (batch_size : nat) (reward_clip : bool) :
  let ag := (__init__ true gamma init_model init_target).2 in
  let trained :=
    train_agent get_current_size draw network gradient rmsprop
      _buffer batch_size reward_clip ag in
  same_parameters ag trained.2 /\
  parameter_values trained.2 <$> _model trained.2
    = parameter_values ag <$> _model ag /\
  parameter_values trained.2 <$> _target_net trained.2
    = parameter_values ag <$> _target_net ag /\
  target_bound trained.2.
Proof.
  intros ag trained.
  pose proof (init_target_bound gamma init_model init_target) as Hb.
  fold ag in Hb.
  destruct (train_agent_updates_nothing get_current_size draw network gradient
              rmsprop _buffer batch_size reward_clip ag Hb) as [Hs Hb'].
  fold trained in Hs, Hb'.
  split; [exact Hs |]. destruct Hs as (Ht & Hm & Htn).
  unfold parameter_values. rewrite Ht, Hm, Htn. auto.
Qed.

(** On a sample of two stored transitions, with a gradient of 1 for
    every parameter: the call returns the loss, the gradient of the first
    parameter of the live network has been computed, and that parameter
    still holds its initial value. *)
Example train_agent_runs :
  let trained :=
    train_agent AgentExamples.toy_size AgentExamples.toy_draw
      AgentExamples.toy_network AgentExamples.toy_gradient
      AgentExamples.toy_rmsprop AgentExamples.toy_buffer 2 false
      AgentExamples.dqn in
  (exists loss, trained.1 = Ok (Fin loss)) /\
  grads trained.2 !! 0%nat = Some [1%Q] /\
  head <$> (parameter_values trained.2 <$> _model trained.2)
    = Some (Some (Some [1%Q])).
Proof. vm_compute. split; [eexists; reflexivity | split; reflexivity]. Qed.

(** Without target network the optimiser is bound to the live network,
    and the same call does update it: its first parameter goes from 1 to
    0. *)
Example train_agent_without_target :
  let trained :=
    train_agent AgentExamples.toy_size AgentExamples.toy_draw
      AgentExamples.toy_network AgentExamples.toy_gradient
      AgentExamples.toy_rmsprop AgentExamples.toy_buffer 2 false
      AgentExamples.dqn_plain in
  (exists loss, trained.1 = Ok (Fin loss)) /\
  head <$> (parameter_values AgentExamples.dqn_plain
              <$> _model AgentExamples.dqn_plain) = Some (Some (Some [1%Q])) /\
  head <$> (parameter_values trained.2 <$> _model trained.2)
    = Some (Some (Some [0%Q])).
Proof. vm_compute. split; [eexists; reflexivity | split; reflexivity]. Qed.

End TrainerBinding.

(** ** Loading saved models *)

Section Loading.
Import Torch.

Variable fs : gmap string (list (string * list Q)).

Lemma frame_torch_load (path : string) : frame but_tensors (torch_load fs path).
Proof. apply frame_lift. Qed.

Lemma frame_load_param (sd : list (string * list Q)) (p : string * nat) :
  frame but_tensors (load_param sd p).
Proof.
  unfold load_param. apply frame_bind; [apply frame_self |]. intros ag.
  destruct (assoc_get p.1 sd); [| apply frame_ret].
  destruct (tensors ag !! p.2); [| apply frame_ret].
  destruct (decide _); [| apply frame_ret].
  apply frame_bind; [now apply frame_modify | intros _; apply frame_ret].
Qed.

Lemma frame_load_state_dict (m : list (string * nat)) (sd : list (string * list Q)) :
  frame but_tensors (load_state_dict m sd).
Proof.
  unfold load_state_dict. apply frame_bind.
  - induction m as [|p m IH]; simpl; [apply frame_ret |].
    apply frame_bind; [apply frame_load_param |]. intros ok.
    apply frame_bind; [exact IH | intros oks; apply frame_ret].
  - intros ok. destruct (_ && _); [apply frame_ret | apply frame_raise].
Qed.

Lemma raises_bind_l {A B : Type} (m : T A) (f : A -> T B) (ag : agent) :
  raises m ag -> raises (m ≫= f) ag.
Proof.
  intros (e & ag' & E). exists e, ag'. unfold mbind, T_bind. now rewrite E.
Qed.

(** One more statement before the one that raises: it either raises
    itself or leaves the flag of the agent as it is. *)
Lemma raises_step {A B : Type} (m : T A) (f : A -> T B) (ag : agent) :
  frame but_tensors m ->
  (forall x ag', _use_target_net ag' = _use_target_net ag -> raises (f x) ag') ->
  raises (m ≫= f) ag.
Proof.
  intros Hm Hf. unfold raises, mbind, T_bind. specialize (Hm ag).
  destruct (m ag) as [[x|e] ag']; simpl in Hm; [| eauto].
  apply Hf. exact (f_equal _use_target_net Hm).
Qed.

Lemma raises_torch_load {B : Type} (path : string)
    (f : list (string * list Q) -> T B) (ag : agent) :
  fs !! path = None -> raises (torch_load fs path ≫= f) ag.
Proof.
  intros H. exists FileNotFoundError, ag. unfold torch_load. now rewrite H.
Qed.

Lemma raises_self {B : Type} (f : agent -> T B) (ag : agent) :
  raises (f ag) ag -> raises (self ≫= f) ag.
Proof. intros H. exact H. Qed.


(** When the file of the live network, which is read first, is absent,
    [load_model] raises and leaves the agent as it was, for both agents.
    When any other expected file is absent, [load_model] raises as
    well. *)
Lemma load_model_missing_file (file_path : string) (iteration : option Z)
    (ag : agent) :
  let path := model_path file_path (default 0 iteration) in
  (fs !! path ".pt"%string = None ->
   DeepQLearningAgent.load_model fs file_path iteration ag
     = (Raise (first_error ag), ag) /\
   AdvantageActorCriticAgent.load_model fs file_path iteration ag
     = (Raise (first_error ag), ag)) /\
  (_use_target_net ag = true -> fs !! path "_target.pt"%string = None ->
   raises (DeepQLearningAgent.load_model fs file_path iteration) ag /\
   raises (AdvantageActorCriticAgent.load_model fs file_path iteration) ag) /\
  (fs !! path "_full.pt"%string = None ->
   raises (AdvantageActorCriticAgent.load_model fs file_path iteration) ag) /\
  (_use_target_net ag = true -> fs !! path "_values.pt"%string = None ->
   raises (AdvantageActorCriticAgent.load_model fs file_path iteration) ag).
Proof.
  cbn zeta. split; [| split; [| split]].
  - intros Hmiss.
    unfold DeepQLearningAgent.load_model, AdvantageActorCriticAgent.load_model,
      first_error, attr, torch_load, mbind, T_bind.
    cbn zeta. destruct (_model ag); [| now split]. rewrite Hmiss. now split.
  - intros Hflag Hmiss. split.
    + unfold DeepQLearningAgent.load_model. cbn zeta.
      apply raises_step; [apply frame_attr |]. intros model ag1 H1.
      apply raises_step; [apply frame_torch_load |]. intros sd ag2 H2.
      apply raises_step; [apply frame_load_state_dict |]. intros u ag3 H3.
      apply raises_self. rewrite H3, H2, H1, Hflag.
      apply raises_step; [apply frame_attr |]. intros t ag4 H4.
      now apply raises_torch_load.
    + unfold AdvantageActorCriticAgent.load_model. cbn zeta.
      apply raises_step; [apply frame_attr |]. intros model ag1 H1.
      apply raises_step; [apply frame_torch_load |]. intros sd ag2 H2.
      apply raises_step; [apply frame_load_state_dict |]. intros u ag3 H3.
      apply raises_step; [apply frame_attr |]. intros full ag4 H4.
      apply raises_step; [apply frame_torch_load |]. intros sd' ag5 H5.
      apply raises_step; [apply frame_load_state_dict |]. intros u' ag6 H6.
      apply raises_self. rewrite H6, H5, H4, H3, H2, H1, Hflag.
      apply raises_step; [apply frame_attr |]. intros v ag7 H7.
      apply raises_step; [apply frame_torch_load |]. intros sd'' ag8 H8.
      apply raises_step; [apply frame_load_state_dict |]. intros u'' ag9 H9.
      apply raises_step; [apply frame_attr |]. intros t ag10 H10.
      now apply raises_torch_load.
  - intros Hmiss. unfold AdvantageActorCriticAgent.load_model. cbn zeta.
    apply raises_step; [apply frame_attr |]. intros model ag1 H1.
    apply raises_step; [apply frame_torch_load |]. intros sd ag2 H2.
    apply raises_step; [apply frame_load_state_dict |]. intros u ag3 H3.
    apply raises_step; [apply frame_attr |]. intros full ag4 H4.
    now apply raises_torch_load.
  - intros Hflag Hmiss. unfold AdvantageActorCriticAgent.load_model. cbn zeta.
    apply raises_step; [apply frame_attr |]. intros model ag1 H1.
    apply raises_step; [apply frame_torch_load |]. intros sd ag2 H2.
    apply raises_step; [apply frame_load_state_dict |]. intros u ag3 H3.
    apply raises_step; [apply frame_attr |]. intros full ag4 H4.
    apply raises_step; [apply frame_torch_load |]. intros sd' ag5 H5.
    apply raises_step; [apply frame_load_state_dict |]. intros u' ag6 H6.
    apply raises_self. rewrite H6, H5, H4, H3, H2, H1, Hflag.
    apply raises_step; [apply frame_attr |]. intros v ag7 H7.
    now apply raises_torch_load.
Qed.

End Loading.

Section LoadingExamples.
Import Torch.

(** The directory holds the file of the live network and not that of the
    target network.  [load_model] raises [FileNotFoundError], and the
    live network, whose parameters were 1, is left with the parameters 5
    of the file. *)
Example load_model_not_atomic :
  let loaded :=
    DeepQLearningAgent.load_model AgentExamples.models_dir "models" None
      AgentExamples.dqn in
  AgentExamples.models_dir !! "models/model_0000_target.pt"%string = None /\
  loaded.1 = Raise FileNotFoundError /\
  parameter_values AgentExamples.dqn <$> _model AgentExamples.dqn
    = Some (replicate 10 (Some [1%Q])) /\
  parameter_values loaded.2 <$> _model loaded.2
    = Some (replicate 10 (Some [5%Q])).
Proof. vm_compute. repeat split. Qed.

End LoadingExamples.

(** ** Reward normalisation of the actor-critic trainer *)

Section RewardNormalisation.
Import Reals ActorCriticRewards.
Local Open Scope R_scope.

Lemma sum_shift (c : R) (l : list R) :
  sum ((fun x => x - c) <$> l) = sum l - INR (length l) * c.
Proof.
  induction l as [|x l IH].
  - simpl. lra.
  - change (x - c + sum ((fun x => x - c) <$> l)
            = x + sum l - INR (S (length l)) * c).
    rewrite IH, S_INR. lra.
Qed.

Lemma sum_scale (k : R) (l : list R) :
  sum ((fun x => x * k) <$> l) = sum l * k.
Proof.
  induction l as [|x l IH].
  - simpl. lra.
  - change (x * k + sum ((fun x => x * k) <$> l) = (x + sum l) * k).
    rewrite IH. lra.
Qed.

Lemma sum_nonneg (l : list R) : Forall (fun x => 0 <= x) l -> 0 <= sum l.
Proof.
  induction 1 as [|x l Hx _ IH]; simpl; [lra |]. fold (sum l). lra.
Qed.

Lemma sum_zero (l : list R) : Forall (fun x => x = 0) l -> sum l = 0.
Proof.
  induction 1 as [|x l Hx _ IH]; simpl; [reflexivity |]. fold (sum l). lra.
Qed.

Lemma sum_const (c : R) (l : list R) :
  Forall (fun x => x = c) l -> sum l = INR (length l) * c.
Proof.
  induction 1 as [|x l Hx _ IH].
  - simpl. lra.
  - change (x + sum l = INR (S (length l)) * c). rewrite IH, S_INR, Hx. lra.
Qed.

Lemma INR_length_pos (l : list R) : l <> [] -> 0 < INR (length l).
Proof.
  destruct l as [|x l]; [easy |]. intros _. apply lt_0_INR. simpl. lia.
Qed.

Lemma var_nil : var [] = 0.
Proof. unfold var, mean, sum, Rdiv. simpl. apply Rmult_0_l. Qed.

Lemma var_nonneg (l : list R) : 0 <= var l.
Proof.
  destruct l as [|x l]; [rewrite var_nil; lra |].
  unfold var, mean at 1. rewrite length_fmap.
  apply Rmult_le_pos.
  - apply sum_nonneg, Forall_fmap, Forall_forall. intros y _. apply Rle_0_sqr.
  - apply Rlt_le, Rinv_0_lt_compat, INR_length_pos. easy.
Qed.

(** Equal rewards have no variance. *)
Lemma var_const (c : R) (l : list R) : Forall (fun x => x = c) l -> var l = 0.
Proof.
  intros H. destruct l as [|x l]; [apply var_nil |].
  assert (Hn : 0 < INR (length (x :: l))) by now apply INR_length_pos.
  assert (Hm : mean (x :: l) = c).
  { unfold mean. rewrite (sum_const c) by assumption. field. lra. }
  unfold var. rewrite Hm. unfold mean at 1. rewrite sum_zero.
  - unfold Rdiv. apply Rmult_0_l.
  - apply Forall_fmap. eapply Forall_impl; [exact H |].
    intros y ->. simpl. unfold Rsqr. lra.
Qed.

Lemma filter_all {A : Type} (P : A -> Prop) `{!forall x, Decision (P x)}
    (l : list A) :
  length (filter P l) = length l -> Forall P l.
Proof.
  induction l as [|x l IH]; [constructor |].
  rewrite filter_cons. destruct (decide (P x)) as [Hp | Hp]; simpl.
  - intros [= Hlen]. constructor; auto.
  - intros Hlen. pose proof (length_filter P l). lia.
Qed.

Lemma all_filter {A : Type} (P : A -> Prop) `{!forall x, Decision (P x)}
    (l : list A) :
  Forall P l -> length (filter P l) = length l.
Proof.
  induction 1 as [|x l Hx _ IH]; [reflexivity |].
  rewrite filter_cons, decide_True by assumption. simpl. now rewrite IH.
Qed.

(** The normalised rewards have mean 0 and variance 1. *)
Lemma standardised (r : list R) :
  var r <> 0 ->
  let r' := (fun x => (x - mean r) / std r) <$> r in
  mean r' = 0 /\ var r' = 1.
Proof.
  intros Hv. cbn zeta.
  assert (Hne : r <> []) by (intros ->; apply Hv, var_nil).
  pose proof (INR_length_pos r Hne) as Hn.
  pose proof (var_nonneg r) as Hv0.
  assert (Hs : 0 < std r) by (apply sqrt_lt_R0; lra).
  assert (Hss : std r * std r = var r) by (apply sqrt_sqrt; lra).
  assert (Hmean : mean ((fun x => (x - mean r) / std r) <$> r) = 0).
  { unfold mean at 1. rewrite length_fmap.
    replace ((fun x => (x - mean r) / std r) <$> r)
      with ((fun y => y * / std r) <$> ((fun x => x - mean r) <$> r))
      by (rewrite <- list_fmap_compose; reflexivity).
    rewrite sum_scale, sum_shift. unfold mean. field. lra. }
  split; [exact Hmean |].
  unfold var. rewrite Hmean. unfold mean at 1. rewrite !length_fmap.
  rewrite <- list_fmap_compose.
  replace ((fun x => Rsqr (x - 0)) ∘ (fun x => (x - mean r) / std r) <$> r)
    with ((fun y => y * / var r) <$> ((fun x => Rsqr (x - mean r)) <$> r)).
  - rewrite sum_scale.
    assert (Hvq : var r = sum ((fun x => Rsqr (x - mean r)) <$> r) / INR (length r))
      by (unfold var; unfold mean at 1; now rewrite length_fmap).
    set (q := sum ((fun x => Rsqr (x - mean r)) <$> r)) in *.
    rewrite Hvq in Hv |- *. field. split; [lra |].
    intros Hq. apply Hv. rewrite Hq. unfold Rdiv. apply Rmult_0_l.
  - rewrite <- list_fmap_compose. apply list_fmap_ext. intros i x _. simpl.
    rewrite <- Hss. unfold Rsqr. field. lra.
Qed.

(** A difference that is zero is the float zero. *)
Lemma round_zero (fmt : Float.format) (q : Q) :
  (q == 0)%Q -> Float.round fmt q = XNum.Fin 0.
Proof.
  intros Hq. unfold Float.round, Float.round_canonical.
  replace (Qeq_bool (Qred q) 0) with true; [reflexivity |].
  symmetry. apply Qeq_bool_iff. now rewrite Qred_correct.
Qed.

Lemma fsub_self (fmt : Float.format) (q : Q) :
  Float.fsub fmt (XNum.Fin q) (XNum.Fin q) = XNum.Fin 0.
Proof.
  unfold Float.fsub. simpl. apply round_zero.
  unfold Qeq, Qplus, Qopp. simpl. lia.
Qed.

(** Without the guard, equal rewards are divided by a standard deviation
    of zero. *)
Example unguarded_division_by_zero :
  let r := XNum.Fin <$> [5; 5; 5]%Q in
  Rewards.std64 r = XNum.Fin 0 /\
  (fun x => Float.fdiv Float.binary64
              (Float.fsub Float.binary64 x (Rewards.mean64 r)) (Rewards.std64 r))
    <$> r = [XNum.NaN; XNum.NaN; XNum.NaN].
Proof. vm_compute. split; reflexivity. Qed.

(** Rewards that differ can still have a standard deviation of zero in
    float64, when the squared deviations underflow; the guard does not
    apply and the rewards are divided by zero. *)
Example normalize_rewards_underflow :
  Rewards.normalize_rewards Rewards.float64 true
    [XNum.Fin 0; XNum.Fin (Float.pow2 (-600))]
  = Some [XNum.NInf; XNum.PInf].
Proof. vm_compute. reflexivity. Qed.

(** C8 (as amended).  With [normalize_rewards] on, in the float64
    arithmetic of the code: a batch (with at least one transition) whose
    rewards are all the same finite value is mapped by the guard to
    rewards that are all 0, each being the reward minus itself, and
    nothing is divided; a batch in which some reward differs from the
    first one is mapped to [(r - np.mean(r)) / np.std(r)], every operation
    rounded to float64.  In the arithmetic of real numbers, the same code
    maps a batch whose rewards have a variance other than 0 to rewards
    with mean 0 and variance 1. *)
Theorem normalize_rewards_guard :
  (forall (c : Q) (r : list XNum.xnum),
     r <> [] -> Forall (fun x => XNum.xsame x (XNum.Fin c)) r ->
     Rewards.normalize_rewards Rewards.float64 true r
     = Some (replicate (length r) (XNum.Fin 0))) /\
  (forall (r : list XNum.xnum) (r00 x : XNum.xnum),
     r !! 0%nat = Some r00 -> x ∈ r -> Float.feqb x r00 = false ->
     Rewards.normalize_rewards Rewards.float64 true r
     = Some ((fun x => Float.fdiv Float.binary64
                         (Float.fsub Float.binary64 x (Rewards.mean64 r))
                         (Rewards.std64 r)) <$> r)) /\
  (forall r : list R, var r <> 0 ->
     exists r', Rewards.normalize_rewards Rewards.exact true r = Some r' /\
                length r' = length r /\ mean r' = 0 /\ var r' = 1).
Proof.
  split; [| split].
  - intros c r Hne Hall.
    destruct r as [|r00 r]; [easy |]. unfold Rewards.normalize_rewards.
    rewrite decide_True.
    + f_equal. clear Hne. induction Hall as [|x l Hx _ IH]; [reflexivity |].
      rewrite fmap_cons, IH. simpl. f_equal.
      destruct x as [q | | |]; try easy. apply fsub_self.
    + apply all_filter. inversion Hall as [|? ? H0 _]; subst.
      eapply Forall_impl; [exact Hall |].
      intros x Hx. destruct x as [q | | |], r00 as [q0 | | |]; try easy.
      simpl in *. apply Qeq_bool_iff. now rewrite Hx, H0.
  - intros r r00 x H0 Hx Hne.
    destruct r as [|r0 r]; [easy |]. injection H0 as ->.
    unfold Rewards.normalize_rewards. rewrite decide_False; [reflexivity |].
    intros Hall. apply filter_all in Hall.
    rewrite Forall_forall in Hall. specialize (Hall x Hx). simpl in Hall.
    congruence.
  - intros r Hv.
    exists ((fun x => (x - mean r) / std r) <$> r).
    destruct (standardised r Hv) as [Hm Hvar].
    split; [| split; [apply length_fmap | split; assumption]].
    destruct r as [|r00 r]; [exfalso; apply Hv, var_nil |].
    unfold Rewards.normalize_rewards. rewrite decide_False; [reflexivity |].
    intros Hall. apply filter_all in Hall. apply Hv, (var_const r00).
    eapply Forall_impl; [exact Hall |].
    intros y Hy. simpl in Hy. now apply bool_decide_eq_true in Hy.
Qed.

Lemma normalize_rewards_guard_witness :
  Rewards.normalize_rewards Rewards.float64 true (XNum.Fin <$> [5; 5; 5]%Q)
  = Some (replicate (length (XNum.Fin <$> [5; 5; 5]%Q)) (XNum.Fin 0)) /\
  (exists r',
     Rewards.normalize_rewards Rewards.float64 true (XNum.Fin <$> [0; 0; 1]%Q)
     = Some r' /\ length r' = 3%nat) /\
  (exists r', Rewards.normalize_rewards Rewards.exact true [1; 3] = Some r' /\
              length r' = length [1; 3] /\ mean r' = 0 /\ var r' = 1).
Proof.
  destruct normalize_rewards_guard as [H1 [H2 H3]]. split; [| split].
  - apply (H1 5%Q (XNum.Fin <$> [5; 5; 5]%Q)); [easy |].
    repeat constructor; reflexivity.
  - eexists. split.
    + apply (H2 (XNum.Fin <$> [0; 0; 1]%Q) (XNum.Fin 0) (XNum.Fin 1));
        [reflexivity | | reflexivity].
      simpl. do 2 constructor 2. constructor 1.
    + reflexivity.
  - apply (H3 [1; 3]). unfold var, mean, sum. simpl. unfold Rsqr. lra.
Defined.

(** In float64 the normalised rewards need not have mean 0 or variance
    1: the rewards 0, 0, 1 become [a], [a], [b] with [a + a + b] equal to
    2^-52 and not to 0, their mean as [np.mean] computes it is not 0, and
    the squares of their deviations from that exact mean do not add up
    to 3. *)
Lemma normalize_rewards_mean_not_zero :
  exists a b : Q,
    Rewards.normalize_rewards Rewards.float64 true (XNum.Fin <$> [0; 0; 1]%Q)
    = Some [XNum.Fin a; XNum.Fin a; XNum.Fin b] /\
    ~ (a + a + b == 0)%Q /\
    Rewards.mean64 [XNum.Fin a; XNum.Fin a; XNum.Fin b] <> XNum.Fin 0 /\
    (let m := ((a + a + b) / 3)%Q in
     ~ ((a - m) * (a - m) + (a - m) * (a - m) + (b - m) * (b - m) == 3)%Q).
Proof.
  exists (-1592262918131443 # 2251799813685248)%Q,
         (6369051672525773 # 4503599627370496)%Q.
  split; [vm_compute; reflexivity |].
  split; [vm_compute; discriminate |].
  split; [vm_compute; discriminate |].
  vm_compute; discriminate.
Qed.

End RewardNormalisation.

(** ** Choosing a move *)

Section MoveSelection.
Import XNum QTarget Policy.

Lemma xleb_true_le x y : xleb x y = true -> xle x y.
Proof.
  intros H. assert (Hx : x <> NaN) by (intros ->; discriminate).
  assert (Hy : y <> NaN) by (intros ->; now destruct x).
  apply xltb_false_le; [exact Hy | exact Hx |].
  destruct x, y; simpl in H; try easy; now apply negb_true_iff in H.
Qed.

Lemma xleb_false_lt x y :
  x <> NaN -> y <> NaN -> xleb x y = false -> xle y x /\ ~ xle x y.
Proof.
  intros Hx Hy H.
  assert (L : xltb y x = true).
  { destruct x, y; simpl in H; try easy; now apply negb_false_iff in H. }
  split; [now apply xltb_true_le |].
  destruct x as [a| | |], y as [b| | |]; simpl in *; try easy.
  destruct (b ?= a)%Q eqn:E; try easy.
  apply Qlt_alt in E. now apply Qlt_not_le.
Qed.

Lemma is_nan_true x : is_nan x = true <-> x = NaN.
Proof. destruct x; simpl; split; easy. Qed.

(** The loop of [argmax], started on a prefix whose largest element is the
    running maximum, ends on a NaN or on a largest element of the row. *)
Lemma argmax_from_spec (rest : list xnum) :
  forall (pre : list xnum) (mp : xnum) (max_ind : nat),
  mp <> NaN -> pre !! max_ind = Some mp ->
  (forall v, v ∈ pre -> xle v mp) ->
  exists m,
    (pre ++ rest) !! argmax_from mp max_ind (length pre) rest = Some m /\
    (m = NaN \/ forall v, v ∈ pre ++ rest -> xle v m).
Proof.
  induction rest as [|x rest IH]; intros pre mp max_ind Hn Hmp Hmax.
  - exists mp. rewrite app_nil_r. simpl. auto.
  - simpl. destruct (xleb x mp) eqn:L; simpl.
    + destruct (IH (pre ++ [x]) mp max_ind Hn) as (m & Hm & Hub).
      * apply lookup_app_l_Some. exact Hmp.
      * intros v Hv. apply elem_of_app in Hv as [Hv | Hv]; [now apply Hmax |].
        apply list_elem_of_singleton in Hv as ->. now apply xleb_true_le.
      * rewrite length_app, Nat.add_1_r in Hm. rewrite <- app_assoc in Hm, Hub.
        exists m. auto.
    + destruct (is_nan x) eqn:N.
      * apply is_nan_true in N as ->. exists NaN. split; [| now left].
        now rewrite lookup_app_r, Nat.sub_diag by lia.
      * assert (Hx : x <> NaN) by (intros ->; discriminate).
        destruct (xleb_false_lt x mp Hx Hn L) as [Hle _].
        destruct (IH (pre ++ [x]) x (length pre) Hx) as (m & Hm & Hub).
        -- now rewrite lookup_app_r, Nat.sub_diag by lia.
        -- intros v Hv. apply elem_of_app in Hv as [Hv | Hv].
           ++ eapply xle_trans; [now apply Hmax | exact Hle].
           ++ apply list_elem_of_singleton in Hv as ->. now apply xle_refl.
        -- rewrite length_app, Nat.add_1_r in Hm. rewrite <- app_assoc in Hm, Hub.
           exists m. auto.
Qed.

Lemma argmax_spec (row : list xnum) (k : nat) :
  argmax row = Some k ->
  exists m, row !! k = Some m /\ (m = NaN \/ forall v, v ∈ row -> xle v m).
Proof.
  destruct row as [|x rest]; [discriminate |]. simpl. intros [= <-].
  destruct (is_nan x) eqn:N.
  - apply is_nan_true in N as ->. exists NaN. auto.
  - assert (Hx : x <> NaN) by (intros ->; discriminate).
    destruct (argmax_from_spec rest [x] x 0%nat Hx eq_refl) as (m & Hm & Hub).
    + intros v Hv. apply list_elem_of_singleton in Hv as ->. now apply xle_refl.
    + exists m. auto.
Qed.

Lemma argmax_is_Some (row : list xnum) : row <> [] -> is_Some (argmax row).
Proof. destruct row; [easy | eauto]. Qed.

(** The action chosen on a row is the first NaN among the outputs of the
    legal actions, or a legal action whose output bounds the outputs of
    all legal actions. *)
Lemma move_row_spec (legal : list Z) (q : list xnum) (j : nat) (v : xnum) :
  length legal = length q ->
  legal !! j = Some 1 -> q !! j = Some v -> v <> NInf ->
  exists k m,
    move_row legal q = Some k /\ legal !! k = Some 1 /\ q !! k = Some m /\
    (m = NaN \/ forall i w, legal !! i = Some 1 -> q !! i = Some w -> xle w m).
Proof.
  intros Hlen Hj Hv Hninf. unfold move_row, where_legal.
  rewrite decide_True by assumption. simpl.
  set (row := zip_with _ legal q).
  assert (Hrj : row !! j = Some v).
  { unfold row. rewrite masked_lookup, Hj, Hv. reflexivity. }
  destruct (argmax_is_Some row) as [k Hk].
  { intros E. rewrite E in Hrj. discriminate. }
  destruct (argmax_spec row k Hk) as (m & Hm & Hub).
  unfold row in Hm. rewrite masked_lookup in Hm.
  destruct (legal !! k) as [mk|] eqn:Emk; [| discriminate].
  destruct (q !! k) as [qk|] eqn:Eqk; [| discriminate].
  injection Hm as Hm.
  assert (Hmk : mk = 1).
  { destruct (Z.eqb_spec mk 1) as [E | E]; [exact E | exfalso].
    subst m. destruct Hub as [Hub | Hub]; [discriminate |].
    apply Hninf, xle_NInf, Hub. apply list_elem_of_lookup. eauto. }
  subst mk. simpl in Hm. subst qk.
  exists k, m. split; [exact Hk |]. split; [exact Emk |]. split; [exact Eqk |].
  destruct Hub as [Hub | Hub]; [now left | right].
  intros i w Hi Hw. apply Hub. apply list_elem_of_lookup. exists i.
  unfold row. rewrite masked_lookup, Hi, Hw. reflexivity.
Qed.

(** On a row that has a legal action whose output is not [-inf], the
    chosen action is legal, and unless its output is NaN it is at least
    the output of every legal action. *)
Lemma move_row_legal (legal : list Z) (q : list xnum) :
  length legal = length q ->
  (exists j v, legal !! j = Some 1 /\ q !! j = Some v /\ v <> NInf) ->
  exists k m,
    move_row legal q = Some k /\ legal !! k = Some 1 /\ q !! k = Some m /\
    (m <> NaN -> forall i w, legal !! i = Some 1 -> q !! i = Some w -> xle w m).
Proof.
  intros Hlen (j & v & Hj & Hv & Hn).
  destruct (move_row_spec legal q j v Hlen Hj Hv Hn) as (k & m & Hk & Hl & Hq & Hub).
  exists k, m. repeat (split; [assumption |]).
  intros Hm. destruct Hub as [-> | Hub]; [easy | exact Hub].
Qed.

Lemma move_row_legal_witness :
  exists k m,
    move_row [0; 1; 1] [Fin 9; Fin 2; Fin 3] = Some k /\
    [0; 1; 1] !! k = Some 1 /\ [Fin 9; Fin 2; Fin 3] !! k = Some m /\
    (m <> NaN -> forall i w, [0; 1; 1] !! i = Some 1 ->
       [Fin 9; Fin 2; Fin 3] !! i = Some w -> xle w m).
Proof.
  apply (move_row_legal [0; 1; 1] [Fin 9; Fin 2; Fin 3]).
  - reflexivity.
  - exists 1%nat, (Fin 2). repeat split. discriminate.
Defined.

Lemma masked_all_illegal (legal : list Z) (q : list xnum) :
  length legal = length q ->
  (forall j v, legal !! j = Some 1 -> q !! j = Some v -> v = NInf) ->
  zip_with (fun (m : Z) (v : xnum) => if m =? 1 then v else NInf) legal q
  = replicate (length q) NInf.
Proof.
  revert q. induction legal as [|m legal IH]; intros [|v q] Hlen H;
    try discriminate; [reflexivity |].
  simpl. f_equal.
  - destruct (Z.eqb_spec m 1) as [-> | _]; [| reflexivity].
    now apply (H 0%nat v).
  - apply IH; [simpl in Hlen; lia |].
    intros j w Hj Hw. now apply (H (S j) w).
Qed.

Lemma argmax_from_all_NInf (n max_ind i : nat) :
  argmax_from NInf max_ind i (replicate n NInf) = max_ind.
Proof. revert i. induction n as [|n IH]; intros i; simpl; [reflexivity | apply IH]. Qed.

(** X2.  On a row without legal action, or whose legal actions all have
    the output [-inf], [move] returns action 0, whether or not action 0
    is legal. *)
Theorem move_row_without_choice (legal : list Z) (q : list xnum) :
  length legal = length q -> q <> [] ->
  (forall j v, legal !! j = Some 1 -> q !! j = Some v -> v = NInf) ->
  move_row legal q = Some 0%nat.
Proof.
  intros Hlen Hq H. unfold move_row, where_legal.
  rewrite decide_True by assumption. simpl.
  rewrite (masked_all_illegal legal q Hlen H).
  destruct q as [|v q]; [easy |]. simpl.
  now rewrite argmax_from_all_NInf.
Qed.

Lemma move_row_without_choice_witness :
  move_row [0; 0; 0] [Fin 1; Fin 2; Fin 3] = Some 0%nat.
Proof.
  apply (move_row_without_choice [0; 0; 0] [Fin 1; Fin 2; Fin 3]).
  - reflexivity.
  - discriminate.
  - intros [|[|[|j]]] v Hl; simpl in Hl; discriminate.
Defined.

Lemma foldl_xmax_NaN (rest : list xnum) : foldl xmax NaN rest = NaN.
Proof. induction rest as [|y rest IH]; simpl; [reflexivity | exact IH]. Qed.

Lemma foldl_xmax_has_NaN (rest : list xnum) :
  forall x, NaN ∈ x :: rest -> foldl xmax x rest = NaN.
Proof.
  induction rest as [|y rest IH]; intros x Hin; simpl.
  - now apply list_elem_of_singleton in Hin.
  - apply elem_of_cons in Hin as [<- | Hin]; [apply foldl_xmax_NaN |].
    apply IH. apply elem_of_cons in Hin as [<- | Hin].
    + replace (xmax x NaN) with NaN by now destruct x. left.
    + now right.
Qed.

Lemma row_max_has_NaN (row : list xnum) : NaN ∈ row -> row_max row = Some NaN.
Proof.
  destruct row as [|x rest]; [intros H; now apply elem_of_nil in H |].
  intros H. simpl. f_equal. now apply foldl_xmax_has_NaN.
Qed.

Lemma xle_antisym x y : xle x y -> xle y x -> xsame x y.
Proof.
  destruct x, y; simpl; try easy. apply Qle_antisym.
Qed.

(** The value at the position [argmax] returns is the value [np.max]
    returns. *)
Lemma argmax_row_max (row : list xnum) (k : nat) (m : xnum) :
  argmax row = Some k -> row !! k = Some m ->
  exists m', row_max row = Some m' /\ xsame m m'.
Proof.
  intros Hk Hm. destruct (argmax_spec row k Hk) as (m0 & Hm0 & Hub).
  assert (m0 = m) as -> by congruence.
  assert (Hin : m ∈ row) by (apply list_elem_of_lookup; eauto).
  destruct Hub as [-> | Hub].
  - exists NaN. split; [now apply row_max_has_NaN | exact I].
  - destruct (row_max_is_Some row) as [m' Hm'].
    { intros ->. now apply elem_of_nil in Hin. }
    exists m'. split; [exact Hm' |].
    pose proof (row_max_in row m' Hm') as Hin'.
    pose proof (Hub m' Hin') as Hle.
    assert (Hn : m' <> NaN) by (intros ->; easy).
    apply xle_antisym; [| exact Hle].
    exact (row_max_upper row m' Hm' Hn m Hin).
Qed.

(** X3.  On a row that has a legal action whose output is not [-inf],
    the output of the action [move] chooses is the bootstrap value that
    [train_agent] computes for the same mask and outputs. *)
Theorem move_row_attains_next_value (legal : list Z) (q : list xnum) :
  length legal = length q ->
  (exists j v, legal !! j = Some 1 /\ q !! j = Some v /\ v <> NInf) ->
  exists k m m',
    move_row legal q = Some k /\ q !! k = Some m /\
    next_value legal q = Some m' /\ xsame m m'.
Proof.
  intros Hlen (j & v & Hj & Hv & Hn).
  destruct (move_row_spec legal q j v Hlen Hj Hv Hn) as (k & m & Hk & Hl & Hq & _).
  unfold move_row, next_value, where_legal in *.
  rewrite decide_True in * by assumption. simpl in *.
  destruct (argmax_row_max _ k m Hk) as (m' & Hm' & Hs).
  { rewrite masked_lookup, Hl, Hq. reflexivity. }
  exists k, m, m'. auto.
Qed.

Lemma move_row_attains_next_value_witness :
  exists k m m',
    move_row [0; 1; 1] [Fin 9; Fin 2; Fin 3] = Some k /\
    [Fin 9; Fin 2; Fin 3] !! k = Some m /\
    next_value [0; 1; 1] [Fin 9; Fin 2; Fin 3] = Some m' /\ xsame m m'.
Proof.
  apply (move_row_attains_next_value [0; 1; 1] [Fin 9; Fin 2; Fin 3]).
  - reflexivity.
  - exists 1%nat, (Fin 2). repeat split. discriminate.
Defined.

Lemma broadcast_dim_cases (n m k : nat) :
  broadcast_dim n m = Some k ->
  (n = k \/ n = 1%nat) /\ (m = k \/ m = 1%nat).
Proof.
  unfold broadcast_dim. repeat case_decide; intros [= <-]; lia.
Qed.

Lemma length_broadcast_to {A : Type} (k : nat) (l : list A) :
  length l = k \/ length l = 1%nat -> length (broadcast_to k l) = k.
Proof.
  destruct l as [|x [|y l]]; simpl; intros [H | H];
    try rewrite length_replicate; try lia; try reflexivity.
Qed.

Lemma length_broadcast_rows {A : Type} (n m : nat) (a : array2 A) :
  length (rows a) = n \/ length (rows a) = 1%nat ->
  length (broadcast_rows n m a) = n.
Proof.
  intros H. unfold broadcast_rows. rewrite length_fmap.
  now apply length_broadcast_to.
Qed.

Lemma broadcast_to_Forall {A : Type} (P : A -> Prop) (k : nat) (l : list A) :
  Forall P l -> Forall P (broadcast_to k l).
Proof.
  intros H. destruct l as [|x [|y l]]; simpl; try exact H.
  apply Forall_replicate. now inversion H.
Qed.

(** Each row of a well-shaped array has the broadcast number of
    columns. *)
Lemma broadcast_rows_shape {A : Type} (n m : nat) (a : array2 A) :
  well_shaped a -> n_cols a = m \/ n_cols a = 1%nat ->
  Forall (fun row => length row = m) (broadcast_rows n m a).
Proof.
  intros Hw Hm. unfold broadcast_rows. apply Forall_fmap.
  apply broadcast_to_Forall. eapply Forall_impl; [exact Hw |].
  intros row Hrow. simpl in *. apply length_broadcast_to.
  rewrite Hrow. exact Hm.
Qed.

(** X1.  [move] on a mask and outputs that broadcast against each other
    (each dimension of the mask is that of the outputs, or one of the two
    is 1): the call returns and the agent is as it was; there is one
    action per row of the broadcast arrays; and on every row that has a
    legal action whose model output is not [-inf], the action returned is
    legal. *)
Theorem move_chooses_legal {boards : Type}
    (network : list (list Q) -> boards -> option (list (list xnum)))
    (board : boards) (legal_moves : array2 Z)
    (ag : Torch.agent) (model : list (string * nat))
    (outputs : list (list xnum)) (n m : nat) :
  Torch._model ag = Some model ->
  DeepQLearningAgent._get_model_outputs network board model ag
    = (Torch.Ok outputs, ag) ->
  well_shaped legal_moves ->
  well_shaped (mk_array2 out_features outputs) ->
  broadcast_dim (length (rows legal_moves)) (length outputs) = Some n ->
  broadcast_dim (n_cols legal_moves) out_features = Some m ->
  exists actions,
    move network board legal_moves ag = (Torch.Ok actions, ag) /\
    length actions = n /\
    forall i legal q k,
      broadcast_rows n m legal_moves !! i = Some legal ->
      broadcast_rows n m (mk_array2 out_features outputs) !! i = Some q ->
      actions !! i = Some k ->
      (exists j v, legal !! j = Some 1 /\ q !! j = Some v /\ v <> NInf) ->
      legal !! k = Some 1.
Proof.
  intros Hm Hout Hwl Hwo Hn Hc.
  destruct (broadcast_dim_cases _ _ _ Hn) as [Hn1 Hn2].
  destruct (broadcast_dim_cases _ _ _ Hc) as [Hc1 Hc2].
  pose proof (broadcast_rows_shape n m legal_moves Hwl Hc1) as Sl.
  pose proof (broadcast_rows_shape n m (mk_array2 out_features outputs) Hwo Hc2) as So.
  pose proof (length_broadcast_rows n m legal_moves Hn1) as Ll.
  pose proof (length_broadcast_rows n m (mk_array2 out_features outputs) Hn2) as Lo.
  assert (Hm0 : m <> 0%nat).
  { unfold out_features in Hc2. intros ->.
    unfold broadcast_dim, out_features in Hc. repeat case_decide; try lia.
    all: injection Hc as Hc; lia. }
  set (L := broadcast_rows n m legal_moves) in *.
  set (O := broadcast_rows n m (mk_array2 out_features outputs)) in *.
  assert (Hrows : forall i legal q, L !! i = Some legal -> O !! i = Some q ->
            length legal = length q /\ q <> []).
  { intros i legal q Hl Hq.
    pose proof (Forall_lookup_1 _ _ _ _ Sl Hl) as H1.
    pose proof (Forall_lookup_1 _ _ _ _ So Hq) as H2. simpl in H1, H2.
    split; [lia |]. intros ->. simpl in *. lia. }
  assert (Hall : Forall2 (fun x k => move_row x.1 x.2 = Some k) (zip L O)
                   ((fun x => default 0%nat (move_row x.1 x.2)) <$> zip L O)).
  { apply Forall2_fmap_r, Forall_Forall2_diag, Forall_forall.
    intros [legal q] Hin. apply list_elem_of_lookup in Hin as [i Hi].
    apply lookup_zip_with_Some in Hi as (l' & q' & Heq & Hl & Hq).
    injection Heq as -> ->.
    destruct (Hrows i l' q' Hl Hq) as [Hlen Hne]. simpl.
    unfold move_row, QTarget.where_legal. rewrite decide_True by assumption.
    simpl. destruct l' as [|l0 l'], q' as [|q0 q']; try easy. }
  set (acts := (fun x => default 0%nat (move_row x.1 x.2)) <$> zip L O) in *.
  assert (Hmove : masked_outputs legal_moves (mk_array2 out_features outputs)
                    ≫= argmax_axis1 = Some acts).
  { unfold masked_outputs. simpl. rewrite Hn. simpl. rewrite Hc. simpl.
    unfold argmax_axis1. simpl. rewrite decide_False by assumption.
    fold L O. apply mapM_Some.
    apply Forall2_same_length_lookup. split.
    - unfold acts. rewrite length_fmap, !length_zip_with. reflexivity.
    - intros i row k Hrow Hk.
      apply lookup_zip_with_Some in Hrow as (legal & q & -> & Hl & Hq).
      assert (Hz : zip L O !! i = Some (legal, q))
        by (apply lookup_zip_with_Some; eauto).
      destruct (Forall2_lookup_l _ _ _ _ _ Hall Hz) as (k' & Hk' & Hrow).
      assert (k' = k) as -> by congruence.
      destruct (Hrows i legal q Hl Hq) as [Hlen _].
      simpl in Hrow. unfold move_row, QTarget.where_legal in Hrow.
      rewrite decide_True in Hrow by assumption. exact Hrow. }
  exists acts. split; [| split].
  - unfold move.
    assert (Ha : Torch.attr Torch._model ag = (Torch.Ok model, ag))
      by (unfold Torch.attr; now rewrite Hm).
    rewrite (bind_Ok _ _ _ _ _ Ha), (bind_Ok _ _ _ _ _ Hout), Hmove.
    reflexivity.
  - unfold acts. rewrite length_fmap, length_zip_with. lia.
  - intros i legal q k Hl Hq Hk Hex.
    assert (Hz : zip L O !! i = Some (legal, q))
      by (apply lookup_zip_with_Some; eauto).
    destruct (Forall2_lookup_l _ _ _ _ _ Hall Hz) as (k' & Hk' & Hrow).
    assert (k' = k) as -> by congruence. simpl in Hrow.
    destruct (Hrows i legal q Hl Hq) as [Hlen _].
    destruct (move_row_legal legal q Hlen Hex) as (k0 & v & Hk0 & Hlegal & _).
    congruence.
Qed.

Lemma move_chooses_legal_witness :
  exists actions,
    move AgentExamples.toy_network [[1; 0]; [0; 1]]%Q
      (mk_array2 4 [[0; 1; 1; 1]]) AgentExamples.dqn
      = (Torch.Ok actions, AgentExamples.dqn) /\
    length actions = 2%nat /\
    forall i legal q k,
      broadcast_rows 2 4 (mk_array2 4 [[0; 1; 1; 1]]) !! i = Some legal ->
      broadcast_rows 2 4
        (mk_array2 out_features
           (replicate 2 (replicate 4 (Fin 1)))) !! i = Some q ->
      actions !! i = Some k ->
      (exists j v, legal !! j = Some 1 /\ q !! j = Some v /\ v <> NInf) ->
      legal !! k = Some 1.
Proof.
  apply (move_chooses_legal AgentExamples.toy_network [[1; 0]; [0; 1]]%Q
           (mk_array2 4 [[0; 1; 1; 1]]) AgentExamples.dqn
           (default [] (Torch._model AgentExamples.dqn))
           (replicate 2 (replicate 4 (Fin 1))) 2 4).
  - vm_compute; reflexivity.
  - vm_compute; reflexivity.
  - repeat constructor.
  - repeat constructor.
  - reflexivity.
  - reflexivity.
Defined.

End MoveSelection.

(** ** The Huber loss *)

Section HuberLoss.
Import XNum Loss Lqa.

Lemma xsame_refl x : xsame x x.
Proof. destruct x; simpl; try exact I. reflexivity. Qed.

Lemma xadd_same a a' b b' :
  xsame a a' -> xsame b b' -> xsame (xadd a b) (xadd a' b').
Proof.
  destruct a, a', b, b'; simpl; try easy. intros -> ->. reflexivity.
Qed.

Lemma xmul_same_const a a' (c : Q) :
  xsame a a' -> xsame (xmul a (Fin c)) (xmul a' (Fin c)).
Proof.
  destruct a, a'; simpl; try easy.
  - intros ->. reflexivity.
  - intros _. apply xsame_refl.
  - intros _. apply xsame_refl.
Qed.

Lemma huber_loss1_fin (delta a b : Q) :
  huber_loss1 delta (Fin a) (Fin b) =
  match (Qabs (a - b) ?= delta)%Q with
  | Lt => Fin ((1 # 2) * ((a - b) * (a - b)))
  | _ => Fin (delta * (Qabs (a - b) - (1 # 2) * delta))
  end.
Proof.
  unfold huber_loss1, xsub, xneg, xadd, xabs, xltb, xmul.
  change (a + - b)%Q with (a - b)%Q.
  now destruct (Qabs (a - b) ?= delta)%Q.
Qed.

(** The loss of one element does not depend on which of the two values
    is called the true one. *)
Lemma huber_loss1_sym (delta : Q) (a b : xnum) :
  xsame (huber_loss1 delta a b) (huber_loss1 delta b a).
Proof.
  destruct a as [a| | |], b as [b| | |]; try apply xsame_refl.
  rewrite !huber_loss1_fin.
  assert (E : (b - a == - (a - b))%Q) by ring.
  assert (Hab : (Qabs (b - a) == Qabs (a - b))%Q)
    by (rewrite E; apply Qabs_opp).
  rewrite (Qcompare_comp _ _ Hab delta delta (Qeq_refl delta)).
  destruct (Qabs (a - b) ?= delta)%Q; simpl.
  - rewrite Hab. reflexivity.
  - rewrite E. ring.
  - rewrite Hab. reflexivity.
Qed.

Lemma zip_huber_sym (delta : Q) (u : list xnum) :
  forall v, length u = length v ->
  Forall2 xsame (zip_with (huber_loss1 delta) u v)
                (zip_with (huber_loss1 delta) v u).
Proof.
  induction u as [|a u IH]; intros [|b v] Hlen; try discriminate; simpl.
  - constructor.
  - constructor; [apply huber_loss1_sym | apply IH; simpl in Hlen; lia].
Qed.

Lemma foldl_xadd_same (l l' : list xnum) :
  Forall2 xsame l l' ->
  forall x x', xsame x x' -> xsame (foldl xadd x l) (foldl xadd x' l').
Proof.
  induction 1 as [|y y' l l' Hy _ IH]; intros x x' Hx; simpl; [exact Hx |].
  apply IH. now apply xadd_same.
Qed.

Lemma mean_same (l l' : list xnum) :
  Forall2 xsame l l' -> xsame (mean l) (mean l').
Proof.
  intros H. pose proof (Forall2_length _ _ _ H) as Hlen.
  destruct H as [|y y' l l' Hy H]; [exact I |].
  unfold mean. rewrite <- Hlen. apply xmul_same_const.
  now apply foldl_xadd_same.
Qed.

(** X4.  [mean_huber_loss] is symmetric: exchanging its two tensors, as
    [train_agent] does when it passes the model outputs as [y_true] and
    the target as [y_pred], gives the same loss, and raises exactly when
    the original order does. *)
Theorem mean_huber_loss_symmetric (y_true y_pred : list xnum) :
  match mean_huber_loss y_true y_pred, mean_huber_loss y_pred y_true with
  | Some l, Some l' => xsame l l'
  | None, None => True
  | _, _ => False
  end.
Proof.
  unfold mean_huber_loss, huber_loss.
  destruct (decide (length y_true = length y_pred)) as [Hlen | Hlen].
  - rewrite decide_True by lia. simpl. apply mean_same. now apply zip_huber_sym.
  - rewrite decide_False by lia. exact I.
Qed.

End HuberLoss.

(** ** Targets of the actor-critic trainer *)

Section ActorCriticTargets.
Import XNum ActorCriticTarget.

(** X6.  In the actor-critic trainer, for a terminal transition
    ([done = 1]) with finite reward and finite value predictions, the
    critic target is the reward, whatever the discount factor and the
    prediction for the next state; the advantage is 0 at every action
    that was not taken and the reward minus the predicted value of the
    state at the action taken. *)
Theorem terminal_critic_target (gamma r next_s_pred s_pred : Q) (a : list Z) :
  xsame (critic_target (Fin r) (future_reward gamma (Fin next_s_pred) 1)) (Fin r) /\
  forall i ai, a !! i = Some ai ->
    exists x,
      advantage a (Fin r) (future_reward gamma (Fin next_s_pred) 1) (Fin s_pred) !! i
        = Some (Fin x) /\
      (ai = 0 -> (x == 0)%Q) /\ (ai = 1 -> (x == r - s_pred)%Q).
Proof.
  split.
  - unfold critic_target, future_reward. simpl.
    change (inject_Z (1 - 1)) with 0%Q. ring.
  - intros i ai Hi. unfold advantage, future_reward.
    rewrite list_lookup_fmap, Hi. simpl. eexists. split; [reflexivity |].
    change (inject_Z (1 - 1)) with 0%Q.
    split; intros ->.
    + change (inject_Z 0) with 0%Q. ring.
    + change (inject_Z 1) with 1%Q. ring.
Qed.

End ActorCriticTargets.

(** ** Action probabilities *)

Section ActionProbabilities.
Import Reals ActorCriticRewards ActionProba.
Local Open Scope R_scope.

Lemma sum_pos (l : list R) :
  l <> [] -> Forall (fun x => 0 < x) l -> 0 < sum l.
Proof.
  intros Hne H. destruct H as [|x l Hx H]; [easy |].
  change (0 < x + sum l).
  assert (0 <= sum l); [| lra].
  apply sum_nonneg. eapply Forall_impl; [exact H |]. intros y Hy. simpl in Hy. lra.
Qed.

Lemma elem_le_sum (l : list R) (x : R) :
  Forall (fun y => 0 <= y) l -> x ∈ l -> x <= sum l.
Proof.
  induction 1 as [|y l Hy H IH]; intros Hin; [now apply elem_of_nil in Hin |].
  change (x <= y + sum l). pose proof (sum_nonneg l H).
  apply elem_of_cons in Hin as [-> | Hin]; [lra |].
  specialize (IH Hin). lra.
Qed.

Lemma foldl_Rmax_upper (rest : list R) :
  forall x, (forall v, v ∈ x :: rest -> v <= foldl Rmax x rest) /\
            foldl Rmax x rest ∈ x :: rest.
Proof.
  induction rest as [|y rest IH]; intros x; simpl.
  - split; [| left]. intros v Hv. apply list_elem_of_singleton in Hv as ->. lra.
  - destruct (IH (Rmax x y)) as [Hub Hin]. split.
    + intros v Hv.
      assert (Hm : Rmax x y <= foldl Rmax (Rmax x y) rest) by (apply Hub; left).
      apply elem_of_cons in Hv as [-> | Hv].
      * pose proof (Rmax_l x y). lra.
      * apply elem_of_cons in Hv as [-> | Hv].
        -- pose proof (Rmax_r x y). lra.
        -- apply Hub. now right.
    + apply elem_of_cons in Hin as [E | Hin].
      * rewrite E. unfold Rmax. destruct (Rle_dec x y); [right; left | left].
      * right. now right.
Qed.

Lemma clip_bounds (x : R) : -10 <= clip (-10) 10 x <= 10.
Proof.
  unfold clip. split.
  - apply Rmin_glb; [lra | apply Rmax_r].
  - apply Rmin_l.
Qed.

Lemma clip_mono (x y : R) : x <= y -> clip (-10) 10 x <= clip (-10) 10 y.
Proof.
  intros H. unfold clip. apply Rle_min_compat_l. now apply Rle_max_compat_r.
Qed.

(** What a row of probabilities is made of. *)
Lemma get_action_proba_row_spec (q : list R) :
  q <> [] ->
  exists (m S : R),
    get_action_proba_row q
      = Some ((fun x => exp (clip (-10) 10 x - m) / S) <$> q) /\
    S = sum ((fun x => exp (clip (-10) 10 x - m)) <$> q) /\
    0 < S /\
    (forall x, x ∈ q -> clip (-10) 10 x <= m) /\ -10 <= m <= 10.
Proof.
  intros Hne. unfold get_action_proba_row.
  destruct q as [|x0 q]; [easy |].
  set (l := x0 :: q) in *.
  destruct (foldl_Rmax_upper (clip (-10) 10 <$> q) (clip (-10) 10 x0)) as [Hub Hin].
  set (m := foldl Rmax (clip (-10) 10 x0) (clip (-10) 10 <$> q)) in *.
  exists m, (sum ((fun x => exp (clip (-10) 10 x - m)) <$> l)).
  split; [| split; [reflexivity | split; [| split]]].
  - change (row_max (clip (-10) 10 <$> l)) with (Some m). simpl.
    rewrite <- !list_fmap_compose. reflexivity.
  - apply sum_pos; [easy |].
    apply Forall_fmap, Forall_forall. intros x _. apply exp_pos.
  - intros x Hx. apply Hub. change (clip (-10) 10 x ∈ clip (-10) 10 <$> l).
    now apply list_elem_of_fmap_2.
  - change (m ∈ clip (-10) 10 <$> l) in Hin.
    apply list_elem_of_fmap in Hin as (y & -> & _). apply clip_bounds.
Qed.

(** X7.  For a row with at least one action, [get_action_proba] returns
    one probability per action; each is positive and at most 1, and they
    sum to 1. *)
Theorem action_proba_distribution (q : list R) :
  q <> [] ->
  exists p, get_action_proba_row q = Some p /\
    length p = length q /\
    (forall x, x ∈ p -> 0 < x <= 1) /\
    sum p = 1.
Proof.
  intros Hne. destruct (get_action_proba_row_spec q Hne) as (m & S & E & HS & Hpos & _).
  set (exps := (fun x => exp (clip (-10) 10 x - m)) <$> q) in *.
  assert (Ep : (fun x => exp (clip (-10) 10 x - m) / S) <$> q
               = (fun y => y * / S) <$> exps).
  { unfold exps. rewrite <- list_fmap_compose. reflexivity. }
  rewrite Ep in E. eexists. split; [exact E |].
  split; [unfold exps; now rewrite !length_fmap |]. split.
  - intros x Hx. apply list_elem_of_fmap in Hx as (y & -> & Hy).
    assert (Hy0 : 0 < y).
    { unfold exps in Hy. apply list_elem_of_fmap in Hy as (z & -> & _). apply exp_pos. }
    assert (HyS : y <= S).
    { rewrite HS. apply elem_le_sum; [| exact Hy].
      apply Forall_fmap, Forall_forall. intros z _. simpl. apply Rlt_le, exp_pos. }
    pose proof (Rinv_0_lt_compat S Hpos) as Hi.
    split; [now apply Rmult_lt_0_compat |].
    apply (Rmult_le_reg_r S); [exact Hpos |].
    rewrite Rmult_assoc, Rinv_l by lra. lra.
  - rewrite sum_scale, <- HS. field. lra.
Qed.

Lemma action_proba_distribution_witness :
  exists p, get_action_proba_row [1; 3; -20] = Some p /\
    length p = length [1; 3; -20] /\
    (forall x, x ∈ p -> 0 < x <= 1) /\
    sum p = 1.
Proof. apply (action_proba_distribution [1; 3; -20]). discriminate. Defined.

(** X8.  The probabilities follow the order of the model outputs, and
    because the outputs are clipped to [-10, 10] no action gets a
    probability below [exp(-20)] divided by the number of actions. *)
Theorem action_proba_order_floor (q : list R) :
  q <> [] ->
  exists p, get_action_proba_row q = Some p /\
    (forall i j qi qj pi pj,
       q !! i = Some qi -> q !! j = Some qj ->
       p !! i = Some pi -> p !! j = Some pj -> qi <= qj -> pi <= pj) /\
    (forall x, x ∈ p -> exp (-20) / INR (length q) <= x).
Proof.
  intros Hne.
  destruct (get_action_proba_row_spec q Hne) as (m & S & E & HS & Hpos & Hub & Hm).
  eexists. split; [exact E |].
  pose proof (Rinv_0_lt_compat S Hpos) as Hi.
  split.
  - intros i j qi qj pi pj Hqi Hqj Hpi Hpj Hle.
    rewrite list_lookup_fmap, Hqi in Hpi. rewrite list_lookup_fmap, Hqj in Hpj.
    injection Hpi as <-. injection Hpj as <-.
    unfold Rdiv. apply Rmult_le_compat_r; [lra |].
    pose proof (clip_mono qi qj Hle).
    destruct (Rle_lt_or_eq_dec _ _ H) as [Hlt | Heq].
    + apply Rlt_le, exp_increasing. lra.
    + rewrite Heq. lra.
  - intros x Hx. apply list_elem_of_fmap in Hx as (y & -> & Hy).
    pose proof (INR_length_pos q Hne) as Hn.
    assert (He : exp (-20) <= exp (clip (-10) 10 y - m)).
    { pose proof (clip_bounds y).
      destruct (Rle_lt_or_eq_dec (-20) (clip (-10) 10 y - m)) as [Hlt | Heq];
        [lra | apply Rlt_le, exp_increasing; exact Hlt | rewrite Heq; lra]. }
    assert (HSn : S <= INR (length q)).
    { rewrite HS. clear -Hub. induction q as [|z q IH]; [simpl; lra |].
      change (exp (clip (-10) 10 z - m)
              + sum ((fun x => exp (clip (-10) 10 x - m)) <$> q)
              <= INR (S (length q))).
      rewrite S_INR.
      assert (exp (clip (-10) 10 z - m) <= 1).
      { rewrite <- exp_0. pose proof (Hub z ltac:(left)).
        destruct (Rle_lt_or_eq_dec (clip (-10) 10 z - m) 0) as [Hlt | Heq];
          [lra | apply Rlt_le, exp_increasing; exact Hlt | rewrite Heq; lra]. }
      assert (sum ((fun x => exp (clip (-10) 10 x - m)) <$> q) <= INR (length q)).
      { apply IH. intros x Hx. apply Hub. now right. }
      lra. }
    pose proof (exp_pos (-20)) as He0.
    unfold Rdiv.
    apply Rle_trans with (exp (-20) * / S).
    + apply Rmult_le_compat_l; [lra |]. apply Rinv_le_contravar; assumption.
    + apply Rmult_le_compat_r; [lra | exact He].
Qed.

Lemma action_proba_order_floor_witness :
  exists p, get_action_proba_row [1; 3; -20] = Some p /\
    (forall i j qi qj pi pj,
       [1; 3; -20] !! i = Some qi -> [1; 3; -20] !! j = Some qj ->
       p !! i = Some pi -> p !! j = Some pj -> qi <= qj -> pi <= pj) /\
    (forall x, x ∈ p -> exp (-20) / INR (length [1; 3; -20]) <= x).
Proof. apply (action_proba_order_floor [1; 3; -20]). discriminate. Defined.

End ActionProbabilities.

(** ** What [reset_models] leaves in the networks *)

Section ConstructorValues.
Import XNum Torch DeepQLearningAgent.

(** Cells that hold a tensor are not touched when a module is created. *)
Lemma new_module_old_cells (names : list string) :
  forall (init : list (list Q)) (ag : agent) (l : nat),
  l ∈ dom (tensors ag) ->
  tensors (new_module names init ag).2 !! l = tensors ag !! l.
Proof.
  induction names as [|name names IH]; intros init ag l Hl; [reflexivity |].
  simpl. rewrite self_bind, modify_bind.
  set (l0 := fresh (dom (tensors ag))).
  set (ag1 := set_tensors (<[l0 := default [] (head init)]> (tensors ag)) ag).
  assert (Hne : l0 <> l) by (intros <-; now apply (is_fresh (dom (tensors ag)))).
  assert (Hl1 : l ∈ dom (tensors ag1)).
  { unfold ag1. simpl. rewrite dom_insert_L. now apply elem_of_union_r. }
  specialize (IH (tail init) ag1 l Hl1).
  unfold mbind at 1, T_bind at 1.
  destruct (new_module names (tail init) ag1) as [[rest|e] ag'] eqn:E;
    simpl in *; rewrite IH; unfold ag1; simpl; now apply lookup_insert_ne.
Qed.

(** The parameters of a new module hold the initial values. *)
Lemma new_module_values (names : list string) :
  forall (init : list (list Q)) (ag ag' : agent) (m : list (string * nat)),
  length init = length names ->
  new_module names init ag = (Ok m, ag') ->
  m.*1 = names /\ parameter_values ag' m = Some <$> init.
Proof.
  induction names as [|name names IH]; intros init ag ag' m Hlen E.
  - destruct init; [| discriminate]. injection E as <- <-. split; reflexivity.
  - destruct init as [|t init]; [discriminate |].
    simpl in E. rewrite self_bind, modify_bind in E.
    set (l0 := fresh (dom (tensors ag))) in *.
    set (ag1 := set_tensors (<[l0 := t]> (tensors ag)) ag) in *.
    pose proof (new_module_old_cells names init ag1 l0) as Hold.
    unfold mbind at 1, T_bind at 1 in E.
    destruct (new_module names init ag1) as [[rest|e] ag2] eqn:E2; [| discriminate].
    injection E as <- <-.
    destruct (IH init ag1 ag2 rest ltac:(simpl in Hlen; lia) E2) as [Hn Hv].
    split; [rewrite fmap_cons; simpl; f_equal; exact Hn |].
    unfold parameter_values in *. rewrite !fmap_cons, Hv. simpl. f_equal.
    simpl in Hold. rewrite Hold.
    + unfold ag1. simpl. apply lookup_insert_eq.
    + unfold ag1. simpl. rewrite dom_insert_L.
      apply elem_of_union_l, elem_of_singleton. reflexivity.
Qed.

Lemma assoc_get_own_key {V : Type} (m : list (string * V)) (k : string) :
  k ∈ m.*1 -> is_Some (assoc_get k m).
Proof.
  induction m as [|[k' v] m IH]; simpl; intros Hk; [now apply elem_of_nil in Hk |].
  destruct (decide (k' = k)); [eauto |].
  apply elem_of_cons in Hk as [-> | Hk]; [easy | auto].
Qed.

(** The loop of [update_target_net] runs to its end. *)
Lemma sync_loop_returns (m : list (string * nat)) (d1 d2 : nat) (keys : list string) :
  d1 <> d2 -> (forall k, k ∈ keys -> k ∈ m.*1) ->
  forall ag, dicts ag !! d1 = Some m -> is_Some (dicts ag !! d2) ->
  exists ag',
    for_each keys (fun key => v ← dict_getitem d1 key; dict_setitem d2 key v) ag
    = (Ok tt, ag').
Proof.
  intros Hne. induction keys as [|k keys IH]; intros Hk ag H1 [e2 H2].
  - exists ag. reflexivity.
  - destruct (assoc_get_own_key m k) as [v Hv]; [apply Hk; left |].
    set (ag1 := set_dicts (<[d2 := assoc_set k v e2]> (dicts ag)) ag).
    destruct (IH (fun k' Hk' => Hk k' (list_elem_of_further _ _ _ Hk')) ag1)
      as (ag' & E).
    + unfold ag1. simpl. rewrite lookup_insert_ne by congruence. exact H1.
    + unfold ag1. simpl. rewrite lookup_insert_eq. eauto.
    + exists ag'. simpl.
      assert (Eb : (v ← dict_getitem d1 k; dict_setitem d2 k v) ag = (Ok tt, ag1)).
      { unfold dict_getitem, dict_setitem.
        rewrite (bind_Ok _ _ ag ag v); [| now rewrite self_bind, H1, lift_bind_Some, Hv].
        now rewrite self_bind, H2, lift_bind_Some. }
      now rewrite (bind_Ok _ _ _ _ _ Eb).
Qed.

Lemma state_dict_bind {B : Type} (m : list (string * nat)) (f : nat -> T B)
    (ag : agent) :
  (state_dict m ≫= f) ag
  = f (fresh (dom (dicts ag)))
      (set_dicts (<[fresh (dom (dicts ag)) := m]> (dicts ag)) ag).
Proof. reflexivity. Qed.

(** [update_target_net] returns whenever the networks it reads exist. *)
Lemma update_target_net_returns (ag : agent) (m t : list (string * nat)) :
  _model ag = Some m -> _target_net ag = Some t ->
  exists ag', update_target_net ag = (Ok tt, ag').
Proof.
  intros Hm Ht. unfold update_target_net. rewrite self_bind.
  destruct (_use_target_net ag); [| eexists; reflexivity].
  assert (Ea : attr _model ag = (Ok m, ag)) by (unfold attr; now rewrite Hm).
  rewrite (bind_Ok _ _ _ _ _ Ea).
  rewrite state_dict_bind.
  set (d1 := fresh (dom (dicts ag))).
  set (ag1 := set_dicts (<[d1 := m]> (dicts ag)) ag).
  assert (Eb : attr _target_net ag1 = (Ok t, ag1)) by (unfold attr; simpl; now rewrite Ht).
  rewrite (bind_Ok _ _ _ _ _ Eb).
  rewrite state_dict_bind.
  set (d2 := fresh (dom (dicts ag1))).
  set (ag2 := set_dicts (<[d2 := t]> (dicts ag1)) ag1).
  assert (Hd : d1 <> d2).
  { intros E. apply (is_fresh (dom (dicts ag1))). fold d2. rewrite <- E.
    unfold ag1. simpl. rewrite dom_insert_L.
    apply elem_of_union_l, elem_of_singleton. reflexivity. }
  assert (H1 : dicts ag2 !! d1 = Some m).
  { unfold ag2, ag1. simpl. rewrite lookup_insert_ne by congruence.
    apply lookup_insert_eq. }
  assert (Ek : dict_keys d1 ag2 = (Ok m.*1, ag2)).
  { unfold dict_keys. now rewrite self_bind, H1, lift_bind_Some. }
  rewrite (bind_Ok _ _ _ _ _ Ek).
  apply (sync_loop_returns m d1 d2 m.*1 Hd (fun k H => H) ag2 H1).
  unfold ag2. simpl. rewrite lookup_insert_eq. eauto.
Qed.

(** X9.  [reset_models], called on an agent whose networks do not exist
    yet (as the constructor calls it), returns; the live network holds
    the values it was initialised with, and with the target-network flag
    on the target network holds its own initial values, not those of the
    live network: the synchronisation at the end of [reset_models]
    copies nothing. *)
Theorem reset_models_values (use_target_net : bool) (gamma : Q)
    (init_model init_target : list (list Q)) :
  length init_model = 10%nat -> length init_target = 10%nat ->
  let built := reset_models init_model init_target (blank use_target_net gamma) in
  built.1 = Ok tt /\
  parameter_values built.2 <$> _model built.2 = Some (Some <$> init_model) /\
  (if use_target_net
   then parameter_values built.2 <$> _target_net built.2
          = Some (Some <$> init_target)
   else _target_net built.2 = None).
Proof.
  intros H1 H2. cbn zeta. unfold reset_models.
  destruct (agent_model_spec init_model (blank use_target_net gamma))
    as (m & ag1 & E1 & _ & Hf1 & _ & Ht1 & _ & _ & Hl1).
  rewrite (bind_Ok _ _ _ _ _ E1), modify_bind, self_bind.
  assert (Hv1 : parameter_values ag1 m = Some <$> init_model).
  { unfold _agent_model in E1.
    destruct (new_module_spec DeepQCNN_names init_model (blank use_target_net gamma))
      as (m' & ag' & E' & _).
    rewrite (bind_Ok _ _ _ _ _ E'), modify_bind in E1. injection E1 as <- <-.
    exact (proj2 (new_module_values DeepQCNN_names _ _ _ _ H1 E')). }
  change (_use_target_net (set_model (Some m) ag1)) with (_use_target_net ag1).
  rewrite Hf1. change (_use_target_net (blank use_target_net gamma)) with use_target_net.
  destruct use_target_net.
  - destruct (agent_model_spec init_target (set_model (Some m) ag1))
      as (t & ag2 & E2 & _ & _ & Hm2 & _ & _ & _ & Hl2).
    rewrite (bind_Ok _ _ _ _ _ E2), modify_bind.
    assert (Hv2 : parameter_values ag2 t = Some <$> init_target
                  /\ parameter_values ag2 m = parameter_values ag1 m).
    { unfold _agent_model in E2.
      destruct (new_module_spec DeepQCNN_names init_target (set_model (Some m) ag1))
        as (t' & ag' & E' & _).
      pose proof (new_module_old_cells DeepQCNN_names init_target
                    (set_model (Some m) ag1)) as Hold.
      rewrite E' in Hold.
      rewrite (bind_Ok _ _ _ _ _ E'), modify_bind in E2. injection E2 as <- <-.
      split; [exact (proj2 (new_module_values DeepQCNN_names _ _ _ _ H2 E')) |].
      unfold parameter_values. apply list_fmap_ext. intros i [k l] Hi. simpl.
      apply Hold. simpl. apply (Hl1 l).
      apply list_elem_of_fmap. exists (k, l). split; [reflexivity |].
      apply list_elem_of_lookup. eauto. }
    destruct Hv2 as [Hvt Hvm].
    set (ag3 := set_target_net (Some t) ag2).
    destruct (update_target_net_returns ag3 m t) as (ag4 & E4);
      [exact Hm2 | reflexivity |].
    pose proof (proj1 (update_target_net_keeps_tensors ag3)) as (T4 & N4 & M4).
    cbn zeta in T4, N4, M4. rewrite E4 in *. simpl in T4, N4, M4 |- *.
    split; [reflexivity |]. rewrite M4, N4. simpl.
    assert (Hpv : forall x, parameter_values ag4 x = parameter_values ag2 x)
      by (intros x; unfold parameter_values; now rewrite T4).
    rewrite Hm2. simpl. rewrite (Hpv m), (Hpv t).
    split; f_equal; [rewrite Hvm; exact Hv1 | exact Hvt].
  - simpl. split; [reflexivity |]. split; [f_equal; exact Hv1 | exact Ht1].
Qed.

Lemma reset_models_values_witness :
  let built := reset_models AgentExamples.init_ones AgentExamples.init_twos
                 (blank true (99 # 100)) in
  built.1 = Ok tt /\
  parameter_values built.2 <$> _model built.2
    = Some (Some <$> AgentExamples.init_ones) /\
  parameter_values built.2 <$> _target_net built.2
    = Some (Some <$> AgentExamples.init_twos).
Proof.
  apply (reset_models_values true (99 # 100) AgentExamples.init_ones
           AgentExamples.init_twos); reflexivity.
Defined.

End ConstructorValues.

(** ** Saving the models and loading them again *)

Section SaveLoad.
Import Torch Saving.

(** The file of a module holds, under each parameter name, the value
    the parameter has at the moment of saving. *)
Lemma serialise_stored (ag : agent) (m : list (string * nat)) :
  Forall (fun p : string * nat => is_Some (tensors ag !! p.2)) m ->
  exists data, serialise ag m = Some data /\ data.*1 = m.*1 /\
    (NoDup m.*1 -> forall p, p ∈ m -> assoc_get p.1 data = tensors ag !! p.2).
Proof.
  induction 1 as [|[n c] m [v Hv] _ (data & E & Hk & Hget)].
  - exists []. repeat split. intros _ p Hp. now apply elem_of_nil in Hp.
  - simpl in Hv. exists ((n, v) :: data). split; [| split].
    + unfold serialise in *. simpl. rewrite Hv. simpl. rewrite E. reflexivity.
    + rewrite !fmap_cons, Hk. reflexivity.
    + intros Hnd p Hp. rewrite fmap_cons in Hnd.
      apply NoDup_cons in Hnd as [Hn Hnd]. simpl in Hn |- *.
      apply elem_of_cons in Hp as [-> | Hp]; simpl.
      * destruct (decide (n = n)); [now rewrite Hv | congruence].
      * destruct (decide (n = p.1)) as [->|Hne]; [| now apply Hget].
        exfalso. apply Hn. apply list_elem_of_fmap. now exists p.
Qed.

(** Loading a dictionary that holds, for every parameter, a value of
    the size the parameter has: every parameter is overwritten. *)
Lemma load_params_saved (saved : gmap nat (list Q)) (sd : list (string * list Q)) :
  forall (m : list (string * nat)) (ag : agent),
  (forall p, p ∈ m ->
     exists v, assoc_get p.1 sd = Some v /\ saved !! p.2 = Some v /\
       length <$> tensors ag !! p.2 = Some (length v)) ->
  exists ag', load_params sd m ag = (Ok true, ag') /\
    but_tensors ag' = but_tensors ag /\
    forall c, tensors ag' !! c
              = if decide (c ∈ m.*2) then saved !! c else tensors ag !! c.
Proof.
  induction m as [|p m IH]; intros ag H.
  - exists ag. split; [reflexivity |]. split; [reflexivity |]. intros c.
    destruct (decide (c ∈ _)) as [Hc|]; [now apply elem_of_nil in Hc | reflexivity].
  - destruct (H p) as (v & Hsd & Hsv & Hlen); [left |].
    destruct (tensors ag !! p.2) as [old|] eqn:Hold; [| discriminate].
    simpl in Hlen. injection Hlen as Hlen.
    set (ag1 := set_tensors (<[p.2 := v]> (tensors ag)) ag).
    assert (E1 : load_param sd p ag = (Ok true, ag1)).
    { unfold load_param. rewrite self_bind, Hsd, Hold.
      destruct (decide (length v = length old)); [reflexivity | congruence]. }
    destruct (IH ag1) as (ag' & E & Hb & Ht).
    { intros q Hq. destruct (H q) as (w & Hw1 & Hw2 & Hw3); [now right |].
      exists w. repeat split; try assumption. unfold ag1; simpl.
      destruct (decide (q.2 = p.2)) as [Heq|Hne].
      - rewrite Heq, lookup_insert_eq. simpl. rewrite Heq in Hw2. congruence.
      - rewrite lookup_insert_ne by congruence. exact Hw3. }
    exists ag'. split; [| split].
    + simpl. rewrite (bind_Ok _ _ _ _ _ E1), (bind_Ok _ _ _ _ _ E). reflexivity.
    + rewrite Hb. reflexivity.
    + intros c. rewrite Ht, fmap_cons.
      destruct (decide (c ∈ m.*2)) as [Hc|Hc], (decide (c ∈ p.2 :: m.*2)) as [Hc'|Hc'];
        try reflexivity.
      * exfalso. apply Hc'. now right.
      * apply elem_of_cons in Hc' as [-> | Hc']; [| contradiction].
        unfold ag1. simpl. rewrite lookup_insert_eq. now rewrite Hsv.
      * unfold ag1. simpl. apply lookup_insert_ne. intros <-. apply Hc'. left.
Qed.

(** Loading what was saved from a module into the same module, whose
    tensors may hold other values of the same sizes by now. *)
Lemma load_state_dict_saved (ag0 ag : agent) (m : list (string * nat)) :
  well_formed ag0 m -> same_sizes ag0 ag m ->
  exists data ag', serialise ag0 m = Some data /\
    load_state_dict m data ag = (Ok tt, ag') /\
    but_tensors ag' = but_tensors ag /\
    forall c, tensors ag' !! c
              = if decide (c ∈ m.*2) then tensors ag0 !! c else tensors ag !! c.
Proof.
  intros [Hnd Hst] Hsz.
  destruct (serialise_stored ag0 m Hst) as (data & E & Hk & Hget).
  destruct (load_params_saved (tensors ag0) data m ag) as (ag' & El & Hb & Ht).
  { intros p Hp.
    destruct (proj1 (Forall_forall _ _) Hst p Hp) as [v Hv].
    exists v. split; [rewrite (Hget Hnd p Hp); exact Hv |]. split; [exact Hv |].
    rewrite (proj1 (Forall_forall _ _) Hsz p Hp), Hv. reflexivity. }
  exists data, ag'. split; [exact E |]. split; [| split; assumption].
  unfold load_state_dict. rewrite (bind_Ok _ _ _ _ _ El).
  rewrite bool_decide_eq_true_2; [reflexivity |].
  rewrite Hk. apply Forall_forall. auto.
Qed.

(** Saving one module. *)
Lemma torch_save_state_dict (fs : gmap string (list (string * list Q)))
    (path : string) (ag : agent) (m : list (string * nat))
    (data : list (string * list Q)) :
  serialise ag m = Some data ->
  (d ← state_dict m; torch_save fs d path) ag
  = (Ok (<[path := data]> fs),
     set_dicts (<[fresh (dom (dicts ag)) := m]> (dicts ag)) ag).
Proof.
  intros E. rewrite state_dict_bind. unfold torch_save.
  rewrite self_bind. simpl. rewrite lookup_insert_eq, lift_bind_Some.
  unfold serialise in *. simpl. rewrite E. reflexivity.
Qed.

Lemma model_paths_differ (file_path : string) (iteration : Z) :
  model_path file_path iteration ".pt" <> model_path file_path iteration "_target.pt".
Proof.
  unfold model_path. intros E.
  apply String.app_inj in E. apply String.app_inj in E.
  apply String.app_inj in E. discriminate.
Qed.

(** A module has the values it had in [ag] as soon as its tensors do. *)
Lemma parameter_values_agree (ag ag' : agent) (m : list (string * nat)) :
  (forall c, c ∈ m.*2 -> tensors ag' !! c = tensors ag !! c) ->
  parameter_values ag' m = parameter_values ag m.
Proof.
  intros H. unfold parameter_values. apply list_fmap_ext. intros i p Hp.
  apply H, list_elem_of_fmap. exists p. split; [reflexivity |].
  apply list_elem_of_lookup. eauto.
Qed.

(** X10.  [save_model] followed by [load_model] is a round trip.  On an
    agent whose networks have distinct parameter names and stored
    parameters, [save_model] returns and changes no attribute and no
    tensor.  Let the tensors then take other values of the same sizes
    (as training does); [load_model] with the same path and iteration,
    from the directory [save_model] left, returns, gives the live
    network (and the target network, when there is one) the parameter
    values it had when it was saved, and changes no other tensor and no
    attribute. *)
Theorem save_then_load_restores (fs : gmap string (list (string * list Q)))
    (file_path : string) (iteration : option Z) (ag ag' : agent)
    (m t : list (string * nat)) :
  _model ag = Some m -> well_formed ag m ->
  (_use_target_net ag = true -> _target_net ag = Some t /\ well_formed ag t) ->
  _use_target_net ag' = _use_target_net ag ->
  _model ag' = Some m -> same_sizes ag ag' m ->
  (_use_target_net ag = true -> _target_net ag' = Some t /\ same_sizes ag ag' t) ->
  let saved := save_model fs file_path iteration ag in
  let loaded := DeepQLearningAgent.load_model saved.2 file_path iteration ag' in
  saved.1.1 = Ok tt /\ but_dicts saved.1.2 = but_dicts ag /\
  loaded.1 = Ok tt /\ but_tensors loaded.2 = but_tensors ag' /\
  parameter_values loaded.2 m = parameter_values ag m /\
  (_use_target_net ag = true ->
   parameter_values loaded.2 t = parameter_values ag t) /\
  (forall c, c ∉ m.*2 -> (_use_target_net ag = true -> c ∉ t.*2) ->
   tensors loaded.2 !! c = tensors ag' !! c).
Proof.
  intros Hm Hwm Ht Hflag' Hm' Hsm Ht'. cbn zeta.
  destruct (load_state_dict_saved ag ag' m Hwm Hsm)
    as (dm & ag1' & Em & Elm & Hbm & Htm).
  assert (Ea : attr _model ag = (Ok m, ag)) by (unfold attr; now rewrite Hm).
  assert (Ea' : attr _model ag' = (Ok m, ag')) by (unfold attr; now rewrite Hm').
  assert (Hf1 : _use_target_net ag1' = _use_target_net ag).
  { rewrite <- Hflag'. exact (f_equal _use_target_net Hbm). }
  unfold save_model, DeepQLearningAgent.load_model. cbn zeta.
  set (it := default 0 iteration).
  rewrite (bind_Ok _ _ _ _ _ Ea), (torch_save_state_dict _ _ _ _ _ Em).
  set (ag1 := set_dicts _ ag).
  change (_use_target_net ag1) with (_use_target_net ag).
  destruct (_use_target_net ag) eqn:Hflag.
  - destruct (Ht eq_refl) as [Htn Hwt]. destruct (Ht' eq_refl) as [Htn' Hst].
    assert (Hst1 : same_sizes ag ag1' t).
    { apply Forall_forall. intros p Hp. rewrite Htm.
      destruct (decide _); [reflexivity | exact (proj1 (Forall_forall _ _) Hst p Hp)]. }
    destruct (load_state_dict_saved ag ag1' t Hwt Hst1)
      as (dt & ag2' & Et & Elt & Hbt & Htt).
    assert (Eb : attr _target_net ag1 = (Ok t, ag1))
      by (unfold attr; simpl; now rewrite Htn).
    assert (Eb' : attr _target_net ag1' = (Ok t, ag1')).
    { unfold attr.
      rewrite (f_equal _target_net Hbm : _target_net ag1' = _target_net ag').
      now rewrite Htn'. }
    rewrite (bind_Ok _ _ _ _ _ Eb), (torch_save_state_dict _ _ ag1 t dt Et).
    cbn [fst snd].
    set (files := <[model_path file_path it "_target.pt" := dt]>
                    (<[model_path file_path it ".pt" := dm]> fs)).
    assert (L1 : files !! model_path file_path it ".pt" = Some dm).
    { unfold files.
      rewrite lookup_insert_ne by (apply not_eq_sym, model_paths_differ).
      apply lookup_insert_eq. }
    assert (L2 : files !! model_path file_path it "_target.pt" = Some dt)
      by apply lookup_insert_eq.
    rewrite (bind_Ok _ _ _ _ _ Ea'). unfold torch_load.
    rewrite L1, lift_bind_Some, (bind_Ok _ _ _ _ _ Elm).
    rewrite self_bind, Hf1, (bind_Ok _ _ _ _ _ Eb').
    rewrite L2, lift_bind_Some, Elt. cbn [fst snd].
    split; [reflexivity |]. split; [reflexivity |]. split; [reflexivity |].
    split; [now rewrite Hbt |].
    split; [| split].
    + apply parameter_values_agree. intros c Hc. rewrite Htt, Htm.
      rewrite (decide_True (P := c ∈ m.*2)) by exact Hc.
      now destruct (decide _).
    + intros _. apply parameter_values_agree. intros c Hc. rewrite Htt.
      now rewrite decide_True by exact Hc.
    + intros c Hcm Hct. rewrite Htt, Htm.
      rewrite decide_False by (apply Hct; reflexivity).
      now rewrite decide_False by exact Hcm.
  - cbn [fst snd].
    rewrite (bind_Ok _ _ _ _ _ Ea'). unfold torch_load.
    rewrite lookup_insert_eq, lift_bind_Some, (bind_Ok _ _ _ _ _ Elm).
    rewrite self_bind, Hf1. cbn [fst snd].
    split; [reflexivity |]. split; [reflexivity |]. split; [reflexivity |].
    split; [exact Hbm |].
    split; [| split].
    + apply parameter_values_agree. intros c Hc. rewrite Htm.
      now rewrite decide_True by exact Hc.
    + discriminate.
    + intros c Hcm _. rewrite Htm. now rewrite decide_False by exact Hcm.
Qed.

Lemma save_then_load_restores_witness :
  let m := default [] (_model AgentExamples.dqn) in
  let t := default [] (_target_net AgentExamples.dqn) in
  let saved := save_model ∅ "models" (Some 3) AgentExamples.dqn in
  let loaded :=
    DeepQLearningAgent.load_model saved.2 "models" (Some 3)
      AgentExamples.dqn_trained in
  parameter_values AgentExamples.dqn_trained m = replicate 10 (Some [7%Q]) /\
  parameter_values AgentExamples.dqn m = replicate 10 (Some [1%Q]) /\
  saved.1.1 = Ok tt /\ loaded.1 = Ok tt /\
  parameter_values loaded.2 m = parameter_values AgentExamples.dqn m /\
  parameter_values loaded.2 t = parameter_values AgentExamples.dqn t.
Proof.
  cbn zeta.
  destruct (save_then_load_restores ∅ "models" (Some 3) AgentExamples.dqn
              AgentExamples.dqn_trained
              (default [] (_model AgentExamples.dqn))
              (default [] (_target_net AgentExamples.dqn)))
    as (S1 & _ & L1 & _ & L2 & L3 & _).
  - vm_compute; reflexivity.
  - split; apply (bool_decide_unpack _); vm_compute; exact I.
  - intros _. split; [vm_compute; reflexivity |].
    split; apply (bool_decide_unpack _); vm_compute; exact I.
  - vm_compute; reflexivity.
  - vm_compute; reflexivity.
  - apply (bool_decide_unpack _); vm_compute; exact I.
  - intros _. split; [vm_compute; reflexivity |].
    apply (bool_decide_unpack _); vm_compute; exact I.
  - split; [vm_compute; reflexivity |]. split; [vm_compute; reflexivity |].
    split; [exact S1 |]. split; [exact L1 |]. split; [exact L2 |].
    apply L3. vm_compute; reflexivity.
Defined.

End SaveLoad.

(** ** A load that fails partway *)

Section PartialLoad.
Import Torch Saving.

(** Loading a file that the module accepts overwrites every parameter
    with the tensor of the file. *)
Lemma load_state_dict_file (ag : agent) (m : list (string * nat))
    (sd : list (string * list Q)) :
  NoDup m.*2 -> loadable ag m sd ->
  exists ag',
    load_state_dict m sd ag = (Ok tt, ag') /\
    but_tensors ag' = but_tensors ag /\
    forall p, p ∈ m -> tensors ag' !! p.2 = assoc_get p.1 sd.
Proof.
  intros Hnd [Hnames Hparams].
  set (entries := (fun p : string * nat =>
                     (p.2, default [] (assoc_get p.1 sd))) <$> m).
  assert (Hkeys : entries.*1 = m.*2).
  { unfold entries. rewrite <- list_fmap_compose. reflexivity. }
  set (saved := list_to_map entries : gmap nat (list Q)).
  assert (Hsaved : forall p v, p ∈ m -> assoc_get p.1 sd = Some v ->
                               saved !! p.2 = Some v).
  { intros p v Hp Hv. apply elem_of_list_to_map_1; [now rewrite Hkeys |].
    apply list_elem_of_fmap. exists p. split; [now rewrite Hv | exact Hp]. }
  destruct (load_params_saved saved sd m ag) as (ag' & El & Hb & Ht).
  { intros p Hp.
    destruct (proj1 (Forall_forall _ _) Hparams p Hp) as ([old Hold] & Hlen).
    destruct (assoc_get p.1 sd) as [v|] eqn:Hv;
      [| rewrite Hold in Hlen; discriminate].
    exists v. split; [reflexivity |]. split; [now apply Hsaved |].
    now rewrite <- Hlen. }
  exists ag'. split; [| split; [exact Hb |]].
  - unfold load_state_dict. rewrite (bind_Ok _ _ _ _ _ El).
    now rewrite bool_decide_eq_true_2.
  - intros p Hp.
    destruct (proj1 (Forall_forall _ _) Hparams p Hp) as ([old Hold] & Hlen).
    destruct (assoc_get p.1 sd) as [v|] eqn:Hv;
      [| rewrite Hold in Hlen; discriminate].
    rewrite Ht, decide_True; [now apply Hsaved |].
    apply list_elem_of_fmap. now exists p.
Qed.

(** A network whose tensors are those of the file does not hold its
    prior parameters when the file differs from them. *)
Lemma overwritten_parameters (ag ag' : agent) (m : list (string * nat))
    (sd : list (string * list Q)) :
  (forall p, p ∈ m -> tensors ag' !! p.2 = assoc_get p.1 sd) ->
  (exists p, p ∈ m /\ tensors ag !! p.2 <> assoc_get p.1 sd) ->
  parameter_values ag' m <> parameter_values ag m.
Proof.
  intros Hnew (p & Hp & Hdiff) E. apply Hdiff. rewrite <- (Hnew p Hp).
  apply list_elem_of_lookup in Hp as [i Hi].
  apply (f_equal (fun l => l !! i)) in E. unfold parameter_values in E.
  rewrite !list_lookup_fmap, Hi in E. simpl in E. congruence.
Qed.

(** C9.  [load_model] reads the files one after the other into the live
    networks.  When the file of [_model] is present and loadable and the
    file read next is absent (that of the target network for the
    Q-learning agent with a target network, that of the full network for
    the actor-critic agent), [load_model] raises [FileNotFoundError]
    after it has overwritten every parameter of [_model] with the tensor
    of the file: whenever the file differs from the parameters the agent
    had, these are not intact after the failed load. *)
Theorem load_model_overwrites_then_fails
    (fs : gmap string (list (string * list Q))) (file_path : string)
    (iteration : option Z) (ag : agent) (m : list (string * nat))
    (sd : list (string * list Q)) :
  let path := model_path file_path (default 0 iteration) in
  let corrupted (loaded : result unit * agent) :=
    loaded.1 = Raise FileNotFoundError /\
    but_tensors loaded.2 = but_tensors ag /\
    (forall p, p ∈ m -> tensors loaded.2 !! p.2 = assoc_get p.1 sd) /\
    ((exists p, p ∈ m /\ tensors ag !! p.2 <> assoc_get p.1 sd) ->
     parameter_values loaded.2 m <> parameter_values ag m) in
  _model ag = Some m -> NoDup m.*2 ->
  fs !! path ".pt"%string = Some sd -> loadable ag m sd ->
  (_use_target_net ag = true -> is_Some (_target_net ag) ->
   fs !! path "_target.pt"%string = None ->
   corrupted (DeepQLearningAgent.load_model fs file_path iteration ag)) /\
  (is_Some (_full_model ag) -> fs !! path "_full.pt"%string = None ->
   corrupted (AdvantageActorCriticAgent.load_model fs file_path iteration ag)).
Proof.
  cbn zeta. intros Hm Hnd Hfile Hload.
  destruct (load_state_dict_file ag m sd Hnd Hload) as (ag' & El & Hb & Hnew).
  assert (Ea : attr _model ag = (Ok m, ag)) by (unfold attr; now rewrite Hm).
  split.
  - intros Hflag [t Ht] Hmiss.
    assert (E : DeepQLearningAgent.load_model fs file_path iteration ag
                = (Raise FileNotFoundError, ag')).
    { unfold DeepQLearningAgent.load_model. cbn zeta.
      rewrite (bind_Ok _ _ _ _ _ Ea). unfold torch_load.
      rewrite Hfile, lift_bind_Some, (bind_Ok _ _ _ _ _ El), self_bind.
      rewrite (f_equal _use_target_net Hb : _use_target_net ag' = _use_target_net ag).
      rewrite Hflag.
      assert (Et : attr _target_net ag' = (Ok t, ag')).
      { unfold attr.
        now rewrite (f_equal _target_net Hb : _target_net ag' = _target_net ag), Ht. }
      rewrite (bind_Ok _ _ _ _ _ Et).
      now rewrite Hmiss, lift_bind_None. }
    rewrite E. cbn [fst snd].
    split; [reflexivity |]. split; [exact Hb |]. split; [exact Hnew |].
    now apply overwritten_parameters.
  - intros [f Hf] Hmiss.
    assert (E : AdvantageActorCriticAgent.load_model fs file_path iteration ag
                = (Raise FileNotFoundError, ag')).
    { unfold AdvantageActorCriticAgent.load_model. cbn zeta.
      rewrite (bind_Ok _ _ _ _ _ Ea). unfold torch_load.
      rewrite Hfile, lift_bind_Some, (bind_Ok _ _ _ _ _ El).
      assert (Ef : attr _full_model ag' = (Ok f, ag')).
      { unfold attr.
        now rewrite (f_equal _full_model Hb : _full_model ag' = _full_model ag), Hf. }
      rewrite (bind_Ok _ _ _ _ _ Ef). unfold torch_load.
      now rewrite Hmiss, lift_bind_None. }
    rewrite E. cbn [fst snd].
    split; [reflexivity |]. split; [exact Hb |]. split; [exact Hnew |].
    now apply overwritten_parameters.
Qed.

Lemma load_model_overwrites_then_fails_witness :
  let m := default [] (_model AgentExamples.dqn) in
  let m' := default [] (_model AgentExamples.a2c) in
  let loaded :=
    DeepQLearningAgent.load_model AgentExamples.models_dir "models" None
      AgentExamples.dqn in
  let loaded' :=
    AdvantageActorCriticAgent.load_model AgentExamples.a2c_models_dir "models"
      None AgentExamples.a2c in
  (loaded.1 = Raise FileNotFoundError /\
   parameter_values AgentExamples.dqn m = replicate 10 (Some [1%Q]) /\
   parameter_values loaded.2 m <> parameter_values AgentExamples.dqn m) /\
  (loaded'.1 = Raise FileNotFoundError /\
   parameter_values AgentExamples.a2c m' = replicate 10 (Some [1%Q]) /\
   parameter_values loaded'.2 m' <> parameter_values AgentExamples.a2c m').
Proof.
  cbn zeta.
  destruct (load_model_overwrites_then_fails AgentExamples.models_dir "models"
              None AgentExamples.dqn (default [] (_model AgentExamples.dqn))
              AgentExamples.saved_fives) as [D _].
  { vm_compute; reflexivity. }
  { apply (bool_decide_unpack _); vm_compute; exact I. }
  { vm_compute; reflexivity. }
  { split; apply (bool_decide_unpack _); vm_compute; exact I. }
  destruct (load_model_overwrites_then_fails AgentExamples.a2c_models_dir
              "models" None AgentExamples.a2c
              (default [] (_model AgentExamples.a2c))
              AgentExamples.saved_a2c_fives) as [_ A].
  { vm_compute; reflexivity. }
  { apply (bool_decide_unpack _); vm_compute; exact I. }
  { vm_compute; reflexivity. }
  { split; apply (bool_decide_unpack _); vm_compute; exact I. }
  destruct D as (D1 & _ & _ & D2);
    [vm_compute; reflexivity | vm_compute; eauto | vm_compute; reflexivity |].
  destruct A as (A1 & _ & _ & A2);
    [vm_compute; eauto | vm_compute; reflexivity |].
  split; (split; [assumption |]); (split; [vm_compute; reflexivity |]).
  - apply D2. exists ("conv1.weight"%string, 0%nat).
    split; [apply (bool_decide_unpack _); vm_compute; exact I |].
    vm_compute. intros H. discriminate H.
  - apply A2. exists ("conv1.weight"%string, 0%nat).
    split; [apply (bool_decide_unpack _); vm_compute; exact I |].
    vm_compute. intros H. discriminate H.
Defined.

End PartialLoad.

(** ** The grid of point values *)

Section Grid.
Import Numpy BoardGrid.

(** The run of [_board_grid] for a board of positive size. *)
Lemma board_grid_run (S : nat) (h : gmap nat buffer) :
  (1 <= S)%nat ->
  _board_grid S h
  = (Some {| base := fresh (dom h); shape := [S; S]; strides := [S; 1%nat] |},
     <[fresh (dom h) :=
         {| buf_dtype := int_dtype;
            buf_data := (fun i : nat => XNum.of_Z (Z.of_nat i)) <$> seq 0 (S * S) |}]> h).
Proof.
  intros HS.
  assert (Hsq : (S ^ 2 = S * S)%nat) by (simpl; lia).
  assert (Hdiv : (S * S / S = S)%nat) by (apply Nat.div_mul; lia).
  assert (Hmod : ((S * S) mod S = 0)%nat) by apply Nat.Div0.mod_mul.
  unfold _board_grid, arange, new_array, reshape_infer, reshape, mbind, M_bind.
  rewrite Hsq. cbn [shape strides base prod c_strides foldr].
  rewrite !Nat.mul_1_r, Hdiv.
  destruct (decide _) as [_|n]; [| exfalso; apply n; split; [lia | exact Hmod]].
  destruct (decide _) as [_|n]; [| now exfalso].
  destruct (decide _) as [_|n]; [| now exfalso].
  reflexivity.
Qed.

(** X11.  For a board of size [S >= 1] the constructor's [_board_grid]
    is an integer array of shape S x S over a new buffer (no existing
    array changes), and its element at [(row, col)] is the point value
    [_row_col_to_point] gives for that row and column. *)
Theorem board_grid_points (S : nat) (h : gmap nat buffer) :
  (1 <= S)%nat ->
  let run := _board_grid S h in
  exists grid,
    run.1 = Some grid /\ h ⊆ run.2 /\ (base grid ∉ dom h) /\
    shape grid = [S; S] /\ dtype_of run.2 grid = Some int_dtype /\
    forall row col : nat, (row < S)%nat -> (col < S)%nat ->
      get run.2 grid [row; col]
      = Some (XNum.of_Z (Agent._row_col_to_point
                           (Z.of_nat S) (Z.of_nat row) (Z.of_nat col))).
Proof.
  intros HS. cbn zeta. rewrite (board_grid_run S h HS). cbn [fst snd].
  eexists. split; [reflexivity |]. cbn [base shape strides].
  pose proof (is_fresh (dom h)) as Hfresh.
  split; [| split; [exact Hfresh | split; [reflexivity | split]]].
  - apply insert_subseteq. now apply not_elem_of_dom.
  - unfold dtype_of. cbn [base]. now rewrite lookup_insert_eq.
  - intros row col Hr Hc. unfold get. cbn [base shape strides].
    rewrite lookup_insert_eq. cbn [mbind option_bind]. unfold read.
    cbn [in_range buf_data].
    rewrite !bool_decide_eq_true_2 by assumption. cbn [andb].
    unfold offset. cbn [zip_with foldr].
    rewrite list_lookup_fmap, lookup_seq_lt by nia.
    cbn [fmap option_fmap option_map]. f_equal. f_equal.
    unfold Agent._row_col_to_point. lia.
Qed.

Lemma board_grid_points_witness :
  exists grid,
    (_board_grid 3 ∅).1 = Some grid /\ ∅ ⊆ (_board_grid 3 ∅).2 /\
    (base grid ∉ dom (∅ : gmap nat buffer)) /\
    shape grid = [3; 3]%nat /\
    dtype_of (_board_grid 3 ∅).2 grid = Some int_dtype /\
    forall row col : nat, (row < 3)%nat -> (col < 3)%nat ->
      get (_board_grid 3 ∅).2 grid [row; col]
      = Some (XNum.of_Z (Agent._row_col_to_point 3 (Z.of_nat row) (Z.of_nat col))).
Proof. apply (board_grid_points 3 ∅). lia. Defined.

End Grid.

(** ** Shapes the networks accept *)

Section NetworkShapes.
Import Layers.

Lemma Linear_rows (in_features out_features b d : nat) :
  Linear in_features out_features [b; d]
  = if decide (d = in_features) then Some [b; out_features] else None.
Proof. reflexivity. Qed.

(** X12.  [DeepQCNN.forward] on a batch of [b >= 1] square boards with
    [n] frames of size [s] x [s], the layout [_prepare_input] produces,
    returns a tensor of shape b x 4 when [n = 2] and [s = 10], and
    raises an error for every other number of frames and board size. *)
Theorem DeepQCNN_forward_shape (b n s : nat) :
  (1 <= b)%nat ->
  DeepQCNN.forward [b; n; s; s]
  = if decide (n = 2 /\ s = 10)%nat then Some [b; 4%nat] else None.
Proof.
  intros _. unfold DeepQCNN.forward, Conv2d.
  destruct (decide (n = 2 /\ s = 10)%nat) as [[-> ->] | Hne]; [reflexivity |].
  destruct (decide (n = 2 /\ 3 <= s /\ 3 <= s)%nat) as [(-> & H1 & _) |];
    [| reflexivity].
  cbn [mbind option_bind].
  destruct (decide (16 = 16 /\ 3 <= s - 3 + 1 /\ 3 <= s - 3 + 1)%nat)
    as [(_ & H2 & _) |]; [| reflexivity].
  cbn [mbind option_bind].
  destruct (decide (32 = 32 /\ 5 <= s - 3 + 1 - 3 + 1 /\ 5 <= s - 3 + 1 - 3 + 1)%nat)
    as [(_ & H3 & _) |]; [| reflexivity].
  cbn [mbind option_bind Flatten]. rewrite Linear_rows.
  destruct (decide _) as [E |]; [| reflexivity].
  exfalso. apply Hne. split; [reflexivity |].
  cbn [Numpy.prod foldr] in E.
  assert (Hs : (s - 3 + 1 - 3 + 1 - 5 + 1 = s - 8)%nat) by lia.
  rewrite Hs in E. assert ((s - 8) * (s - 8) = 4)%nat by lia.
  assert (s - 8 = 2)%nat by nia. lia.
Qed.

Lemma DeepQCNN_forward_shape_witness :
  DeepQCNN.forward [32; 2; 10; 10]%nat = Some [32; 4]%nat.
Proof. apply (DeepQCNN_forward_shape 32 2 10). lia. Defined.

(** X13.  [AAC_CNN.forward] on a batch of [b >= 1] square boards with
    [n] frames of size [s] x [s] raises an error unless [n = 2] and
    [s = 10]; for these it returns the logits, of shape b x 4, in mode
    "logits", the state values, of shape b x 1, in mode "values", and
    the pair of both in mode "full". *)
Theorem AAC_CNN_forward_shape (b n s : nat) :
  (1 <= b)%nat ->
  let accepted (out : AAC_CNN.output) :=
    if decide (n = 2 /\ s = 10)%nat then Some out else None in
  AAC_CNN.forward "logits" [b; n; s; s] = accepted (AAC_CNN.Tensor [b; 4%nat]) /\
  AAC_CNN.forward "values" [b; n; s; s] = accepted (AAC_CNN.Tensor [b; 1%nat]) /\
  AAC_CNN.forward "full" [b; n; s; s]
    = accepted (AAC_CNN.Pair [b; 4%nat] [b; 1%nat]).
Proof.
  intros _. cbn zeta. unfold AAC_CNN.forward, Conv2d.
  destruct (decide (n = 2 /\ s = 10)%nat) as [[-> ->] | Hne];
    [repeat split; reflexivity |].
  destruct (decide (n = 2 /\ 3 <= s /\ 3 <= s)%nat) as [(-> & H1 & _) |];
    [| repeat split; reflexivity].
  cbn [mbind option_bind].
  destruct (decide (16 = 16 /\ 3 <= s - 3 + 1 /\ 3 <= s - 3 + 1)%nat)
    as [(_ & H2 & _) |]; [| repeat split; reflexivity].
  cbn [mbind option_bind Flatten]. rewrite Linear_rows.
  destruct (decide (Numpy.prod _ = 1152%nat)) as [E |]; [| repeat split; reflexivity].
  exfalso. apply Hne. split; [reflexivity |].
  cbn [Numpy.prod foldr] in E.
  assert (Hs : (s - 3 + 1 - 3 + 1 = s - 4)%nat) by lia.
  rewrite Hs in E. assert ((s - 4) * (s - 4) = 36)%nat by lia.
  assert (s - 4 = 6)%nat by nia. lia.
Qed.

Lemma AAC_CNN_forward_shape_witness :
  AAC_CNN.forward "logits" [32; 2; 10; 10]%nat = Some (AAC_CNN.Tensor [32; 4]%nat) /\
  AAC_CNN.forward "values" [32; 2; 10; 10]%nat = Some (AAC_CNN.Tensor [32; 1]%nat) /\
  AAC_CNN.forward "full" [32; 2; 10; 10]%nat
    = Some (AAC_CNN.Pair [32; 4]%nat [32; 1]%nat).
Proof. apply (AAC_CNN_forward_shape 32 2 10). lia. Defined.

End NetworkShapes.

(** ** The actor-critic trainer *)

Section ActorCriticTrainer.
Import XNum Torch ActorCriticTraining.

Context {boards prepared buffer : Type}.
Variable get_current_size : buffer -> nat.
Variable draw : buffer -> nat -> DeepQLearningAgent.batch boards.
Variable _prepare_input : boards -> result prepared.
Variable normalize : list xnum -> result (list xnum).
Variable values_network : list (list Q) -> prepared -> option (list xnum).
Variable full_network :
  list (list Q) -> prepared -> option (list (list xnum) * list xnum).
Variable actor : list (list xnum) -> list (list xnum) -> Q -> Z -> xnum.
Variable gradient :
  Q -> Z -> list (list Q) -> prepared -> list (list xnum) -> list xnum
  -> list (list Q).
Variable rmsprop : list Q -> list Q -> option (list Q) -> list Q * list Q.

Lemma frame_of_result {A : Type} (view : agent -> agent) (x : result A) :
  frame view (of_result x).
Proof. intros ag. reflexivity. Qed.

Lemma frame_values_call (model : list (string * nat)) (x : prepared) :
  frame (fun x => x) (values_call values_network model x).
Proof. unfold values_call. auto 10 with frames. Qed.

Lemma frame_full_call (model : list (string * nat)) (x : prepared) :
  frame (fun x => x) (full_call full_network model x).
Proof. unfold full_call. auto 10 with frames. Qed.

Lemma frame_zero_grad (opt : list nat) :
  frame but_grads (DeepQLearningAgent.zero_grad opt).
Proof.
  unfold DeepQLearningAgent.zero_grad. apply frame_for_each. intros l.
  apply frame_bind; [apply frame_self |]. intros ag.
  apply frame_modify. reflexivity.
Qed.

Lemma local_step_cons (l0 : nat) (opt : list nat) (ag : agent) :
  local_step rmsprop (l0 :: opt) ag
  = match grads ag !! l0, tensors ag !! l0 with
    | Some g, Some p =>
        local_step rmsprop opt
          (set_tensors (<[l0 := (rmsprop p g None).1]> (tensors ag)) ag)
    | _, _ => local_step rmsprop opt ag
    end.
Proof.
  unfold local_step. cbn [for_each]. unfold mbind, T_bind, self.
  destruct (grads ag !! l0), (tensors ag !! l0); reflexivity.
Qed.

(** The step of the trainer's own optimiser writes the tensors of its
    parameters only. *)
Lemma local_step_outside (opt : list nat) :
  forall ag : agent,
  but_tensors (local_step rmsprop opt ag).2 = but_tensors ag /\
  forall l, l ∉ opt ->
    tensors (local_step rmsprop opt ag).2 !! l = tensors ag !! l.
Proof.
  induction opt as [|l0 opt IH]; intros ag.
  - split; [reflexivity |]. intros l _. reflexivity.
  - rewrite local_step_cons.
    destruct (grads ag !! l0) as [g|], (tensors ag !! l0) as [p|];
      try (destruct (IH ag) as [H1 H2]; split; [exact H1 |];
           intros l Hl; apply H2; apply not_elem_of_cons in Hl; tauto).
    destruct (IH (set_tensors (<[l0 := (rmsprop p g None).1]> (tensors ag)) ag))
      as [H1 H2].
    split; [rewrite H1; reflexivity |].
    intros l Hl. apply not_elem_of_cons in Hl as [Hne Hl].
    rewrite (H2 l Hl). simpl. now apply lookup_insert_ne.
Qed.

Lemma but_grads_attributes (x y : agent) :
  but_grads x = but_grads y ->
  but_grads (but_tensors x) = but_grads (but_tensors y) /\ tensors x = tensors y.
Proof.
  intros H. split; [| exact (f_equal tensors H)].
  change (but_tensors (but_grads x) = but_tensors (but_grads y)). now rewrite H.
Qed.

(** A training call, whether it returns or raises, changes no attribute
    of the agent and no tensor other than the parameters of the full
    network. *)
Lemma train_agent_outside (_buffer : buffer) (beta : Q) (normalize_rewards : bool)
    (num_games : Z) (reward_clip : bool) (ag : agent) :
  let trained :=
    train_agent get_current_size draw _prepare_input normalize values_network
      full_network actor gradient rmsprop _buffer beta normalize_rewards
      num_games reward_clip ag in
  but_grads (but_tensors trained.2) = but_grads (but_tensors ag) /\
  forall l, (forall f, _full_model ag = Some f -> l ∉ f.*2) ->
    tensors trained.2 !! l = tensors ag !! l.
Proof.
  cbn zeta.
  set (P := fun res : result (list xnum) * agent =>
              but_grads (but_tensors res.2) = but_grads (but_tensors ag) /\
              forall l, (forall f, _full_model ag = Some f -> l ∉ f.*2) ->
                tensors res.2 !! l = tensors ag !! l).
  assert (Hraise : forall e, P (Raise e, ag)) by (intros e; split; auto).
  enough (HP : P (train_agent get_current_size draw _prepare_input normalize
                    values_network full_network actor gradient rmsprop _buffer
                    beta normalize_rewards num_games reward_clip ag))
    by exact HP.
  unfold train_agent.
  apply bind_readonly; [apply frame_sample | exact Hraise |]. intros b _.
  apply bind_readonly; [apply frame_of_result | exact Hraise |]. intros sp _.
  apply bind_readonly; [apply frame_of_result | exact Hraise |]. intros nsp _.
  apply bind_readonly;
    [destruct normalize_rewards; [apply frame_of_result | apply frame_ret]
    | exact Hraise |].
  intros r _.
  apply bind_readonly; [apply frame_self | exact Hraise |]. intros ag' Eag.
  injection Eag as <-.
  apply bind_readonly;
    [destruct (_use_target_net ag); apply frame_attr | exact Hraise |].
  intros next_model _.
  apply bind_readonly; [apply frame_values_call | exact Hraise |]. intros nspred _.
  apply bind_readonly; [apply frame_attr | exact Hraise |]. intros vm _.
  apply bind_readonly; [apply frame_values_call | exact Hraise |]. intros spred _.
  apply bind_readonly; [apply frame_lift | exact Hraise |]. intros fr _.
  apply bind_readonly; [apply frame_lift | exact Hraise |]. intros adv _.
  apply bind_readonly; [apply frame_lift | exact Hraise |]. intros ct _.
  apply bind_readonly; [apply frame_attr | exact Hraise |]. intros f Ef.
  assert (Hf : _full_model ag = Some f).
  { unfold attr in Ef.
    destruct (_full_model ag) as [f0|]; [injection Ef as -> | discriminate].
    reflexivity. }
  apply bind_readonly; [apply frame_full_call | exact Hraise |]. intros out _.
  apply bind_readonly;
    [unfold RMSprop; destruct (decide _); [apply frame_raise | apply frame_ret]
    | exact Hraise |].
  intros opt Eopt.
  assert (Hopt : opt = f.*2).
  { unfold RMSprop in Eopt.
    destruct (decide _); [discriminate | injection Eopt as <-]. reflexivity. }
  subst opt.
  apply bind_readonly; [apply frame_lift | exact Hraise |]. intros critic _.
  cbn zeta.
  pose proof (but_grads_attributes _ _ (frame_zero_grad f.*2 ag)) as [Hz Hzt].
  destruct (DeepQLearningAgent.zero_grad f.*2 ag) as [[u|e] ag1] eqn:Ez;
    cbn [snd] in Hz, Hzt.
  2: { rewrite (bind_Raise _ _ _ _ _ Ez). split; cbn [snd]; [exact Hz |].
       intros l _. now rewrite Hzt. }
  rewrite (bind_Ok _ _ _ _ _ Ez).
  set (g := fun (values : list (list Q)) (x : prepared) (a : list (list xnum)) =>
              gradient beta num_games values x a ct).
  pose proof (but_grads_attributes _ _ (proj1 (backward_frame g f sp adv ag1)))
    as [Hb Hbt].
  destruct (DeepQLearningAgent.backward g f sp adv ag1) as [[u'|e] ag2] eqn:Eb;
    cbn [snd] in Hb, Hbt.
  2: { rewrite (bind_Raise _ _ _ _ _ Eb). split; cbn [snd]; [congruence |].
       intros l _. now rewrite Hbt, Hzt. }
  rewrite (bind_Ok _ _ _ _ _ Eb).
  destruct (local_step_outside f.*2 ag2) as [Hs Hl].
  apply (f_equal but_grads) in Hs.
  assert (Hend : forall res : result (list xnum),
             P (res, (local_step rmsprop f.*2 ag2).2)).
  { intros res. split; cbn [snd]; [congruence |]. intros l Hout.
    rewrite (Hl l (Hout f Hf)). now rewrite Hbt, Hzt. }
  destruct (local_step rmsprop f.*2 ag2) as [[u''|e] ag3] eqn:Es.
  - rewrite (bind_Ok _ _ _ _ _ Es). apply Hend.
  - rewrite (bind_Raise _ _ _ _ _ Es). apply Hend.
Qed.

End ActorCriticTrainer.

Section ActorCriticModels.
Import XNum Torch AdvantageActorCriticAgent.

(** The three networks [_agent_model] returns take cells that were not
    in use, and the full network shares no cell with the other two. *)
Lemma actor_critic_agent_model_spec (init_logits init_full init_values : list (list Q))
    (ag : agent) :
  exists (m f v : list (string * nat)) (ag' : agent),
    _agent_model init_logits init_full init_values ag = (Ok (m, f, v), ag') /\
    but_tensors ag' = but_tensors ag /\
    (forall l, l ∈ v.*2 -> l ∉ dom (tensors ag)) /\
    (forall l, l ∈ f.*2 -> l ∈ dom (tensors ag')) /\
    (forall l, l ∈ f.*2 -> (l ∉ m.*2) /\ (l ∉ v.*2)).
Proof.
  destruct (new_module_spec AAC_CNN_names init_logits ag)
    as (m & ag1 & E1 & B1 & D1 & L1).
  destruct (new_module_spec AAC_CNN_names init_values ag1)
    as (v & ag2 & E2 & B2 & D2 & L2).
  destruct (new_module_spec AAC_CNN_names init_full ag2)
    as (f & ag3 & E3 & B3 & D3 & L3).
  exists m, f, v, ag3. unfold _agent_model.
  rewrite (bind_Ok _ _ _ _ _ E1), (bind_Ok _ _ _ _ _ E2), (bind_Ok _ _ _ _ _ E3).
  split; [reflexivity |]. split; [congruence |].
  split; [| split].
  - intros l Hl Hin. apply (proj1 (L2 l Hl)). now apply D1.
  - intros l Hl. exact (proj2 (L3 l Hl)).
  - intros l Hl. destruct (L3 l Hl) as [Hnot _]. split; intros Hin; apply Hnot.
    + apply D2. exact (proj2 (L1 l Hin)).
    + exact (proj2 (L2 l Hin)).
Qed.

(** After [reset_models] the full network shares no parameter with the
    network [move] reads, the value network, or the target network. *)
Lemma reset_models_separate
    (init1 init2 : list (list Q) * list (list Q) * list (list Q))
    (use_target_net : bool) (gamma : Q) :
  let ag := (reset_models init1 init2
               (DeepQLearningAgent.blank use_target_net gamma)).2 in
  exists m f v : list (string * nat),
    _model ag = Some m /\ _full_model ag = Some f /\ _values_model ag = Some v /\
    forall l, l ∈ f.*2 ->
      (l ∉ m.*2) /\ (l ∉ v.*2) /\
      forall t, _target_net ag = Some t -> l ∉ t.*2.
Proof.
  cbn zeta. unfold reset_models.
  destruct (actor_critic_agent_model_spec init1.1.1 init1.1.2 init1.2
              (DeepQLearningAgent.blank use_target_net gamma))
    as (m & f & v & ag1 & E1 & B1 & _ & D1 & S1).
  rewrite (bind_Ok _ _ _ _ _ E1). rewrite !modify_bind, self_bind. cbn [fst snd].
  set (ag1' := set_values_model (Some v)
                 (set_full_model (Some f) (set_model (Some m) ag1))).
  change (_use_target_net ag1') with (_use_target_net ag1).
  rewrite (f_equal _use_target_net B1 : _use_target_net ag1 = use_target_net).
  exists m, f, v. destruct use_target_net.
  - destruct (actor_critic_agent_model_spec init2.1.1 init2.1.2 init2.2 ag1')
      as (m2 & f2 & v2 & ag2 & E2 & B2 & N2 & _ & _).
    rewrite (bind_Ok _ _ _ _ _ E2), modify_bind. cbn [fst snd].
    pose proof (proj2 frame_update_target_net (set_target_net (Some v2) ag2)) as Hfr.
    set (ag3 := (update_target_net (set_target_net (Some v2) ag2)).2) in *.
    unfold but_dicts in Hfr.
    pose proof (f_equal _model Hfr) as F1.
    pose proof (f_equal _full_model Hfr) as F2.
    pose proof (f_equal _values_model Hfr) as F3.
    pose proof (f_equal _target_net Hfr) as F4.
    pose proof (f_equal _model B2) as G1.
    pose proof (f_equal _full_model B2) as G2.
    pose proof (f_equal _values_model B2) as G3.
    simpl in F1, F2, F3, F4, G1, G2, G3.
    split; [congruence |]. split; [congruence |]. split; [congruence |].
    intros l Hl. destruct (S1 l Hl) as [Hm Hv].
    split; [exact Hm |]. split; [exact Hv |].
    intros t Ht. rewrite F4 in Ht. injection Ht as <-.
    intros Hin. apply (N2 l Hin). exact (D1 l Hl).
  - pose proof (f_equal _target_net B1) as G4. simpl in G4.
    split; [reflexivity |]. split; [reflexivity |]. split; [reflexivity |].
    intros l Hl. destruct (S1 l Hl) as [Hm Hv].
    split; [exact Hm |]. split; [exact Hv |].
    intros t Ht. simpl in Ht. congruence.
Qed.

End ActorCriticModels.

Section ActorCriticTrainerBinding.
Import XNum Torch ActorCriticTraining.

(** An agent whose full network shares no parameter with its other
    networks keeps the parameters of these through a training call. *)
Lemma separate_full_model_trained
    (boards prepared buffer : Type) (get_current_size : buffer -> nat)
    (draw : buffer -> nat -> DeepQLearningAgent.batch boards)
    (_prepare_input : boards -> result prepared)
    (normalize : list xnum -> result (list xnum))
    (values_network : list (list Q) -> prepared -> option (list xnum))
    (full_network :
       list (list Q) -> prepared -> option (list (list xnum) * list xnum))
    (actor : list (list xnum) -> list (list xnum) -> Q -> Z -> xnum)
    (gradient :
       Q -> Z -> list (list Q) -> prepared -> list (list xnum) -> list xnum
       -> list (list Q))
    (rmsprop : list Q -> list Q -> option (list Q) -> list Q * list Q)
    (_buffer : buffer) (beta : Q) (normalize_rewards : bool) (num_games : Z)
    (reward_clip : bool) (ag : agent) :
  (exists m f v : list (string * nat),
     _model ag = Some m /\ _full_model ag = Some f /\ _values_model ag = Some v /\
     forall l, l ∈ f.*2 ->
       (l ∉ m.*2) /\ (l ∉ v.*2) /\
       forall t, _target_net ag = Some t -> l ∉ t.*2) ->
  let trained :=
    train_agent get_current_size draw _prepare_input normalize values_network
      full_network actor gradient rmsprop _buffer beta normalize_rewards
      num_games reward_clip ag in
  but_grads (but_tensors trained.2) = but_grads (but_tensors ag) /\
  parameter_values trained.2 <$> _model trained.2
    = parameter_values ag <$> _model ag /\
  parameter_values trained.2 <$> _values_model trained.2
    = parameter_values ag <$> _values_model ag /\
  parameter_values trained.2 <$> _target_net trained.2
    = parameter_values ag <$> _target_net ag.
Proof.
  intros (m & f & v & Hm & Hf & Hv & Hsep) trained.
  destruct (train_agent_outside get_current_size draw _prepare_input normalize
              values_network full_network actor gradient rmsprop _buffer beta
              normalize_rewards num_games reward_clip ag) as [Hattr Hout].
  fold trained in Hattr, Hout. clearbody trained.
  assert (Hkeep : forall k : list (string * nat),
             (forall l, l ∈ f.*2 -> l ∉ k.*2) ->
             parameter_values trained.2 k = parameter_values ag k).
  { intros k Hk. apply parameter_values_agree. intros c Hc. apply Hout.
    intros f' Hf'. rewrite Hf in Hf'. injection Hf' as <-.
    intros Hin. exact (Hk c Hin Hc). }
  split; [exact Hattr |].
  rewrite (f_equal _model Hattr : _model trained.2 = _model ag).
  rewrite (f_equal _values_model Hattr : _values_model trained.2 = _values_model ag).
  rewrite (f_equal _target_net Hattr : _target_net trained.2 = _target_net ag).
  rewrite Hm, Hv. cbn [fmap option_fmap option_map].
  split; [f_equal; apply Hkeep; intros l Hl; exact (proj1 (Hsep l Hl)) |].
  split; [f_equal; apply Hkeep; intros l Hl; exact (proj1 (proj2 (Hsep l Hl))) |].
  destruct (_target_net ag) as [t|] eqn:Ht; [| reflexivity].
  cbn [fmap option_fmap option_map]. f_equal. apply Hkeep.
  intros l Hl. exact (proj2 (proj2 (Hsep l Hl)) t eq_refl).
Qed.

(** X14.  Whatever the replay buffer, the preprocessing, the networks,
    the loss, its gradients and the update rule, a training call on an
    actor-critic agent as [reset_models] leaves it, with or without
    target network, changes no attribute of the agent and no parameter
    of [_model] (the network [move] reads), or of [_values_model], or
    of [_target_net]: the optimiser of [train_agent] is built over the
    parameters of [_full_model], which is a network of its own. *)
Theorem actor_critic_trains_full_model_only
    (boards prepared buffer : Type) (get_current_size : buffer -> nat)
    (draw : buffer -> nat -> DeepQLearningAgent.batch boards)
    (_prepare_input : boards -> result prepared)
    (normalize : list xnum -> result (list xnum))
    (values_network : list (list Q) -> prepared -> option (list xnum))
    (full_network :
       list (list Q) -> prepared -> option (list (list xnum) * list xnum))
    (actor : list (list xnum) -> list (list xnum) -> Q -> Z -> xnum)
    (gradient :
       Q -> Z -> list (list Q) -> prepared -> list (list xnum) -> list xnum
       -> list (list Q))
    (rmsprop : list Q -> list Q -> option (list Q) -> list Q * list Q)
    (use_target_net : bool) (gamma : Q)
    (init1 init2 : list (list Q) * list (list Q) * list (list Q))
    (_buffer : buffer) (beta : Q) (normalize_rewards : bool) (num_games : Z)
    (reward_clip : bool) :
  let ag := (AdvantageActorCriticAgent.reset_models init1 init2
               (DeepQLearningAgent.blank use_target_net gamma)).2 in
  let trained :=
    train_agent get_current_size draw _prepare_input normalize values_network
      full_network actor gradient rmsprop _buffer beta normalize_rewards
      num_games reward_clip ag in
  but_grads (but_tensors trained.2) = but_grads (but_tensors ag) /\
  parameter_values trained.2 <$> _model trained.2
    = parameter_values ag <$> _model ag /\
  parameter_values trained.2 <$> _values_model trained.2
    = parameter_values ag <$> _values_model ag /\
  parameter_values trained.2 <$> _target_net trained.2
    = parameter_values ag <$> _target_net ag.
Proof.
  intros ag.
  exact (separate_full_model_trained boards prepared buffer get_current_size
           draw _prepare_input normalize values_network full_network actor
           gradient rmsprop _buffer beta normalize_rewards num_games
           reward_clip ag
           (reset_models_separate init1 init2 use_target_net gamma)).
Qed.

(** On a sample of two stored transitions, with a gradient of 1 for
    every parameter of the full network: the call returns the three
    losses, the parameters of the full network go from 1 to 0, and those
    of the network [move] reads still hold 1. *)
Example actor_critic_train_agent_runs :
  let trained :=
    train_agent AgentExamples.toy_size AgentExamples.toy_draw Ok Ok
      AgentExamples.toy_values_network AgentExamples.toy_full_network
      AgentExamples.toy_actor AgentExamples.toy_full_gradient
      AgentExamples.toy_rmsprop AgentExamples.toy_buffer (1 # 1000) false 1
      false AgentExamples.a2c in
  (exists loss critic, trained.1 = Ok [Fin loss; Fin 0; Fin critic]) /\
  parameter_values AgentExamples.a2c <$> _full_model AgentExamples.a2c
    = Some (replicate 10 (Some [1%Q])) /\
  parameter_values trained.2 <$> _full_model trained.2
    = Some (replicate 10 (Some [0%Q])) /\
  parameter_values trained.2 <$> _model trained.2
    = Some (replicate 10 (Some [1%Q])).
Proof.
  vm_compute. split; [do 2 eexists; reflexivity | repeat split].
Qed.

End ActorCriticTrainerBinding.

(** ** Saving and loading the models of the actor-critic agent *)

Section ActorCriticSaveLoad.
Import Torch Saving ActorCriticSaving.

Lemma model_paths_distinct (file_path : string) (iteration : Z)
    (suffix suffix' : string) :
  suffix <> suffix' ->
  model_path file_path iteration suffix <> model_path file_path iteration suffix'.
Proof.
  unfold model_path. intros Hne E. apply Hne.
  apply String.app_inj in E. apply String.app_inj in E.
  now apply String.app_inj in E.
Qed.

(** One file is written when the network exists and its parameters are
    stored. *)
Lemma then_save_one (field : agent -> option (list (string * nat)))
    (suffix file_path : string) (iteration : Z)
    (fs : gmap string (list (string * list Q))) (ag : agent)
    (m : list (string * nat)) (data : list (string * list Q)) :
  field ag = Some m -> serialise ag m = Some data ->
  then_save (Ok tt, ag, fs) (save_one field suffix file_path iteration)
  = (Ok tt, set_dicts (<[fresh (dom (dicts ag)) := m]> (dicts ag)) ag,
     <[model_path file_path iteration suffix := data]> fs).
Proof.
  intros Hm E. unfold then_save, save_one.
  assert (Ea : attr field ag = (Ok m, ag)) by (unfold attr; now rewrite Hm).
  now rewrite (bind_Ok _ _ _ _ _ Ea), (torch_save_state_dict _ _ _ _ _ E).
Qed.

(** One file that was saved from [ag0] is loaded into the network it
    was saved from. *)
Lemma load_one_saved (ag0 ag agk : agent) (cells : list nat)
    (field : agent -> option (list (string * nat))) (m : list (string * nat))
    (fs : gmap string (list (string * list Q))) (path : string)
    (data : list (string * list Q)) :
  restored cells ag0 ag agk ->
  (forall x y, but_tensors x = but_tensors y -> field x = field y) ->
  field ag = Some m -> well_formed ag0 m -> same_sizes ag0 ag m ->
  serialise ag0 m = Some data -> fs !! path = Some data ->
  exists agk',
    (forall (B : Type) (k : unit -> T B),
       (attr field ≫= fun model =>
          torch_load fs path ≫= fun sd => load_state_dict model sd ≫= k) agk
       = k tt agk') /\
    restored (m.*2 ++ cells) ag0 ag agk'.
Proof.
  intros [Hb Ht] Hfield Hm Hwf Hsz E Hfs.
  assert (Hszk : same_sizes ag0 agk m).
  { apply Forall_forall. intros p Hp. rewrite Ht.
    destruct (decide _); [reflexivity | exact (proj1 (Forall_forall _ _) Hsz p Hp)]. }
  destruct (load_state_dict_saved ag0 agk m Hwf Hszk)
    as (data' & agk' & E' & El & Hb' & Ht').
  assert (data' = data) as -> by congruence.
  exists agk'. split.
  - intros B k.
    assert (Ea : attr field agk = (Ok m, agk)).
    { unfold attr. now rewrite (Hfield agk ag Hb), Hm. }
    rewrite (bind_Ok _ _ _ _ _ Ea). unfold torch_load.
    now rewrite Hfs, lift_bind_Some, (bind_Ok _ _ _ _ _ El).
  - split; [congruence |]. intros c. rewrite Ht', Ht.
    destruct (decide (c ∈ m.*2)) as [H1|H1], (decide (c ∈ cells)) as [H2|H2],
      (decide (c ∈ m.*2 ++ cells)) as [H3|H3]; try reflexivity;
      exfalso; rewrite elem_of_app in H3; tauto.
Qed.

Lemma restored_parameter_values (cells : list nat) (ag0 ag ag' : agent)
    (m : list (string * nat)) :
  restored cells ag0 ag ag' -> (forall c, c ∈ m.*2 -> c ∈ cells) ->
  parameter_values ag' m = parameter_values ag0 m.
Proof.
  intros [_ Ht] Hin. apply parameter_values_agree. intros c Hc.
  rewrite Ht. now rewrite decide_True by auto.
Qed.

Lemma restored_nothing (ag0 ag : agent) : restored [] ag0 ag ag.
Proof.
  split; [reflexivity |]. intros c.
  destruct (decide _) as [H|]; [now apply elem_of_nil in H | reflexivity].
Qed.

(** X15.  [save_model] followed by [load_model] is a round trip for the
    actor-critic agent as well.  On an agent whose networks have
    distinct parameter names and stored parameters, [save_model] returns
    and changes no attribute and no tensor.  Let the tensors then take
    other values of the same sizes; [load_model] with the same path and
    iteration, from the directory [save_model] left, returns, changes no
    attribute, and gives [_model] and [_full_model] (and with a target
    network [_values_model] and [_target_net]) the parameter values they
    had when they were saved. *)
Theorem actor_critic_files_round_trip
    (fs : gmap string (list (string * list Q)))
    (file_path : string) (iteration : option Z) (ag ag' : agent)
    (m f v t : list (string * nat)) :
  _model ag = Some m -> _full_model ag = Some f ->
  well_formed ag m -> well_formed ag f ->
  (_use_target_net ag = true ->
   _values_model ag = Some v /\ _target_net ag = Some t /\
   well_formed ag v /\ well_formed ag t) ->
  but_tensors ag' = but_tensors ag ->
  same_sizes ag ag' m -> same_sizes ag ag' f ->
  (_use_target_net ag = true -> same_sizes ag ag' v /\ same_sizes ag ag' t) ->
  let saved := save_model fs file_path iteration ag in
  let loaded :=
    AdvantageActorCriticAgent.load_model saved.2 file_path iteration ag' in
  saved.1.1 = Ok tt /\ but_dicts saved.1.2 = but_dicts ag /\
  loaded.1 = Ok tt /\ but_tensors loaded.2 = but_tensors ag' /\
  parameter_values loaded.2 m = parameter_values ag m /\
  parameter_values loaded.2 f = parameter_values ag f /\
  (_use_target_net ag = true ->
   parameter_values loaded.2 v = parameter_values ag v /\
   parameter_values loaded.2 t = parameter_values ag t).
Proof.
  intros Hm Hf Hwm Hwf Htarget Hattr Hsm Hsf Hstarget. cbn zeta.
  destruct (serialise_stored ag m (proj2 Hwm)) as (dm & Em & _).
  destruct (serialise_stored ag f (proj2 Hwf)) as (df & Ef & _).
  assert (Fm : forall x y, but_tensors x = but_tensors y -> _model x = _model y)
    by (intros x y H; exact (f_equal _model H)).
  assert (Ff : forall x y, but_tensors x = but_tensors y ->
                           _full_model x = _full_model y)
    by (intros x y H; exact (f_equal _full_model H)).
  assert (Fv : forall x y, but_tensors x = but_tensors y ->
                           _values_model x = _values_model y)
    by (intros x y H; exact (f_equal _values_model H)).
  assert (Ft : forall x y, but_tensors x = but_tensors y ->
                           _target_net x = _target_net y)
    by (intros x y H; exact (f_equal _target_net H)).
  assert (Hm' : _model ag' = Some m) by (rewrite (Fm _ _ Hattr); exact Hm).
  assert (Hf' : _full_model ag' = Some f) by (rewrite (Ff _ _ Hattr); exact Hf).
  unfold save_model, AdvantageActorCriticAgent.load_model. cbn zeta.
  set (it := default 0 iteration).
  rewrite (then_save_one _model ".pt" file_path it fs ag m dm Hm Em).
  set (ag1 := set_dicts _ ag).
  rewrite (then_save_one _full_model "_full.pt" file_path it _ ag1 f df Hf Ef).
  set (ag2 := set_dicts _ ag1).
  change (_use_target_net ag2) with (_use_target_net ag).
  destruct (_use_target_net ag) eqn:Hflag.
  - destruct (Htarget eq_refl) as (Hv & Ht & Hwv & Hwt).
    destruct (Hstarget eq_refl) as (Hsv & Hst).
    destruct (serialise_stored ag v (proj2 Hwv)) as (dv & Ev & _).
    destruct (serialise_stored ag t (proj2 Hwt)) as (dt & Et & _).
    assert (Hv' : _values_model ag' = Some v) by (rewrite (Fv _ _ Hattr); exact Hv).
    assert (Ht' : _target_net ag' = Some t) by (rewrite (Ft _ _ Hattr); exact Ht).
    rewrite (then_save_one _values_model "_values.pt" file_path it _ ag2 v dv Hv Ev).
    set (ag3 := set_dicts _ ag2).
    rewrite (then_save_one _target_net "_target.pt" file_path it _ ag3 t dt Ht Et).
    cbn [fst snd].
    set (files := <[model_path file_path it "_target.pt" := dt]> _).
    assert (L1 : files !! model_path file_path it ".pt" = Some dm).
    { unfold files.
      rewrite !lookup_insert_ne by (apply model_paths_distinct; discriminate).
      apply lookup_insert_eq. }
    assert (L2 : files !! model_path file_path it "_full.pt" = Some df).
    { unfold files.
      rewrite !lookup_insert_ne by (apply model_paths_distinct; discriminate).
      apply lookup_insert_eq. }
    assert (L3 : files !! model_path file_path it "_values.pt" = Some dv).
    { unfold files.
      rewrite !lookup_insert_ne by (apply model_paths_distinct; discriminate).
      apply lookup_insert_eq. }
    assert (L4 : files !! model_path file_path it "_target.pt" = Some dt)
      by apply lookup_insert_eq.
    clearbody files.
    destruct (load_one_saved ag ag' ag' [] _model m files _ dm
                (restored_nothing ag ag') Fm Hm' Hwm Hsm Em L1) as (a1 & E1 & R1).
    rewrite E1.
    destruct (load_one_saved ag ag' a1 _ _full_model f files _ df
                R1 Ff Hf' Hwf Hsf Ef L2) as (a2 & E2 & R2).
    rewrite E2, self_bind.
    rewrite (f_equal _use_target_net (proj1 R2) : _use_target_net a2 = _use_target_net ag').
    rewrite (f_equal _use_target_net Hattr : _use_target_net ag' = _use_target_net ag).
    rewrite Hflag.
    destruct (load_one_saved ag ag' a2 _ _values_model v files _ dv
                R2 Fv Hv' Hwv Hsv Ev L3) as (a3 & E3 & R3).
    rewrite E3.
    destruct (load_one_saved ag ag' a3 _ _target_net t files _ dt
                R3 Ft Ht' Hwt Hst Et L4) as (a4 & E4 & R4).
    specialize (E4 unit (fun _ => mret tt)).
    assert (E4' : (attr _target_net ≫= fun target_net =>
                     torch_load files (model_path file_path it "_target.pt")
                     ≫= fun sd => load_state_dict target_net sd) a3
                  = (Ok tt, a4)).
    { etransitivity; [| exact E4]. unfold mbind, T_bind.
      destruct (attr _target_net a3) as [[x|e] y]; [| reflexivity].
      destruct (torch_load files _ y) as [[x'|e] y']; [| reflexivity].
      destruct (load_state_dict x x' y') as [[[]|e] y'']; reflexivity. }
    rewrite E4'. cbn [fst snd].
    split; [reflexivity |]. split; [reflexivity |]. split; [reflexivity |].
    split; [exact (proj1 R4) |].
    split; [| split; [| intros _; split]];
      apply (restored_parameter_values _ _ _ _ _ R4); intros c Hc;
      rewrite !elem_of_app; auto.
  - cbn [fst snd].
    set (files := <[model_path file_path it "_full.pt" := df]> _).
    assert (L1 : files !! model_path file_path it ".pt" = Some dm).
    { unfold files.
      rewrite !lookup_insert_ne by (apply model_paths_distinct; discriminate).
      apply lookup_insert_eq. }
    assert (L2 : files !! model_path file_path it "_full.pt" = Some df)
      by apply lookup_insert_eq.
    clearbody files.
    destruct (load_one_saved ag ag' ag' [] _model m files _ dm
                (restored_nothing ag ag') Fm Hm' Hwm Hsm Em L1) as (a1 & E1 & R1).
    rewrite E1.
    destruct (load_one_saved ag ag' a1 _ _full_model f files _ df
                R1 Ff Hf' Hwf Hsf Ef L2) as (a2 & E2 & R2).
    rewrite E2, self_bind.
    rewrite (f_equal _use_target_net (proj1 R2) : _use_target_net a2 = _use_target_net ag').
    rewrite (f_equal _use_target_net Hattr : _use_target_net ag' = _use_target_net ag).
    rewrite Hflag. cbn [fst snd].
    split; [reflexivity |]. split; [reflexivity |]. split; [reflexivity |].
    split; [exact (proj1 R2) |].
    split; [| split; [| discriminate]];
      apply (restored_parameter_values _ _ _ _ _ R2); intros c Hc;
      rewrite !elem_of_app; auto.
Qed.

Lemma actor_critic_files_round_trip_witness :
  let m := default [] (_model AgentExamples.a2c) in
  let f := default [] (_full_model AgentExamples.a2c) in
  let saved := save_model ∅ "models" (Some 3) AgentExamples.a2c in
  let loaded :=
    AdvantageActorCriticAgent.load_model saved.2 "models" (Some 3)
      AgentExamples.a2c_trained in
  parameter_values AgentExamples.a2c_trained m = replicate 10 (Some [7%Q]) /\
  parameter_values AgentExamples.a2c m = replicate 10 (Some [1%Q]) /\
  saved.1.1 = Ok tt /\ loaded.1 = Ok tt /\
  parameter_values loaded.2 m = parameter_values AgentExamples.a2c m /\
  parameter_values loaded.2 f = parameter_values AgentExamples.a2c f.
Proof.
  cbn zeta.
  destruct (actor_critic_files_round_trip ∅ "models" (Some 3)
              AgentExamples.a2c AgentExamples.a2c_trained
              (default [] (_model AgentExamples.a2c))
              (default [] (_full_model AgentExamples.a2c))
              (default [] (_values_model AgentExamples.a2c))
              (default [] (_target_net AgentExamples.a2c)))
    as (S1 & _ & L1 & _ & L2 & L3 & _).
  - vm_compute; reflexivity.
  - vm_compute; reflexivity.
  - split; apply (bool_decide_unpack _); vm_compute; exact I.
  - split; apply (bool_decide_unpack _); vm_compute; exact I.
  - intros _. split; [vm_compute; reflexivity |].
    split; [vm_compute; reflexivity |].
    split; split; apply (bool_decide_unpack _); vm_compute; exact I.
  - vm_compute; reflexivity.
  - apply (bool_decide_unpack _); vm_compute; exact I.
  - apply (bool_decide_unpack _); vm_compute; exact I.
  - intros _. split; apply (bool_decide_unpack _); vm_compute; exact I.
  - split; [vm_compute; reflexivity |]. split; [vm_compute; reflexivity |].
    split; [exact S1 |]. split; [exact L1 |]. split; [exact L2 | exact L3].
Defined.

End ActorCriticSaveLoad.
